(** * hosby-cli: schema hashing, sanitising, filtering and synchronisation

    A shallow embedding of the parts of the Hosby command-line client that
    decide how a schema document is hashed ([src/helpers/utils.ts]),
    sanitised and filtered ([src/helpers/filterSchema.ts]), merged and pulled
    ([src/services/pull.service.ts], [src/commands/pull.ts]), pushed
    ([src/services/push.service.ts], [src/commands/push.ts]) and inferred
    through an AI provider ([src/core/ai.ts], [src/commands/scan.ts]); the
    structural scan ([src/scripts/schema.ts]), the project information of
    the schema file ([src/core/config.ts]) and the comparison of versions
    ([src/scripts/versionCheck.ts]) are covered as well.

    Conventions of the embedding.
    - A JavaScript string is a [string]; each [ascii] stands for one UTF-16
      code unit, so the model covers the strings whose code units are below
      256.
    - A JSON value is a [json] tree.  An object is the list of its own
      properties in enumeration order; a number is identified with the text
      ECMAScript prints for it.
    - ECMAScript numbers are IEEE doubles.  The only arithmetic the modelled
      code performs is on integers, so a number is a [Z] and every addition
      is followed by the rounding to the nearest double ([roundDouble]).
      The parts of a version are compared as numbers of any kind; there a
      number is a [jsnumber].
    - A line the program prints is a [Say] with the text of the line;
      colours, symbols outside the modelled code units and the lines of the
      logger are left out. *)

From Stdlib Require Import ZArith Lia Ascii String List Bool.
From Stdlib Require QArith Lqa.
From stdpp Require Import base list gmap strings sorting.

Set Warnings "-register-all".

Local Open Scope string_scope.
Local Open Scope list_scope.
Local Open Scope Z_scope.

(* ===================================================================== *)
(** ** JSON values *)
(* ===================================================================== *)

Inductive json : Type :=
| JNull
| JBool (b : bool)
| JNum (repr : string)
| JStr (s : string)
| JArr (items : list json)
| JObj (fields : list (string * json)).

(** Structural induction that also covers the values nested in arrays and
    objects. *)
Section json_induction.
Variable P : json → Prop.
Hypothesis Hnull : P JNull.
Hypothesis Hbool : ∀ b, P (JBool b).
Hypothesis Hnum : ∀ r, P (JNum r).
Hypothesis Hstr : ∀ s, P (JStr s).
Hypothesis Harr : ∀ l, Forall P l → P (JArr l).
Hypothesis Hobj : ∀ fs, Forall (λ kv, P kv.2) fs → P (JObj fs).

Fixpoint json_rect_deep (v : json) : P v :=
  match v with
  | JNull => Hnull
  | JBool b => Hbool b
  | JNum r => Hnum r
  | JStr s => Hstr s
  | JArr l =>
      Harr l ((fix go (l : list json) : Forall P l :=
                 match l with
                 | [] => Forall_nil_2 P
                 | x :: l' => Forall_cons_2 P x l' (json_rect_deep x) (go l')
                 end) l)
  | JObj fs =>
      Hobj fs ((fix go (fs : list (string * json)) : Forall (λ kv, P kv.2) fs :=
                  match fs with
                  | [] => Forall_nil_2 _
                  | kv :: fs' =>
                      Forall_cons_2 (λ kv, P kv.2) kv fs' (json_rect_deep kv.2) (go fs')
                  end) fs)
  end.
End json_induction.

(** Own-property lookup [o[k]] on a property list: the first binding wins
    (keys of a real object are unique). *)
Fixpoint assoc {A} (k : string) (fs : list (string * A)) : option A :=
  match fs with
  | [] => None
  | (k', v) :: fs' => if String.eqb k k' then Some v else assoc k fs'
  end.

Definition keys {A} (fs : list (string * A)) : list string := fst <$> fs.

(* ===================================================================== *)
(** ** Strings *)
(* ===================================================================== *)

Definition charCode (c : ascii) : Z := Z.of_N (N_of_ascii c).

Definition ascii_of_Z (z : Z) : ascii := ascii_of_N (Z.to_N z).

(** [s.startsWith(p)] *)
Definition startsWith (s p : string) : bool := String.prefix p s.

(** [s.endsWith(p)] *)
Definition endsWith (s p : string) : bool :=
  String.prefix (String.rev p) (String.rev s).

(** [s.includes(p)] *)
Fixpoint includes (s p : string) : bool :=
  String.prefix p s ||
  match s with
  | EmptyString => false
  | String _ s' => includes s' p
  end.

(** [String.prototype.toLowerCase] on code units below 256: the Latin
    capitals A-Z and the Latin-1 capitals U+00C0-U+00DE (U+00D7, the
    multiplication sign, excepted) move up by 32. *)
Definition lowerChar (c : ascii) : ascii :=
  let n := charCode c in
  if ((65 <=? n) && (n <=? 90)) || ((192 <=? n) && (n <=? 222) && negb (n =? 215))
  then ascii_of_Z (n + 32) else c.

Fixpoint toLowerCase (s : string) : string :=
  match s with
  | EmptyString => EmptyString
  | String c s' => String (lowerChar c) (toLowerCase s')
  end.

Fixpoint join (sep : string) (l : list string) : string :=
  match l with
  | [] => ""
  | [x] => x
  | x :: l' => x +:+ sep +:+ join sep l'
  end.

(* ===================================================================== *)
(** ** Ordinary objects: property order and assignment *)
(* ===================================================================== *)

Fixpoint digitsValue (s : string) (acc : Z) : option Z :=
  match s with
  | EmptyString => Some acc
  | String c s' =>
      let n := charCode c in
      if (48 <=? n) && (n <=? 57) then digitsValue s' (acc * 10 + (n - 48)) else None
  end.

(** A property key is an array index when it is the canonical decimal text
    of an integer between 0 and 2^32 - 2. *)
Definition arrayIndex (k : string) : option Z :=
  match k with
  | EmptyString => None
  | String c rest =>
      if (charCode c =? 48) && negb (String.eqb rest "") then None
      else match digitsValue k 0 with
           | Some n => if n <=? 4294967294 then Some n else None
           | None => None
           end
  end.

Fixpoint obj_update {A} (k : string) (v : A) (fs : list (string * A)) : list (string * A) :=
  match fs with
  | [] => []
  | (k', v') :: fs' =>
      if String.eqb k k' then (k', v) :: fs' else (k', v') :: obj_update k v fs'
  end.

(** A new array-index key is enumerated in ascending numeric order, before
    every key that is not an array index. *)
Fixpoint obj_insert_index {A} (i : Z) (k : string) (v : A) (fs : list (string * A))
  : list (string * A) :=
  match fs with
  | [] => [(k, v)]
  | (k', v') :: fs' =>
      match arrayIndex k' with
      | Some j => if j <? i then (k', v') :: obj_insert_index i k v fs' else (k, v) :: fs
      | None => (k, v) :: fs
      end
  end.

(** [CreateDataProperty], as used by object spread: an existing key keeps
    its place, a new array index goes to its numeric place, any other new
    key goes last. *)
Definition createDataProperty {A} (k : string) (v : A) (fs : list (string * A))
  : list (string * A) :=
  match assoc k fs with
  | Some _ => obj_update k v fs
  | None =>
      match arrayIndex k with
      | Some i => obj_insert_index i k v fs
      | None => fs ++ [(k, v)]
      end
  end.

(** The assignment [o[k] = v] on an ordinary object.  An own property is
    overwritten; otherwise the key [__proto__] reaches the setter inherited
    from [Object.prototype], which creates no own property. *)
Definition obj_set {A} (k : string) (v : A) (fs : list (string * A)) : list (string * A) :=
  match assoc k fs with
  | Some _ => obj_update k v fs
  | None => if String.eqb k "__proto__" then fs else createDataProperty k v fs
  end.

(* ===================================================================== *)
(** ** [getSchemaHash]  (src/helpers/utils.ts) *)
(* ===================================================================== *)

(** [Object.keys(value).sort()]: the keys in ascending code-unit order. *)
Definition sortKeys (ks : list string) : list string := merge_sort String.le ks.

(** The replacer's [reduce]: a fresh object that receives
    [sorted[key] = value[key]] for each key in sorted order. *)
Definition sortedCopy {A} (fs : list (string * A)) : list (string * A) :=
  foldl (λ sorted key,
           match assoc key fs with
           | Some v => obj_set key v sorted
           | None => sorted
           end) [] (sortKeys (keys fs)).

(** What the replacer does to a whole document: [JSON.stringify] applies it
    to the root and then to each property of the value it returned, so every
    object that is truthy and not an array is replaced by its sorted copy.
    The copy only moves values, so the values are normalised first here. *)
Fixpoint sortKeysDeep (v : json) : json :=
  match v with
  | JArr l => JArr (sortKeysDeep <$> l)
  | JObj fs => JObj (sortedCopy (fmap (λ '(k, c), (k, sortKeysDeep c)) fs))
  | _ => v
  end.

Definition dquote : ascii := "034"%char.
Definition bslash : ascii := "\"%char.

Definition hexDigit (d : Z) : ascii :=
  if d <? 10 then ascii_of_Z (48 + d) else ascii_of_Z (87 + d).

(** [QuoteJSONString] for one code unit below 256. *)
Definition quoteChar (c : ascii) : string :=
  let n := charCode c in
  if n =? 34 then String bslash (String dquote "")
  else if n =? 92 then String bslash (String bslash "")
  else if n =? 8 then String bslash "b"
  else if n =? 9 then String bslash "t"
  else if n =? 10 then String bslash "n"
  else if n =? 12 then String bslash "f"
  else if n =? 13 then String bslash "r"
  else if n <? 32 then
    String bslash ("u00" +:+ String (hexDigit (n / 16)) (String (hexDigit (n mod 16)) ""))
  else String c "".

Fixpoint quoteBody (s : string) : string :=
  match s with
  | EmptyString => ""
  | String c s' => quoteChar c +:+ quoteBody s'
  end.

Definition quote (s : string) : string :=
  String dquote (quoteBody s +:+ String dquote "").

(** [JSON.stringify(v)] without indentation. *)
Fixpoint stringify (v : json) : string :=
  match v with
  | JNull => "null"
  | JBool true => "true"
  | JBool false => "false"
  | JNum r => r
  | JStr s => quote s
  | JArr l => "[" +:+ join "," (stringify <$> l) +:+ "]"
  | JObj fs => "{" +:+ join "," (fmap (λ '(k, c), quote k +:+ ":" +:+ stringify c) fs) +:+ "}"
  end.

Definition stableJson (schema : json) : string := stringify (sortKeysDeep schema).

(** [ToInt32] of an integral number. *)
Definition toInt32 (x : Z) : Z := (x + 2147483648) mod 4294967296 - 2147483648.

(** The double nearest to an integer, ties to even: integers up to 2^53 in
    magnitude are doubles; beyond, 53 significant bits are kept. *)
Definition roundDouble (x : Z) : Z :=
  let a := Z.abs x in
  if a <=? 9007199254740992 then x
  else
    let e := Z.log2 a - 52 in
    let q := a / 2 ^ e in
    let r := a mod 2 ^ e in
    let q' := if (2 ^ e <? 2 * r) || ((2 * r =? 2 ^ e) && Z.odd q) then q + 1 else q in
    Z.sgn x * (q' * 2 ^ e).

(** One turn of the loop: [hash = ((hash << 5) + hash) + charCodeAt(i)]. *)
Definition hashStep (hash : Z) (c : ascii) : Z :=
  roundDouble (roundDouble (toInt32 (toInt32 hash * 32) + hash) + charCode c).

Fixpoint hashLoop (hash : Z) (s : string) : Z :=
  match s with
  | EmptyString => hash
  | String c s' => hashLoop (hashStep hash c) s'
  end.

Definition digit36 (d : Z) : ascii :=
  if d <? 10 then ascii_of_Z (48 + d) else ascii_of_Z (87 + d).

Fixpoint toString36_go (fuel : nat) (n : Z) (acc : string) : string :=
  match fuel with
  | O => acc
  | S fuel' =>
      let acc' := String (digit36 (n mod 36)) acc in
      if n / 36 =? 0 then acc' else toString36_go fuel' (n / 36) acc'
  end.

(** [n.toString(36)] for an integer [n >= 0]. *)
Definition toString36 (n : Z) : string :=
  toString36_go (S (Z.to_nat (Z.log2 n))) n "".

Definition getSchemaHash (schema : json) : string :=
  let hash := hashLoop 5381 (stableJson schema) in
  toString36 (Z.land (toInt32 hash) 2147483647).

(** The polynomial rolling hash the loop is meant to compute: [h * 33 + c]
    from the seed 5381. *)
Fixpoint rollingHash (h : Z) (s : string) : Z :=
  match s with
  | EmptyString => h
  | String c s' => rollingHash (h * 33 + charCode c) s'
  end.

(** Two documents with the same content whose objects list their keys in a
    different order: related values in arrays position by position, related
    values under the same keys in objects, the properties permuted. *)
Inductive reordered : json → json → Prop :=
| reordered_same v : reordered v v
| reordered_arr l l' :
    Forall2 reordered l l' → reordered (JArr l) (JArr l')
| reordered_obj fs fs' fs'' :
    Forall2 (λ kv kv', kv.1 = kv'.1 ∧ reordered kv.2 kv'.2) fs fs' →
    fs' ≡ₚ fs'' →
    reordered (JObj fs) (JObj fs'').

(** The keys of every object of the document are pairwise distinct, as
    they are in any JavaScript object. *)
Fixpoint uniqueKeys (v : json) : bool :=
  match v with
  | JArr l => forallb uniqueKeys l
  | JObj fs => bool_decide (NoDup (keys fs)) && forallb (λ '(k, c), uniqueKeys c) fs
  | _ => true
  end.

(** Reading a base-36 numeral back. *)
Definition digit36Value (c : ascii) : Z :=
  let n := charCode c in if n <? 58 then n - 48 else n - 87.

Fixpoint parse36 (acc : Z) (s : string) : Z :=
  match s with
  | EmptyString => acc
  | String c s' => parse36 (acc * 36 + digit36Value c) s'
  end.

Definition ex_doc1 : json :=
  JObj [("tables", JObj [("users", JObj [("id", JStr "string"); ("age", JStr "number")])]);
        ("version", JStr "1.0.0")].
Definition ex_doc2 : json :=
  JObj [("version", JStr "1.0.0");
        ("tables", JObj [("users", JObj [("age", JStr "number"); ("id", JStr "string")])])].

(** Two documents that differ in the order of the two (different) elements
    of one array. *)
Definition ex_arr (a b : json) : json :=
  JObj [("tables", JObj [("orders", JObj [("status", JArr [a; b])])])].

(* ===================================================================== *)
(** ** Run-time values and exceptions *)
(* ===================================================================== *)

(** A thrown [Error]: its [name], [code], [message] and, for a failed HTTP
    request, the [response.status] and [response.data] it carries. *)
Record jserror : Type := JsError {
  err_name : string;
  err_code : option string;
  err_message : string;
  err_status : option Z;
  err_data : option json
}.

Definition mkError (msg : string) : jserror := JsError "Error" None msg None None.
Definition typeError (msg : string) : jserror := JsError "TypeError" None msg None None.

Inductive result (A : Type) : Type :=
| Ok (a : A)
| Throw (e : jserror).
Arguments Ok {A} a.
Arguments Throw {A} e.

(** [!!v] *)
Definition truthy (v : json) : bool :=
  match v with
  | JNull => false
  | JBool b => b
  | JNum r => negb (String.eqb r "0")
  | JStr s => negb (String.eqb s "")
  | JArr _ | JObj _ => true
  end.

Definition truthyOpt (o : option json) : bool :=
  match o with Some v => truthy v | None => false end.

(** [typeof v === 'object'] (true of [null] as well). *)
Definition typeofObject (v : json) : bool :=
  match v with
  | JNull | JArr _ | JObj _ => true
  | _ => false
  end.

(** [a || b] where [a] may be [undefined]. *)
Definition orElse (a : option json) (b : json) : json :=
  match a with
  | Some v => if truthy v then v else b
  | None => b
  end.

Fixpoint natToString_go (fuel : nat) (n : Z) (acc : string) : string :=
  match fuel with
  | O => acc
  | S fuel' =>
      let acc' := String (ascii_of_Z (48 + n mod 10)) acc in
      if n / 10 =? 0 then acc' else natToString_go fuel' (n / 10) acc'
  end.

(** [String(i)] for an array index [i]. *)
Definition indexKey (i : nat) : string :=
  natToString_go (S i) (Z.of_nat i) "".

Fixpoint indexedFrom {A} (i : nat) (l : list A) : list (string * A) :=
  match l with
  | [] => []
  | x :: l' => (indexKey i, x) :: indexedFrom (S i) l'
  end.

Fixpoint chars (s : string) : list json :=
  match s with
  | EmptyString => []
  | String c s' => JStr (String c "") :: chars s'
  end.

(** The own enumerable string-keyed properties of a value, in enumeration
    order: what [Object.keys], [Object.entries] and object spread see. *)
Definition ownProps (v : json) : list (string * json) :=
  match v with
  | JObj fs => fs
  | JArr l => indexedFrom 0 l
  | JStr s => indexedFrom 0 (chars s)
  | _ => []
  end.

(** The read [v[k]] of a property: a key of an object, an index of an array
    or of a string.  The modelled code reads own keys and the names [tables],
    [version], [metadata], [type], [schema], [data], [updated], [time],
    [hash], [project], [id], [name], which no built-in prototype defines;
    [None] is [undefined]. *)
Definition getProp (v : json) (k : string) : option json :=
  match v with
  | JObj fs => assoc k fs
  | JArr l =>
      match arrayIndex k with
      | Some i => l !! Z.to_nat i
      | None => None
      end
  | JStr s =>
      match arrayIndex k with
      | Some i => chars s !! Z.to_nat i
      | None => None
      end
  | _ => None
  end.

(** [{ ...src }] continued into [target]: each own property is defined in
    turn. *)
Definition spreadInto (target : list (string * json)) (src : json) : list (string * json) :=
  foldl (λ acc '(k, v), createDataProperty k v acc) target (ownProps src).

(** [String(v)] for a value that is not an object (no object reaches the
    conversion in the modelled code). *)
Definition stringOfScalar (v : json) : string :=
  match v with
  | JNull => "null"
  | JBool true => "true"
  | JBool false => "false"
  | JNum r => r
  | JStr s => s
  | JArr _ | JObj _ => "[object Object]"
  end.

(** A value that may be an array carrying named properties besides its
    elements: assigning [schema.tables = {}] to a document that is an array
    produces one. *)
Inductive jsval : Type :=
| Json (v : json)
| ArrWith (items : list json) (named : list (string * json)).

Definition rootTruthy (r : jsval) : bool :=
  match r with Json v => truthy v | ArrWith _ _ => true end.

Definition rootIsObject (r : jsval) : bool :=
  match r with Json v => typeofObject v | ArrWith _ _ => true end.

Definition rootGet (r : jsval) (k : string) : option json :=
  match r with
  | Json v => getProp v k
  | ArrWith l named =>
      match arrayIndex k with
      | Some i => l !! Z.to_nat i
      | None => assoc k named
      end
  end.

(** The assignment [r[k] = v] for a name [k] that is not an array index, on
    a root that is an object or an array. *)
Definition rootSetNamed (r : jsval) (k : string) (v : json) : jsval :=
  match r with
  | Json (JObj fs) => Json (JObj (obj_set k v fs))
  | Json (JArr l) => ArrWith l (obj_set k v [])
  | ArrWith l named => ArrWith l (obj_set k v named)
  | Json _ => r
  end.

(* ===================================================================== *)
(** ** [sanitizeSchema] and [filterSchema]  (src/helpers/filterSchema.ts) *)
(* ===================================================================== *)

Definition VALID_COLUMN_TYPES : list string :=
  ["string"; "number"; "boolean"; "date"; "array"; "object"; "enum"].

(** [VALID_COLUMN_TYPES.includes(t)] *)
Definition isValidColumnType (t : string) : bool :=
  existsb (String.eqb t) VALID_COLUMN_TYPES.

(** The test made on a plain-string column: an enum marker, or a base type
    alone or followed by [:] or [[]. *)
Definition startsWithEnumMarker (columnDef : string) : bool :=
  startsWith (toLowerCase columnDef) "enum[" || startsWith (toLowerCase columnDef) "enum:[".

Definition matchesValidType (columnDef : string) : bool :=
  let lowerVal := toLowerCase columnDef in
  existsb (λ type, String.eqb lowerVal type
                   || startsWith lowerVal (type +:+ ":")
                   || startsWith lowerVal (type +:+ "["))
          VALID_COLUMN_TYPES.

(** The body of the inner loop: the value stored back for one column.  An
    array is an object for [typeof], so it takes the first branch; the
    [Array.isArray] branch comes after the two tests it would have to
    precede and is never taken. *)
Definition sanitizeColumn (columnDef : json) : json :=
  match columnDef with
  | JObj _ | JArr _ =>
      match getProp columnDef "type" with
      | Some (JStr t) =>
          if isValidColumnType t then columnDef
          else JObj (createDataProperty "type" (JStr "string") (spreadInto [] columnDef))
      | _ => JObj (createDataProperty "type" (JStr "string") (spreadInto [] columnDef))
      end
  | JStr s =>
      if startsWithEnumMarker s then columnDef
      else if matchesValidType s then columnDef
      else JStr "string"
  | _ => JStr (stringOfScalar columnDef)
  end.

(** One turn of the outer loop: the value held by [tables[table]]
    afterwards.  The columns are visited by key and each is assigned in
    place, which keeps keys and their order. *)
Definition sanitizeTable (t : json) : json :=
  match t with
  | JObj fs => JObj (fmap (λ '(k, c), (k, sanitizeColumn c)) fs)
  | JArr l => JArr (sanitizeColumn <$> l)
  | _ => JObj []
  end.

(** The outer loop over [Object.keys(schemaObj.tables)].  Assigning to an
    index of a string primitive throws in strict code (the modules are ES
    modules); a number or [true] has no keys. *)
Definition sanitizeTables (tables : json) : result json :=
  match tables with
  | JObj fs => Ok (JObj (fmap (λ '(k, t), (k, sanitizeTable t)) fs))
  | JArr l => Ok (JArr (sanitizeTable <$> l))
  | JStr (String _ _) => Throw (typeError "Cannot assign to read only property of string")
  | _ => Ok tables
  end.

Definition sanitizeSchema (schema : jsval) : result jsval :=
  if negb (rootTruthy schema) || negb (rootIsObject schema) then
    Ok (Json (JObj [("tables", JObj [])]))
  else
    match rootGet schema "tables" with
    | Some tables =>
        if truthy tables then
          match sanitizeTables tables with
          | Ok tables' => Ok (rootSetNamed schema "tables" tables')
          | Throw e => Throw e
          end
        else Ok (rootSetNamed schema "tables" (JObj []))
    | None => Ok (rootSetNamed schema "tables" (JObj []))
    end.

Definition IGNORED_COMPONENTS : list string :=
  ["buttonprops"; "buttonpropss"; "badgeprops"; "badgepropss";
   "sheetcontentprops"; "sheetcontentpropss"; "sheetprops"; "sheetpropss";
   "tooltipprops"; "tooltippropss"; "toastprops"; "toastpropss";
   "modalprops"; "modalpropss"; "columnmodalprops"; "columnmodalpropss";
   "droppablecolumnprops"; "droppablecolumnpropss"; "taskcardprops"; "taskcardpropss";
   "taskmodalprops"; "taskmodalpropss";
   "calendar"; "calendars"; "command"; "commands"; "dialog"; "dialogs";
   "alert"; "alerts"; "alertdialog"; "alertdialogs"; "accordion"; "accordions";
   "tooltip"; "tooltips"; "toast"; "toasts";
   "state"; "states"].

Definition isLineTerminator (c : ascii) : bool :=
  (charCode c =? 10) || (charCode c =? 13).

(** [new RegExp('^' + pattern.replace(/\*/g, '.*') + '$', 'i').test(s)] for
    a pattern made of letters, digits and [*]: a star stands for any run of
    characters other than line terminators, any other character for itself
    up to case. *)
Fixpoint wildcardMatch (fuel : nat) (pattern s : string) : bool :=
  match fuel with
  | O => false
  | S fuel' =>
      match pattern with
      | EmptyString => String.eqb s ""
      | String p pattern' =>
          if (charCode p =? 42) then
            wildcardMatch fuel' pattern' s ||
            match s with
            | String c s' => negb (isLineTerminator c) && wildcardMatch fuel' pattern s'
            | EmptyString => false
            end
          else
            match s with
            | String c s' =>
                Ascii.eqb (lowerChar p) (lowerChar c) && wildcardMatch fuel' pattern' s'
            | EmptyString => false
            end
      end
  end.

Definition isIgnoredByPattern (tableLower : string) : bool :=
  existsb (λ pattern,
             if includes pattern "*" then
               wildcardMatch (S (String.length pattern + String.length tableLower))
                             pattern tableLower
             else String.eqb tableLower (toLowerCase pattern))
          IGNORED_COMPONENTS.

Definition uiPatterns : list string :=
  ["props"; "state"; "config"; "options"; "context";
   "button"; "modal"; "dialog"; "card"; "panel"; "menu"; "nav";
   "form"; "input"; "select"; "checkbox"; "radio"; "switch";
   "dropdown"; "tooltip"; "popover"; "toast"; "notification";
   "spinner"; "loader"; "progress"; "skeleton"; "icon";
   "avatar"; "badge"; "tag"; "label"; "tab"; "accordion";
   "slider"; "pagination"; "breadcrumb"; "stepper"; "timeline";
   "component"; "element"; "widget"; "view"; "control"; "renderer"].

Definition isUIComponentTable (tableName : string) : bool :=
  existsb (λ pattern, endsWith tableName pattern || endsWith tableName (pattern +:+ "s"))
          uiPatterns
  || includes tableName "ui"
  || includes tableName "layout"
  || includes tableName "style"
  || includes tableName "theme"
  || includes tableName "display".

(** [Object.keys(columns).length > 0] *)
Definition hasColumns (columns : json) : bool :=
  match ownProps columns with [] => false | _ => true end.

(** The loop over [Object.entries(schema.tables)], building
    [filtered.tables] from the empty object. *)
Definition filterTables (tables : json) : list (string * json) :=
  foldl (λ filtered '(table, columns),
           if negb (truthy columns) || negb (typeofObject columns) then filtered
           else
             let tableLower := toLowerCase table in
             if hasColumns columns
                && negb (isIgnoredByPattern tableLower)
                && negb (isUIComponentTable tableLower)
             then obj_set table columns filtered
             else filtered)
        [] (ownProps tables).

Definition filterSchema (schema : jsval) : result json :=
  if negb (rootTruthy schema) || negb (rootIsObject schema) then
    Throw (mkError "Invalid schema: Schema must be an object")
  else
    match rootGet schema "tables" with
    | Some tables =>
        if negb (truthy tables) || negb (typeofObject tables) then
          Ok (JObj [("tables", JObj [])])
        else
          Ok (JObj [("tables", JObj (filterTables tables));
                    ("version", orElse (rootGet schema "version") (JStr "1.0.0"));
                    ("metadata", orElse (rootGet schema "metadata") (JObj []))])
    | None => Ok (JObj [("tables", JObj [])])
    end.

(** [filterSchema(sanitizeSchema(schema))], as [processAndFilterSchema]
    composes them. *)
Definition sanitizeThenFilter (schema : jsval) : result json :=
  match sanitizeSchema schema with
  | Ok s => filterSchema s
  | Throw e => Throw e
  end.

(** The column type vocabulary as the sanitiser recognises it: a string
    that starts with an enum marker or matches a base type, or a descriptor
    whose [type] is one of the base type names. *)
Definition inVocabulary (v : json) : bool :=
  match v with
  | JStr s => startsWithEnumMarker s || matchesValidType s
  | JObj fs =>
      match assoc "type" fs with
      | Some (JStr t) => isValidColumnType t
      | _ => false
      end
  | _ => false
  end.

(** [v] is the definition of column [c] of table [t] in the document. *)
Definition columnAt (doc : jsval) (t c : string) (v : json) : Prop :=
  ∃ tables table,
    rootGet doc "tables" = Some tables ∧
    (t, table) ∈ ownProps tables ∧
    (c, v) ∈ ownProps table.

(** What sanitising makes of a column definition [v0], by the kind of
    [v0]; nothing is said of arrays. *)
Definition columnSpec (v0 v : json) : Prop :=
  match v0 with
  | JStr s =>
      v = (if startsWithEnumMarker s || matchesValidType s then v0 else JStr "string")
      ∧ inVocabulary v = true
  | JObj _ => inVocabulary v = true
  | JArr _ => True
  | JNull | JBool _ | JNum _ => v = JStr (stringOfScalar v0)
  end.

(** [schema.tables] is a non-empty string. *)
Definition tablesIsText (schema : jsval) : bool :=
  match rootGet schema "tables" with
  | Some (JStr (String _ _)) => true
  | _ => false
  end.

Definition ex_numeric_column : jsval :=
  Json (JObj [("tables", JObj [("orders", JObj [("id", JStr "string"); ("total", JNum "42")])])]).

(** [schema.tables] is truthy without being an object: a number other than
    zero, [true] or a non-empty string. *)
Definition tablesIsScalar (schema : jsval) : bool :=
  rootTruthy schema && rootIsObject schema &&
  match rootGet schema "tables" with
  | Some t => truthy t && negb (typeofObject t)
  | None => false
  end.

Definition ex_project : json := JObj [("project", JObj [("id", JStr "p1"); ("name", JStr "shop")])].

Definition ex_empty_version : jsval :=
  Json (JObj [("tables", JObj [("orders", JObj [("id", JStr "string")])]);
              ("version", JStr ""); ("metadata", ex_project)]).

Definition ex_extra_field : jsval :=
  Json (JObj [("tables", JObj [("orders", JObj [("id", JStr "string")])]);
              ("metadata", ex_project); ("generatedBy", JStr "ai")]).

Definition ex_scalar_tables : jsval :=
  Json (JObj [("tables", JNum "5"); ("version", JStr "2.0.0"); ("metadata", ex_project)]).

(* ===================================================================== *)
(** ** [mergeSchemas]  (src/services/pull.service.ts) *)
(* ===================================================================== *)

(** The member read [v.k]: a [TypeError] on [null], [undefined] ([None])
    when the property is missing. *)
Definition getMember (v : json) (k : string) : result (option json) :=
  match v with
  | JNull => Throw (typeError "Cannot read properties of null")
  | _ => Ok (getProp v k)
  end.

(** [{ ...a }] where [a] may be [undefined]. *)
Definition spreadOptInto (target : list (string * json)) (src : option json)
  : list (string * json) :=
  match src with
  | Some v => spreadInto target v
  | None => target
  end.

(** [{ ...localSchema, ...serverSchema,
       tables: { ...localSchema.tables, ...serverSchema.tables } }] *)
Definition mergeSchemas (localSchema serverSchema : json) : result json :=
  let top := spreadInto (spreadInto [] localSchema) serverSchema in
  match getMember localSchema "tables" with
  | Throw e => Throw e
  | Ok localTables =>
      match getMember serverSchema "tables" with
      | Throw e => Throw e
      | Ok serverTables =>
          let tables := spreadOptInto (spreadOptInto [] localTables) serverTables in
          Ok (JObj (createDataProperty "tables" (JObj tables) top))
      end
  end.

(** The own enumerable property [k] of a value that may be [undefined]. *)
Definition ownGet (o : option json) (k : string) : option json :=
  match o with
  | Some v => assoc k (ownProps v)
  | None => None
  end.

Definition ownKeysDistinct (o : option json) : Prop :=
  match o with
  | Some v => NoDup (keys (ownProps v))
  | None => True
  end.

Definition ex_local : json :=
  JObj [("tables", JObj [("users", JObj [("id", JStr "string"); ("name", JStr "string")]);
                         ("drafts", JObj [("id", JStr "string")])]);
        ("metadata", ex_project)].

Definition ex_server : json :=
  JObj [("tables", JObj [("users", JObj [("id", JStr "string"); ("email", JStr "string")]);
                         ("orders", JObj [("id", JStr "string")])]);
        ("version", JStr "1.0.0")].

(* ===================================================================== *)
(** ** Effects: files, clock, network, prompts *)
(* ===================================================================== *)

(** The text of a file or of a message.  A text that is valid JSON is
    identified with the value it parses to, so that [JSON.stringify] and
    [JSON.parse] are the two directions of [JsonText]. *)
Inductive text : Type :=
| JsonText (v : json)
| RawText (s : string).

Definition JSON_parse (t : text) : result json :=
  match t with
  | JsonText v => Ok v
  | RawText _ => Throw (JsError "SyntaxError" None "Unexpected token" None None)
  end.

Definition JSON_stringify (v : json) : text := JsonText v.

Inductive ConflictAction : Type := SERVER | LOCAL | MERGE | DIFF.

(** A request to the backend: [GET /projects/{id}/pull] with its query, or
    [POST /projects/{id}/push] with its body.  The project id is whatever
    the schema's metadata holds, possibly nothing. *)
Inductive request : Type :=
| PullRequest (projectId : option json) (schemaHash : string) (lastPullTime : string)
| PushRequest (projectId : option json) (body : json).

Record response : Type := Response { status : Z; data : json }.

Inductive effect : Type → Type :=
| FsExists (path : string) : effect bool
| FsRead (path : string) : effect (result text)
| FsStat (path : string) : effect (result Z)
| FsWrite (path : string) (content : text) : effect unit
| Now : effect Z
| NewDate (v : json) : effect (option Z)
| ToISOString (t : Z) : effect string
| Env (name : string) : effect (option string)
| GetCredentials (name : string) : effect (result (option string))
| Http (r : request) : effect (result response)
| Ask (first : ConflictAction) (others : list ConflictAction) : effect ConflictAction
| Say (line : string) : effect unit
| PathExists (path : string) : effect bool
| IsDirectory (path : string) : effect (result bool)
| MkdirP (path : string) : effect unit
| Exec (command : string) : effect (result unit)
| ScanProject (path : string) : effect (result json)
| Complete (systemPrompt userPrompt : string) : effect (result text)
| Exit (code : Z) : effect Empty_set.

(** Programs: a value, a thrown error, or an effect and what follows. *)
Inductive prog (A : Type) : Type :=
| Ret (a : A)
| Raise (e : jserror)
| Do {X : Type} (eff : effect X) (k : X → prog A).
Arguments Ret {A} a.
Arguments Raise {A} e.
Arguments Do {A X} eff k.

Fixpoint bind {A B} (m : prog A) (f : A → prog B) : prog B :=
  match m with
  | Ret a => f a
  | Raise e => Raise e
  | Do eff k => Do eff (λ x, bind (k x) f)
  end.

(** [try { m } catch (e) { h e }] *)
Fixpoint catch {A} (m : prog A) (h : jserror → prog A) : prog A :=
  match m with
  | Ret a => Ret a
  | Raise e => h e
  | Do eff k => Do eff (λ x, catch (k x) h)
  end.

Notation "x <- m ; k" := (bind m (λ x, k))
  (at level 20, m at level 100, k at level 200, only parsing).
Notation "' pat <- m ; k" := (bind m (λ x, match x with pat => k end))
  (at level 20, pat pattern, m at level 100, k at level 200, only parsing).

Definition perform {X} (eff : effect X) : prog X := Do eff Ret.

Definition lift {A} (r : result A) : prog A :=
  match r with
  | Ok a => Ret a
  | Throw e => Raise e
  end.

(** [process.exit(code)] *)
Definition exit {A} (code : Z) : prog A :=
  Do (Exit code) (λ x : Empty_set, match x with end).

Definition say (line : string) : prog unit := perform (Say line).

(** One effect together with the answer it received. *)
Inductive event : Type :=
| Event {X : Type} (eff : effect X) (answer : X).

Record file : Type := File { file_text : text; file_mtime : Z }.

Record world : Type := World { files : gmap string file }.

(** Everything the program does not decide: the wall clock, the backend,
    the user, the credential store, the environment, the platform's date
    functions, the directories, the commands run in a shell, the structural
    inferencer and the AI provider.  Clock, backend, user, shell and provider
    may depend on all that has happened so far.  The world holds the regular
    files the program itself reads and writes; a write always succeeds.
    What a command run in a shell leaves on disk (the manifest, lock file
    and modules of a package manager) is outside the world: the statements
    about a run that may install a package speak of the writes the program
    makes, in its trace, not of the files afterwards. *)
Record oracle : Type := Oracle {
  o_time : list event → Z;
  o_http : list event → request → result response;
  o_choice : list event → nat;
  o_credentials : string → result (option string);
  o_env : string → option string;
  o_newDate : json → option Z;
  o_iso : Z → string;
  o_pathExists : string → bool;
  o_isDirectory : string → result bool;
  o_exec : list event → string → result unit;
  o_scanProject : string → result json;
  o_complete : list event → string → string → result text
}.

Definition enoent : jserror :=
  JsError "Error" (Some "ENOENT") "no such file or directory" None None.

(** The answer to an effect and the world after it; a process exit has no
    answer. *)
Definition handle {X} (o : oracle) (tr : list event) (w : world) (eff : effect X)
  : (X * world) + Z :=
  match eff in effect X return (X * world) + Z with
  | FsExists p => inl (bool_decide (is_Some (files w !! p)), w)
  | FsRead p =>
      inl (match files w !! p with
           | Some f => Ok (file_text f)
           | None => Throw enoent
           end, w)
  | FsStat p =>
      inl (match files w !! p with
           | Some f => Ok (file_mtime f)
           | None => Throw enoent
           end, w)
  | FsWrite p c => inl (tt, World (<[p := File c (o_time o tr)]> (files w)))
  | Now => inl (o_time o tr, w)
  | NewDate v => inl (o_newDate o v, w)
  | ToISOString t => inl (o_iso o t, w)
  | Env name => inl (o_env o name, w)
  | GetCredentials name => inl (o_credentials o name, w)
  | Http r => inl (o_http o tr r, w)
  | Ask first others => inl (nth (o_choice o tr) (first :: others) first, w)
  | Say _ => inl (tt, w)
  | PathExists p => inl (o_pathExists o p, w)
  | IsDirectory p => inl (o_isDirectory o p, w)
  | MkdirP _ => inl (tt, w)
  | Exec command => inl (o_exec o tr command, w)
  | ScanProject p => inl (o_scanProject o p, w)
  | Complete sys usr => inl (o_complete o tr sys usr, w)
  | Exit code => inr code
  end.

Inductive outcome (A : Type) : Type :=
| Returned (a : A)
| Threw (e : jserror)
| Exited (code : Z).
Arguments Returned {A} a.
Arguments Threw {A} e.
Arguments Exited {A} code.

(** Running a program from a world and the trace so far: the outcome, the
    final world and the full trace, oldest event first. *)
Fixpoint run {A} (m : prog A) (o : oracle) (w : world) (tr : list event)
  : outcome A * world * list event :=
  match m with
  | Ret a => (Returned a, w, tr)
  | Raise e => (Threw e, w, tr)
  | Do eff k =>
      match handle o tr w eff with
      | inl (x, w') => run (k x) o w' (tr ++ [Event eff x])
      | inr code => (Exited code, w, tr)
      end
  end.

(** Kinds of effects. *)
Definition kind : Type := ∀ X, effect X → bool.

Definition writesTo (path : string) : kind :=
  λ X eff, match eff with FsWrite p _ => String.eqb p path | _ => false end.

Definition writes : kind :=
  λ X eff, match eff with FsWrite _ _ => true | _ => false end.

Definition asks : kind :=
  λ X eff, match eff with Ask _ _ => true | _ => false end.

Definition requests : kind :=
  λ X eff, match eff with Http _ => true | _ => false end.

Definition ofKind (c : kind) (ev : event) : bool :=
  match ev with Event eff _ => c _ eff end.

(** A request that the backend answered with a response. *)
Definition isHttpDone (ev : event) : bool :=
  match ev with
  | Event (Http _) (Ok _) => true
  | _ => false
  end.

(** The answers the user gave, oldest first. *)
Fixpoint answers (tr : list event) : list ConflictAction :=
  match tr with
  | [] => []
  | Event (Ask _ _) a :: tr' => a :: answers tr'
  | _ :: tr' => answers tr'
  end.

(** The part of a trace that precedes its first prompt. *)
Fixpoint beforeFirstAsk (tr : list event) : list event :=
  match tr with
  | [] => []
  | ev :: tr' => if ofKind asks ev then [] else ev :: beforeFirstAsk tr'
  end.

Definition count (p : event → bool) (tr : list event) : nat :=
  length (List.filter p tr).

(** A program that never performs an effect of kind [c], whatever the
    answers to its other effects. *)
Inductive avoids (c : kind) {A : Type} : prog A → Prop :=
| avoids_Ret a : avoids c (Ret a)
| avoids_Raise e : avoids c (Raise e)
| avoids_Do {X} (eff : effect X) k :
    c X eff = false → (∀ x, avoids c (k x)) → avoids c (Do eff k).

(** A program that performs at most one effect of kind [c]. *)
Inductive atMostOnce (c : kind) {A : Type} : prog A → Prop :=
| atMostOnce_Ret a : atMostOnce c (Ret a)
| atMostOnce_Raise e : atMostOnce c (Raise e)
| atMostOnce_skip {X} (eff : effect X) k :
    c X eff = false → (∀ x, atMostOnce c (k x)) → atMostOnce c (Do eff k)
| atMostOnce_here {X} (eff : effect X) k :
    (∀ x, avoids c (k x)) → atMostOnce c (Do eff k).

(* ===================================================================== *)
(** ** Helpers shared by the commands *)
(* ===================================================================== *)

(** A [Date]: its time value in milliseconds, or [None] for an invalid
    date. *)
Definition jsdate : Type := option Z.

(** [a > b] on dates: false as soon as one of them is invalid. *)
Definition dateGt (a b : jsdate) : bool :=
  match a, b with
  | Some x, Some y => y <? x
  | _, _ => false
  end.

(** [o?.k] *)
Definition optChain (o : option json) (k : string) : option json :=
  match o with
  | None | Some JNull => None
  | Some v => getProp v k
  end.

Definition falsyString (s : option string) : bool :=
  match s with
  | None | Some EmptyString => true
  | Some _ => false
  end.

(** [JSON.parse(fs.readFileSync(path, "utf-8"))] *)
Definition readJson (path : string) : prog json :=
  content <- perform (FsRead path);
  t <- lift content;
  lift (JSON_parse t).

(** The files of the working directory, named relative to it. *)
Definition schemaFileName : string := "hosby.schema.json".
Definition lastPushFileName : string := ".hosby-last-push".
Definition lastPullFileName : string := ".hosby-last-pull".

(** [checkSchemaExists]  (src/helpers/utils.ts) *)
Definition checkSchemaExists : prog bool :=
  present <- perform (FsExists schemaFileName);
  if present then Ret true
  else
    _ <- say "No hosby.schema.json found. Please run `hosby scan` first.";
    Ret false.

(** [getSchemaLastModified]  (src/helpers/utils.ts) *)
Definition getSchemaLastModified (filePath : string) : prog jsdate :=
  stats <- perform (FsStat filePath);
  match stats with
  | Ok mtime => Ret (Some mtime)
  | Throw _ => Ret (Some 0)
  end.

(** [hasLocalChanges]  (src/helpers/utils.ts) *)
Definition hasLocalChanges (filePath : string) (lastPullTime : jsdate) : prog bool :=
  lastModified <- getSchemaLastModified filePath;
  Ret (dateGt lastModified lastPullTime).

Record AuthCredentials : Type := Credentials {
  userId : string;
  cliToken : string;
  sessionToken : string
}.

Record ProjectCredentials : Type := Project {
  project_id : option json;
  project_name : option json
}.

(** [requireLogin]  (src/core/auth.ts): the three credentials, or the
    process exits with code 1. *)
Definition requireLogin : prog AuthCredentials :=
  catch
    (cli <- bind (perform (GetCredentials "hosby-cli-token")) lift;
     uid <- bind (perform (GetCredentials "hosby-user-id")) lift;
     session <- bind (perform (GetCredentials "hosby-session-token")) lift;
     match cli, uid, session with
     | Some c, Some u, Some s =>
         if falsyString cli || falsyString uid || falsyString session then
           _ <- say "You must be logged in to perform this action.";
           exit 1
         else Ret (Credentials u c s)
     | _, _, _ =>
         _ <- say "You must be logged in to perform this action.";
         exit 1
     end)
    (λ _, _ <- say "Error accessing credentials."; exit 1).

(** [getProjectInfos]  (src/core/config.ts) *)
Definition getProjectInfos : prog ProjectCredentials :=
  catch
    (schema <- readJson schemaFileName;
     let projectInfo :=
       orElse (optChain (optChain (Some schema) "metadata") "project")
              (JObj [("id", JStr ""); ("name", JStr "")]) in
     Ret (Project (getProp projectInfo "id") (getProp projectInfo "name")))
    (λ _, Ret (Project (Some (JStr "")) (Some (JStr "")))).

(* ===================================================================== *)
(** ** The pull service and command
       (src/services/pull.service.ts, src/commands/pull.ts) *)
(* ===================================================================== *)

Module Pull.

Definition getLocalSchemaInfo (schemaFile lastPullTimeFile : string)
  : prog (json * string * jsdate) :=
  schemaData <- readJson schemaFile;
  let localSchemaHash := getSchemaHash schemaData in
  (* [lastPullTime] starts as [new Date(0)]; the assignment in the [try]
     block is its last statement that can fail only through the logging of
     an invalid date, which leaves the assigned value in place. *)
  lastPullTime <-
    catch
      (present <- perform (FsExists lastPullTimeFile);
       if present then
         lastPullData <- readJson lastPullTimeFile;
         time <- lift (getMember lastPullData "time");
         match time with
         | Some t => perform (NewDate t)
         | None => Ret None
         end
       else Ret (Some 0))
      (λ _, Ret (Some 0));
  Ret (schemaData, localSchemaHash, lastPullTime).

Definition fetchServerSchema (authCredentials : AuthCredentials)
    (projectCredentials : ProjectCredentials) (localSchemaHash : string)
    (lastPullTime : jsdate) : prog response :=
  match lastPullTime with
  | None => Raise (JsError "RangeError" None "Invalid time value" None None)
  | Some t =>
      iso <- perform (ToISOString t);
      bind (perform (Http (PullRequest (project_id projectCredentials) localSchemaHash iso))) lift
  end.

Definition updateSchemaFile (schemaFile : string) (schema : json) : prog unit :=
  existingMetadata <-
    catch
      (present <- perform (FsExists schemaFile);
       if present then
         existingSchema <- readJson schemaFile;
         metadata <- lift (getMember existingSchema "metadata");
         Ret (orElse metadata (JObj []))
       else Ret (JObj []))
      (λ _, Ret (JObj []));
  metadata <- lift (getMember schema "metadata");
  let updatedSchema :=
    JObj (createDataProperty "metadata" (orElse metadata existingMetadata)
            (spreadInto [] schema)) in
  perform (FsWrite schemaFile (JSON_stringify updatedSchema)).

Definition updateLastPullTime (lastPullTimeFile schemaHash : string) : prog unit :=
  now <- perform Now;
  time <- perform (ToISOString now);
  perform (FsWrite lastPullTimeFile
             (JSON_stringify (JObj [("time", JStr time); ("hash", JStr schemaHash)]))).

Definition resolveConflict (action : ConflictAction) (localSchema serverSchema : json)
    (schemaFile : string) : prog unit :=
  match action with
  | LOCAL => say "Pull operation completed. Local schema preserved."
  | MERGE =>
      mergedSchema <- lift (mergeSchemas localSchema serverSchema);
      _ <- updateSchemaFile schemaFile mergedSchema;
      say "Pull completed with merge. Schema updated."
  | _ =>
      _ <- updateSchemaFile schemaFile serverSchema;
      say "Pull completed. Local schema replaced with server version."
  end.

Definition handleDiffView (localSchema serverSchema : json) (schemaFile : string)
  : prog unit :=
  _ <- say "=== Server Schema (excerpt) ===";
  _ <- say "=== Local Schema (excerpt) ===";
  secondAction <- perform (Ask SERVER [LOCAL; MERGE]);
  resolveConflict secondAction localSchema serverSchema schemaFile.

Definition handleSchemaConflicts (localSchema serverSchema : json) (schemaFile : string)
  : prog unit :=
  action <- perform (Ask SERVER [LOCAL; MERGE; DIFF]);
  match action with
  | DIFF => handleDiffView localSchema serverSchema schemaFile
  | _ => resolveConflict action localSchema serverSchema schemaFile
  end.

(** [response.data.schema || response.data.data?.schema] *)
Definition serverSchemaOf (r : response) : result (option json) :=
  match getMember (data r) "schema" with
  | Throw e => Throw e
  | Ok schema =>
      if truthyOpt schema then Ok schema
      else Ok (optChain (getProp (data r) "data") "schema")
  end.

(** [response.data.data?.updated === true] *)
Definition isUpdatedOf (r : response) : bool :=
  match optChain (getProp (data r) "data") "updated" with
  | Some (JBool true) => true
  | _ => false
  end.

Definition processServerResponse (r : response) (schemaData : json)
    (localSchemaHash schemaFile lastPullTimeFile : string) (lastPullTime : jsdate)
  : prog unit :=
  found <- lift (serverSchemaOf r);
  match found with
  | Some serverSchema =>
      if negb (truthy serverSchema) then
        say "Pull completed. No schema updates available."
      else
        let serverSchemaHash := getSchemaHash serverSchema in
        let hasChanges := negb (String.eqb serverSchemaHash localSchemaHash) in
        hasLocalMods <- hasLocalChanges schemaFile lastPullTime;
        let isUpdated := isUpdatedOf r in
        _ <- (if (isUpdated || hasChanges) && hasLocalMods then
               handleSchemaConflicts schemaData serverSchema schemaFile
             else if isUpdated || hasChanges then
               _ <- updateSchemaFile schemaFile serverSchema;
               say "Pull completed successfully! Schema updated."
             else
               say "Pull completed. Schema is already up to date.");
        updateLastPullTime lastPullTimeFile
          (if String.eqb serverSchemaHash "" then localSchemaHash else serverSchemaHash)
  | None => say "Pull completed. No schema updates available."
  end.

Definition handlePullError (err : jserror) : prog unit :=
  _ <- say "Error during pull operation";
  if bool_decide (err_code err = Some "ECONNABORTED") then
    say "Request timed out. Please check your internet connection and try again."
  else if bool_decide (err_status err = Some 401) then
    say "Authentication failed. Please run 'hosby login' to refresh your credentials."
  else if truthyOpt (err_data err) then say "Server error:"
  else say "Error:".

(** [pull]  (src/commands/pull.ts) *)
Definition pull : prog unit :=
  present <- checkSchemaExists;
  if negb present then Ret tt
  else
    '(schemaData, localSchemaHash, lastPullTime) <-
      getLocalSchemaInfo schemaFileName lastPullFileName;
    credentials <- requireLogin;
    projectCredentials <- getProjectInfos;
    _ <- say "Pulling latest schema from server...";
    catch
      (r <- fetchServerSchema credentials projectCredentials localSchemaHash lastPullTime;
       processServerResponse r schemaData localSchemaHash
         schemaFileName lastPullFileName lastPullTime)
      handlePullError.

End Pull.

(* ===================================================================== *)
(** ** The push service and command
       (src/services/push.service.ts, src/commands/push.ts) *)
(* ===================================================================== *)

Module Push.

Definition getLocalSchemaInfo (schemaFile : string) : prog (json * string) :=
  catch
    (schemaData <- readJson schemaFile;
     let schemaHash := getSchemaHash schemaData in
     (* the debug log reads [schemaData.tables] *)
     _ <- lift (getMember schemaData "tables");
     Ret (schemaData, schemaHash))
    (λ _, Raise (mkError "Failed to read schema file. The file may be corrupted.")).

Definition authenticate : prog AuthCredentials :=
  catch requireLogin
    (λ _, Raise (mkError "Authentication failed. Please run 'hosby login' to authenticate.")).

Definition hasSchemaChanged (lastPushFile schemaHash : string) (force : bool) : prog bool :=
  if force then Ret true
  else
    catch
      (present <- perform (FsExists lastPushFile);
       if present then
         lastPushData <- readJson lastPushFile;
         hash <- lift (getMember lastPushData "hash");
         match hash with
         | Some (JStr h) => if String.eqb h schemaHash then Ret false else Ret true
         | _ => Ret true
         end
       else Ret true)
      (λ _, Ret true).

Definition pushSchemaToServer (authCredentials : AuthCredentials)
    (projectCredentials : ProjectCredentials) (schemaData : json) (schemaHash : string)
  : prog response :=
  (* the debug log reads [schemaData.tables] *)
  _ <- lift (getMember schemaData "tables");
  version <- perform (Env "npm_package_version");
  now <- perform Now;
  timestamp <- perform (ToISOString now);
  let clientVersion := if falsyString version then "0.0.0" else default "" version in
  let meta := JObj [("schemaHash", JStr schemaHash);
                    ("clientVersion", JStr clientVersion);
                    ("timestamp", JStr timestamp)] in
  let body := JObj (createDataProperty "_meta" meta (spreadInto [] schemaData)) in
  bind (perform (Http (PushRequest (project_id projectCredentials) body))) lift.

Definition updateLastPushFile (lastPushFile schemaHash : string) (projectId : option json)
  : prog unit :=
  now <- perform Now;
  time <- perform (ToISOString now);
  let lastPushData :=
    JObj ([("time", JStr time); ("hash", JStr schemaHash)]
          ++ match projectId with Some v => [("id", v)] | None => [] end) in
  perform (FsWrite lastPushFile (JSON_stringify lastPushData)).

Definition handlePushError (err : jserror) : prog unit :=
  _ <- say "Error during push operation";
  if bool_decide (err_code err = Some "ECONNABORTED") then
    say "Request timed out. Please check your internet connection and try again."
  else if bool_decide (err_status err = Some 401) then
    say "Authentication failed. Please run 'hosby login' to refresh your credentials."
  else if truthyOpt (err_data err) then say "Server error:"
  else say "Error:".

(** The [try] block of [push]. *)
Definition pushAttempt (force : bool) : prog unit :=
  '(schemaData, schemaHash) <- getLocalSchemaInfo schemaFileName;
  schemaChanged <- hasSchemaChanged lastPushFileName schemaHash force;
  if negb schemaChanged then
    say "Schema unchanged since last push. Use --force to push anyway."
  else
    credentials <- authenticate;
    projectCredentials <- getProjectInfos;
    _ <- say "Pushing schema to server...";
    _ <- pushSchemaToServer credentials projectCredentials schemaData schemaHash;
    _ <- updateLastPushFile lastPushFileName schemaHash (project_id projectCredentials);
    say "Push completed successfully!".

(** [push]  (src/commands/push.ts) *)
Definition push (force : bool) : prog unit :=
  present <- checkSchemaExists;
  if negb present then Ret tt
  else
    catch (pushAttempt force)
      (λ err, _ <- say "Error during push operation"; handlePushError err).

End Push.

(* ===================================================================== *)
(** ** AI inference and the scan command
       (src/core/ai.ts, src/scripts/processAndFilterSchema.ts,
        src/commands/scan.ts) *)
(* ===================================================================== *)

Module Scan.

(** [error.message || 'Unknown error'] *)
Definition messageOr (error : jserror) : string :=
  if falsyString (Some (err_message error)) then "Unknown error" else err_message error.

(** The message of the error thrown when [JSON.parse] rejects the
    provider's text. *)
Definition parseFailure : string :=
  "Failed to parse AI response as JSON. The AI may have returned invalid JSON format.".

(** The error an [analyzeWithAI] failure is reported as, by the outer
    [catch] of the function (the duration is left out of the time-out
    message). *)
Definition reportedError (timeout : Z) (providerName : string) (error : jserror) : jserror :=
  if String.eqb (err_name error) "AbortError" then
    mkError "AI analysis timed out. Try with fewer files or a smaller project."
  else if bool_decide (err_code error = Some "context_length_exceeded")
          || includes (err_message error) "maximum context length" then
    mkError "The project is too large for AI analysis. Try with fewer files or a smaller project."
  else if bool_decide (err_code error = Some "rate_limit_exceeded") then
    mkError (providerName +:+ " rate limit exceeded. Please try again later or use a different API key.")
  else if bool_decide (err_code error = Some "invalid_api_key")
          || includes (err_message error) "invalid api key" then
    mkError ("Invalid " +:+ providerName +:+ " API key. Please check your API key and try again.")
  else mkError ("AI analysis failed: " +:+ messageOr error).

(** [schema.tables = {}] for the parsed response: an assignment to a
    primitive throws in strict code. *)
Definition setEmptyTables (schema : json) : result jsval :=
  match schema with
  | JObj _ | JArr _ => Ok (rootSetNamed (Json schema) "tables" (JObj []))
  | _ => Throw (typeError "Cannot create property 'tables'")
  end.

(** [analyzeWithAI] from the request to the provider on: the dialogue that
    selects the provider and the API key comes before and touches neither
    the response nor the schema file.  The prompts are given. *)
Definition analyzeWithAI (timeout : Z) (providerName systemPrompt userPrompt : string)
  : prog jsval :=
  catch
    (_ <- say "Sending request to the model...";
     text <- bind (perform (Complete systemPrompt userPrompt)) lift;
     schema <-
       match JSON_parse text with
       | Ok schema =>
           _ <- say "Successfully parsed AI response as JSON";
           Ret schema
       | Throw _ =>
           _ <- say "Failed to parse AI response as JSON";
           Raise (mkError parseFailure)
       end;
     tables <- lift (getMember schema "tables");
     schema' <-
       (if negb (truthyOpt tables) then
          _ <- say "AI response missing 'tables' property, adding empty tables object";
          lift (setEmptyTables schema)
        else Ret (Json schema));
     _ <- (match rootGet schema' "tables" with
           | Some t =>
               match ownProps t with
               | [] => say "AI generated an empty schema. No tables were identified in the project."
               | _ => Ret tt
               end
           | None => Ret tt
           end);
     Ret schema')
    (λ err, Raise (reportedError timeout providerName err)).

Section paths.

(** [path.join] with two arguments: a function of the platform, which
    normalises the joined path in its own way ([./x] becomes [x], a doubled
    separator a single one, and so on). *)
Variable pathJoin : string → string → string.

(** [processAndFilterSchema]  (src/scripts/processAndFilterSchema.ts).
    After the write the function counts the keys of [filteredSchema.tables]
    and of each table in it; [filterSchema] leaves objects there, so the
    counting does not throw, and the counts are not used. *)
Definition processAndFilterSchema (schema : jsval) (scanPath : string) : prog unit :=
  catch
    (_ <- say "Sanitizing and filtering schema...";
     sanitized <- lift (sanitizeSchema schema);
     filteredSchema <- lift (filterSchema sanitized);
     _ <- (match getProp filteredSchema "tables" with
           | Some t =>
               match ownProps t with
               | [] => say "No tables found in schema. The generated schema may be empty."
               | _ => Ret tt
               end
           | None => say "No tables found in schema. The generated schema may be empty."
           end);
     let schemaPath := pathJoin scanPath schemaFileName in
     catch
       (_ <- perform (FsWrite schemaPath (JSON_stringify filteredSchema));
        say ("Schema generated successfully: " +:+ schemaPath))
       (λ _, say ("Failed to write schema to " +:+ schemaPath)))
    (λ error, say ("Failed to process schema: " +:+ err_message error)).

(** [validateScanPath]  (src/helpers/utils.ts) *)
Definition validateScanPath (scanPath : string) : prog bool :=
  catch
    (present <- perform (PathExists scanPath);
     if negb present then Ret false
     else bind (perform (IsDirectory scanPath)) lift)
    (λ _, Ret false).

Definition ensureHosbyTsInstalled : prog bool :=
  r <- perform (Exec "npm list hosby-ts");
  match r with
  | Ok _ => Ret true
  | Throw _ => Ret false
  end.

Definition installHosbyTs : prog unit :=
  yarn <- perform (FsExists "yarn.lock");
  installer <-
    (if yarn then Ret "yarn add hosby-ts"
     else
       pnpm <- perform (FsExists "pnpm-lock.yaml");
       if pnpm then Ret "pnpm add hosby-ts"
       else
         _ <- perform (FsExists "package-lock.json");
         Ret "npm install hosby-ts");
  r <- perform (Exec installer);
  match r with
  | Ok _ => say "hosby-ts installed successfully!"
  | Throw error =>
      _ <- say ("Failed to install hosby-ts: " +:+ err_message error);
      say "Please install hosby-ts manually: npm install hosby-ts"
  end.

Record ScanOptions : Type := Options {
  ai : bool;
  timeout : Z;
  providerName : string;
  systemPrompt : string;
  userPrompt : string
}.

(** [scan]  (src/commands/scan.ts).  [clientContent] is the text of the
    generated client, a constant of [scripts/prompts].  The schema that
    [processAndFilterSchema] computes stays local to it, so the variable
    [filteredSchema] of [scan] remains the empty object and the statistics
    and service generation that close the function are skipped. *)
Definition scan (clientContent : string) (scanPath : string) (options : ScanOptions)
  : prog unit :=
  valid <- validateScanPath scanPath;
  if negb valid then Ret tt
  else
    _ <- say "Analyzing project...";
    catch
      (isInstalled <- ensureHosbyTsInstalled;
       _ <- say (if isInstalled then "hosby-ts is already installed."
                 else "hosby-ts not found. Will install after schema generation.");
       inferred <-
         (if ai options then
            _ <- say "Analyzing project with AI...";
            catch
              (schema <- analyzeWithAI (timeout options) (providerName options)
                           (systemPrompt options) (userPrompt options);
               if negb (rootTruthy schema) || negb (rootIsObject schema) then
                 _ <- say "AI analysis did not return a valid schema.";
                 Ret None
               else
                 _ <- say "AI analysis completed successfully.";
                 Ret (Some schema))
              (λ error, _ <- say ("AI analysis failed: " +:+ messageOr error); Ret None)
          else
            r <- perform (ScanProject scanPath);
            match r with
            | Ok schema => _ <- say "Project scan completed successfully."; Ret (Some (Json schema))
            | Throw error =>
                _ <- say ("Project scan failed: " +:+ messageOr error); Ret None
            end);
       match inferred with
       | None => Ret tt
       | Some schema =>
           _ <- processAndFilterSchema schema scanPath;
           _ <- (if negb isInstalled then installHosbyTs else Ret tt);
           present <- perform (PathExists "src/api");
           _ <- (if negb present then perform (MkdirP "src/api") else Ret tt);
           catch
             (_ <- perform (FsWrite "src/api/hosbyClient.ts" (RawText clientContent));
              say "Client Hosby generated: src/api/hosbyClient.ts")
             (λ error, say ("Failed to generate client: " +:+ messageOr error))
       end)
      (λ _, say "Error during project scan").

End paths.

End Scan.

(* ===================================================================== *)
(** ** Sample worlds and oracles *)
(* ===================================================================== *)

(** An oracle with a user who always picks entry [choice], a backend that
    always gives [reply], credentials [creds] and a provider that answers
    [completion]. *)
Definition ex_oracle (choice : nat) (reply : result response)
    (creds : string → result (option string)) (completion : result text) : oracle :=
  {| o_time := λ tr, 5000 + Z.of_nat (length tr);
     o_http := λ _ _, reply;
     o_choice := λ _, choice;
     o_credentials := creds;
     o_env := λ _, None;
     o_newDate := λ _, None;
     o_iso := λ t, toString36 t;
     o_pathExists := λ _, true;
     o_isDirectory := λ _, Ok true;
     o_exec := λ _ _, Ok tt;
     o_scanProject := λ _, Ok (JObj [("tables", JObj [])]);
     o_complete := λ _ _ _, completion |}.

Definition ex_creds : string → result (option string) := λ _, Ok (Some "secret").

Definition ex_reply : response := Response 200 (JObj [("schema", ex_server)]).

(** A working directory that holds a schema file modified at time 2000 and
    nothing else. *)
Definition ex_world : world :=
  World {[ schemaFileName := File (JsonText ex_local) 2000 ]}.

(** A join for the examples: the directory, a separator and the name, and
    the name alone in the current directory [.]; [path.join] gives the same
    on a POSIX platform for a directory written without [.] or [..] parts
    and without a trailing separator. *)
Definition ex_pathJoin (dir name : string) : string :=
  if String.eqb dir "." then name else dir +:+ "/" +:+ name.


(** An effect of one of two kinds. *)
Definition either (c1 c2 : kind) : kind := λ X eff, c1 X eff || c2 X eff.

(** The two excerpts that [handleDiffView] prints. *)
Definition excerptEvents : list event :=
  [Event (Say "=== Server Schema (excerpt) ===") tt;
   Event (Say "=== Local Schema (excerpt) ===") tt].

(** Writing a file or asking the user. *)
Definition quiet : kind := either writes asks.

(** The last-pull file is missing, is not valid JSON, or holds [null]. *)
Definition lastPullLost (w : world) : bool :=
  match files w !! lastPullFileName with
  | None => true
  | Some f =>
      match file_text f with
      | RawText _ | JsonText JNull => true
      | _ => false
      end
  end.

(** Reading, deciding, logging in: neither a write nor a request. *)
Definition silent : kind := either writes requests.

(** A run of [push] that transmitted nothing successfully: the world is as
    before, nothing was written, no request was answered with a response,
    and at most one request was made. *)
Definition uneventful (w w' : world) (tr0 tr : list event) : Prop :=
  w' = w ∧
  ∃ evs, tr = tr0 ++ evs ∧
         Forall (λ ev, ofKind writes ev = false) evs ∧
         Forall (λ ev, isHttpDone ev = false) evs ∧
         (count (ofKind requests) evs ≤ 1)%nat.

(** The last-push record. *)
Definition lastPushRecord (time hash : string) (projectId : option json) : json :=
  JObj ([("time", JStr time); ("hash", JStr hash)]
        ++ match projectId with Some v => [("id", v)] | None => [] end).

(** A run of [push] that transmitted the schema [sd]: after silent
    preparations the request is answered with a response, and only then the
    last-push record is written, the single write of the run. *)
Definition pushed (w w' : world) (tr0 tr : list event) : Prop :=
  ∃ sd m pre req resp now time mtime projectId,
    files w !! schemaFileName = Some (File (JsonText sd) m) ∧
    sd ≠ JNull ∧
    Forall (λ ev, ofKind silent ev = false) pre ∧
    tr = tr0 ++ pre
         ++ [Event (Http req) (Ok resp);
             Event Now now;
             Event (ToISOString now) time;
             Event (FsWrite lastPushFileName
                      (JsonText (lastPushRecord time (getSchemaHash sd) projectId))) tt;
             Event (Say "Push completed successfully!") tt] ∧
    files w' = <[lastPushFileName :=
                   File (JsonText (lastPushRecord time (getSchemaHash sd) projectId)) mtime]>
                 (files w).

(** A monitor for the last-push record: every write of the record comes
    after a request that the backend answered with a response. *)
Fixpoint recordedAfterSuccess (seen : bool) (tr : list event) : bool :=
  match tr with
  | [] => true
  | ev :: tr' =>
      if ofKind (writesTo lastPushFileName) ev then seen && recordedAfterSuccess seen tr'
      else recordedAfterSuccess (seen || isHttpDone ev) tr'
  end.

(** A run of [push] that ends with the last-push record written.  The
    record holds the time printed for the clock reading taken just before
    the write, the hash of the document in the schema file and the project
    id that [getProjectInfos] reads from that file; the write is the last
    thing the run does before its closing message, and the record is the
    only file it changes. *)
Definition recordWritten (o : oracle) (w w' : world) (tr : list event) : Prop :=
  ∃ sd m p tp now time mtime pre,
    files w !! schemaFileName = Some (File (JsonText sd) m) ∧
    run getProjectInfos o w [] = (Returned p, w, tp) ∧
    tr = pre ++ [Event Now now;
                 Event (ToISOString now) time;
                 Event (FsWrite lastPushFileName
                          (JsonText (lastPushRecord time (getSchemaHash sd) (project_id p)))) tt;
                 Event (Say "Push completed successfully!") tt] ∧
    files w' = <[lastPushFileName :=
                   File (JsonText (lastPushRecord time (getSchemaHash sd) (project_id p))) mtime]>
                 (files w).

(** A working directory whose schema has been pushed before: the last-push
    record holds the hash of the schema file. *)
Definition ex_world_pushed : world :=
  World {[ schemaFileName := File (JsonText ex_local) 2000;
           lastPushFileName :=
             File (JsonText (lastPushRecord "t0" (getSchemaHash ex_local) (Some (JStr "p1")))) 3000 ]}.

(** A backend that rejects every request with status 500. *)
Definition ex_server_error : jserror :=
  JsError "AxiosError" (Some "ERR_BAD_RESPONSE") "Request failed with status code 500"
          (Some 500) (Some (JObj [("error", JStr "internal")])).

(** The traces after a first and after a second [push] without [force],
    the second starting where the first ended. *)
Definition pushTwice (o : oracle) (w : world) : list event * list event :=
  let '(_, w1, tr1) := run (Push.push false) o w [] in
  let '(_, _, tr2) := run (Push.push false) o w1 tr1 in
  (tr1, tr2).

(* ===================================================================== *)
(* ===================================================================== *)
(** ** Further properties of documents *)
(* ===================================================================== *)

(** A digit of a base-36 numeral as [toString(36)] writes it: 0-9 or a-z. *)
Definition isDigit36 (c : ascii) : bool :=
  let n := charCode c in
  ((48 <=? n) && (n <=? 57)) || ((97 <=? n) && (n <=? 122)).

(** The test [filterSchema] makes on one entry of [schema.tables] before it
    copies it: the columns are an object with at least one key, and the
    lower-cased name is neither on the ignore list nor UI-looking. *)
Definition keepsTable (table : string) (columns : json) : bool :=
  truthy columns && typeofObject columns && hasColumns columns
  && negb (isIgnoredByPattern (toLowerCase table))
  && negb (isUIComponentTable (toLowerCase table)).

(** The enumeration order of an ordinary object: array indices first, in
    ascending numeric order, then the other keys; no key twice.  [bound] is
    below every index that may still come. *)
Fixpoint indicesThenNames {A} (bound : Z) (fs : list (string * A)) : Prop :=
  match fs with
  | [] => True
  | (k, _) :: fs' =>
      match arrayIndex k with
      | Some i => bound < i ∧ indicesThenNames i fs'
      | None => Forall (λ kv, arrayIndex kv.1 = None) fs'
      end
  end.

Definition enumerationOrder {A} (fs : list (string * A)) : Prop :=
  NoDup (keys fs) ∧ indicesThenNames (-1) fs.

(* ===================================================================== *)
(** ** Type names and the structural scan
       (src/helpers/utils.ts, src/scripts/schema.ts) *)
(* ===================================================================== *)

(** [mapType]  (src/helpers/utils.ts) *)
Definition mapType (type : string) : string :=
  if includes type "string" then "string"
  else if includes type "number" then "number"
  else if includes type "boolean" then "boolean"
  else if includes type "Date" then "date"
  else if includes type "Array" then "array"
  else if includes type "Object" then "object"
  else "string".

(** An interface declaration as the TypeScript analyser reports it: its
    name and, for each property in turn, the name and the text of the
    type. *)
Record interface : Type := Interface {
  intf_name : string;
  intf_properties : list (string * string)
}.

(** The table of one interface: [schema.tables[tableName]] is assigned the
    empty object and then receives [mapType(type)] under each property
    name; nothing reads the table in between. *)
Definition interfaceTable (properties : list (string * string)) : json :=
  JObj (foldl (λ columns '(name, type), obj_set name (JStr (mapType type)) columns)
              [] properties).

(** [scanProject] from the interfaces on: the analyser, a library, lists
    the interfaces of the source files; each becomes the table named after
    it in lower case with an [s] appended.  An interface met again replaces
    the table of that name. *)
Definition scanProject (interfaces : list interface) : json :=
  JObj [("tables",
         JObj (foldl (λ tables intf,
                        obj_set (toLowerCase (intf_name intf) +:+ "s")
                                (interfaceTable (intf_properties intf)) tables)
                     [] interfaces))].

(** [getTypeFromSchema]  (src/helpers/utils.ts), for a value that is not
    [undefined]: an entry of an object never is. *)
Fixpoint getTypeFromSchema (value : json) : string :=
  match value with
  | JNull => "any"
  | JArr [] => "any[]"
  | JArr (first :: _) => getTypeFromSchema first +:+ "[]"
  | JObj _ => "Record<string, any>"
  | JStr _ => "string"
  | JNum _ => "number"
  | JBool _ => "boolean"
  end.

Definition newline : string := String (ascii_of_Z 10) "".

(** [!['id', 'createdAt', 'updatedAt'].includes(key)] *)
Definition isOwnMember (key : string) : bool :=
  negb (existsb (String.eqb key) ["id"; "createdAt"; "updatedAt"]).

(** The member lines of the interface that [generateServiceFromTemplate]
    writes: the value of its constant [properties].  [Object.entries]
    throws on [null]. *)
Definition templateProperties (tableSchema : json) : result string :=
  match tableSchema with
  | JNull => Throw (typeError "Cannot convert undefined or null to object")
  | _ =>
      Ok (join newline
            (fmap (λ '(key, value), "  " +:+ key +:+ ": " +:+ getTypeFromSchema value +:+ ";")
                  (List.filter (λ '(key, _), isOwnMember key) (ownProps tableSchema))))
  end.

(** Two interfaces of a front-end project: a data model and the props of a
    component.  The analyser prints the type of a list of tags as
    [Tag[]]. *)
Definition ex_interfaces : list interface :=
  [Interface "User" [("id", "string"); ("age", "number"); ("tags", "Tag[]")];
   Interface "ButtonProps" [("label", "string")]].

(* ===================================================================== *)
(** ** Worlds and oracles the commands meet *)
(* ===================================================================== *)

(** The metadata [updateSchemaFile] finds in the file it is about to
    replace: that of the document the file holds, when there is one and it
    is truthy; the empty object otherwise. *)
Definition keptMetadata (w : world) (path : string) : json :=
  match files w !! path with
  | Some f =>
      match file_text f with
      | JsonText JNull | RawText _ => JObj []
      | JsonText v => orElse (getProp v "metadata") (JObj [])
      end
  | None => JObj []
  end.

(** The credential store holds the three credentials [requireLogin] asks
    for, none of them empty. *)
Definition loggedIn (o : oracle) : bool :=
  match o_credentials o "hosby-cli-token",
        o_credentials o "hosby-user-id",
        o_credentials o "hosby-session-token" with
  | Ok cli, Ok uid, Ok session =>
      negb (falsyString cli) && negb (falsyString uid) && negb (falsyString session)
  | _, _, _ => false
  end.

(** The last-pull record does not give a date: it has no [time], or one
    that [new Date] cannot read. *)
Definition lastPullUndated (o : oracle) (w : world) : bool :=
  match files w !! lastPullFileName with
  | Some f =>
      match file_text f with
      | JsonText JNull | RawText _ => false
      | JsonText v =>
          match getProp v "time" with
          | Some t => bool_decide (o_newDate o t = None)
          | None => true
          end
      end
  | None => false
  end.

(** A request that carries the document [sd] the way [push] sends it: the
    fields of [sd], and [_meta] with the hash of [sd]. *)
Definition carries (sd : json) (req : request) : Prop :=
  ∃ projectId body meta,
    req = PushRequest projectId (JObj body) ∧
    (∀ k, k ≠ "_meta" → assoc k body = assoc k (ownProps sd)) ∧
    assoc "_meta" body = Some (JObj meta) ∧
    assoc "schemaHash" meta = Some (JStr (getSchemaHash sd)).

Definition requestCarries (sd : json) (ev : event) : Prop :=
  match ev with
  | Event (Http req) _ => carries sd req
  | _ => True
  end.

(** A working directory whose last-pull record was damaged: its [time] is
    not a date. *)
Definition ex_world_undated : world :=
  World {[ schemaFileName := File (JsonText ex_local) 2000;
           lastPullFileName :=
             File (JsonText (JObj [("time", JStr "yesterday"); ("hash", JStr "abc")])) 3000 ]}.

(** A working directory pulled at time 4000, after the schema file was
    last modified. *)
Definition ex_world_pulled : world :=
  World {[ schemaFileName := File (JsonText ex_local) 2000;
           lastPullFileName :=
             File (JsonText (JObj [("time", JStr "t4000"); ("hash", JStr "abc")])) 4000 ]}.

(** An empty credential store. *)
Definition ex_no_creds : string → result (option string) := λ _, Ok None.

(* ===================================================================== *)
(** ** Project information  (src/core/config.ts) *)
(* ===================================================================== *)

(** What [JSON.stringify] sees of a value: the named properties of an
    array are not serialised. *)
Definition toJson (r : jsval) : json :=
  match r with
  | Json v => v
  | ArrWith items _ => JArr items
  end.

(** The assignment [v.k = x] in strict code (the modules are ES modules),
    for a name [k] that is not an array index: no property can be set on
    [null] or created on a primitive. *)
Definition setMember (v : json) (k : string) (x : json) : result jsval :=
  match v with
  | JObj _ | JArr _ => Ok (rootSetNamed (Json v) k x)
  | JNull => Throw (typeError "Cannot set properties of null")
  | _ => Throw (typeError "Cannot create property")
  end.

(** [setProjectInfos].  The object assigned to [schema.metadata] and the
    object that receives [project] are one object, so the document written
    holds the metadata with the project in it. *)
Definition setProjectInfos (projectId projectName : string) : prog unit :=
  catch
    (present <- perform (FsExists schemaFileName);
     schema <- (if present then readJson schemaFileName
                else Ret (JObj [("tables", JObj [])]));
     current <- lift (getMember schema "metadata");
     let metadata := orElse current (JObj []) in
     schema1 <- lift (setMember schema "metadata" metadata);
     metadata1 <- lift (setMember metadata "project"
                          (JObj [("id", JStr projectId); ("name", JStr projectName)]));
     let schema2 := rootSetNamed schema1 "metadata" (toJson metadata1) in
     perform (FsWrite schemaFileName (JSON_stringify (toJson schema2))))
    (λ error, Raise (mkError ("Failed to save project info: " +:+ err_message error))).

(** The schema file can take a project: it is absent, or holds an object
    whose [metadata] is absent, falsy, or an object that is not an array. *)
Definition takesProject (w : world) : bool :=
  match files w !! schemaFileName with
  | None => true
  | Some f =>
      match file_text f with
      | JsonText (JObj fs) =>
          match assoc "metadata" fs with
          | None | Some (JObj _) => true
          | Some (JArr _) => false
          | Some m => negb (truthy m)
          end
      | _ => false
      end
  end.

(** The schema file makes [setProjectInfos] fail: it is not JSON, or holds
    [null] or a primitive, or an object whose [metadata] is [true], a number
    other than zero or a non-empty string. *)
Definition refusesProject (w : world) : bool :=
  match files w !! schemaFileName with
  | None => false
  | Some f =>
      match file_text f with
      | RawText _ => true
      | JsonText (JObj fs) =>
          match assoc "metadata" fs with
          | None | Some (JObj _) | Some (JArr _) => false
          | Some m => truthy m
          end
      | JsonText (JArr _) => false
      | JsonText _ => true
      end
  end.

(** The fields of the metadata a document has, when that is an object. *)
Definition metadataField (fs : list (string * json)) (j : string) : option json :=
  match assoc "metadata" fs with
  | Some (JObj md) => assoc j md
  | _ => None
  end.

(** A working directory whose schema file holds a list. *)
Definition ex_world_list : world :=
  World {[ schemaFileName := File (JsonText (JArr [JStr "users"])) 2000 ]}.

(** The schema file holds a list, or an object whose [metadata] is a
    list: the project lands in a named property of the list, which
    [JSON.stringify] does not write. *)
Definition losesProject (w : world) : bool :=
  match files w !! schemaFileName with
  | Some f =>
      match file_text f with
      | JsonText (JArr _) => true
      | JsonText (JObj fs) =>
          match assoc "metadata" fs with
          | Some (JArr _) => true
          | _ => false
          end
      | _ => false
      end
  | None => false
  end.

(* ===================================================================== *)
(** ** Comparing versions  (src/scripts/versionCheck.ts) *)
(* ===================================================================== *)

(** A number as [compareVersions] meets it: [NaN], an infinity, or a
    finite double, which is a rational.  The two zeros compare equal and
    are both falsy, so they are one value here. *)
Inductive jsnumber : Type :=
| NaN
| Finite (q : QArith_base.Q)
| PlusInfinity
| MinusInfinity.

(** [a < b]; [a > b] is [numberLt b a]. *)
Definition numberLt (a b : jsnumber) : bool :=
  match a, b with
  | NaN, _ | _, NaN => false
  | Finite x, Finite y => negb (QArith_base.Qle_bool y x)
  | Finite _, PlusInfinity => true
  | Finite _, MinusInfinity => false
  | PlusInfinity, _ => false
  | MinusInfinity, MinusInfinity => false
  | MinusInfinity, _ => true
  end.

(** The numbers that are falsy: [NaN] and zero. *)
Definition falsyNumber (n : jsnumber) : bool :=
  match n with
  | NaN => true
  | Finite q => QArith_base.Qeq_bool q (QArith_base.inject_Z 0)
  | _ => false
  end.

(** [part || 0], where [part] is an element of an array of numbers or
    [undefined] past its end. *)
Definition orZero (part : option jsnumber) : jsnumber :=
  match part with
  | Some n => if falsyNumber n then Finite (QArith_base.inject_Z 0) else n
  | None => Finite (QArith_base.inject_Z 0)
  end.

(** [orZero] never answers [NaN], so its values are totally ordered. *)
Definition isNumber (a : jsnumber) : Prop := a ≠ NaN.

(** [v.split(".")] *)
Fixpoint splitOnDot (v : string) : list string :=
  match v with
  | EmptyString => [""]
  | String c rest =>
      if Ascii.eqb c "." then "" :: splitOnDot rest
      else match splitOnDot rest with
           | part :: parts => String c part :: parts
           | [] => [String c ""]
           end
  end.

Section versions.

(** [Number] applied to a string: the conversion of the platform. *)
Variable Number : string → jsnumber.

(** The loop of [compareVersions] from index [i] on, with [steps]
    iterations left. *)
Fixpoint compareFrom (steps i : nat) (parts1 parts2 : list jsnumber) : Z :=
  match steps with
  | O => 0
  | S steps' =>
      let part1 := orZero (parts1 !! i) in
      let part2 := orZero (parts2 !! i) in
      if numberLt part2 part1 then 1
      else if numberLt part1 part2 then -1
      else compareFrom steps' (S i) parts1 parts2
  end.

(** [compareVersions] *)
Definition compareVersions (v1 v2 : string) : Z :=
  let parts1 := Number <$> splitOnDot v1 in
  let parts2 := Number <$> splitOnDot v2 in
  compareFrom (Nat.max (length parts1) (length parts2)) 0 parts1 parts2.

End versions.

(** A conversion for the examples, simpler than [Number]: it reads a
    string of decimal digits, the empty one as zero, as [Number] does for a
    short one, and answers [NaN] to every other string, also where [Number]
    finds a number (a sign, an exponent, blanks around the digits). *)
Definition ex_Number (s : string) : jsnumber :=
  match digitsValue s 0 with
  | Some n => Finite (QArith_base.inject_Z n)
  | None => NaN
  end.
(** * Properties *)
(* ===================================================================== *)

(** ** Property lists *)

Lemma assoc_None {A} (k : string) (fs : list (string * A)) :
  assoc k fs = None ↔ k ∉ keys fs.
Proof.
  induction fs as [|[k' v] fs IH]; simpl.
  - split; [intros _; apply not_elem_of_nil | done].
  - destruct (String.eqb_spec k k') as [->|Hne].
    + split; [done | intros H; destruct H; left].
    + rewrite IH, not_elem_of_cons. split; [by intros ?|by intros [_ ?]].
Qed.

Lemma assoc_Some_elem {A} (k : string) (v : A) (fs : list (string * A)) :
  NoDup (keys fs) → assoc k fs = Some v ↔ (k, v) ∈ fs.
Proof.
  induction fs as [|[k' v'] fs IH]; simpl; intros Hnd.
  - split; [done | intros H; inversion H].
  - apply NoDup_cons in Hnd as [Hk' Hnd].
    destruct (String.eqb_spec k k') as [->|Hne].
    + split.
      * intros [= ->]. left.
      * intros [[= ->]|Hin]%elem_of_cons; [done|].
        destruct Hk'. apply (list_elem_of_fmap_2 fst) in Hin. exact Hin.
    + rewrite (IH Hnd), elem_of_cons. split; [by right|].
      intros [[= ? ?]|?]; [congruence | done].
Qed.

Lemma assoc_perm {A} (k : string) (fs fs' : list (string * A)) :
  NoDup (keys fs) → fs ≡ₚ fs' → assoc k fs = assoc k fs'.
Proof.
  intros Hnd Hp.
  assert (Hnd' : NoDup (keys fs')).
  { unfold keys in *. by rewrite <- Hp. }
  destruct (assoc k fs) as [v|] eqn:E.
  - symmetry. apply assoc_Some_elem; [done|].
    rewrite <- Hp. by apply assoc_Some_elem.
  - symmetry. apply assoc_None. apply assoc_None in E.
    unfold keys in *. by rewrite <- Hp.
Qed.

Lemma sortKeys_perm (ks ks' : list string) :
  ks ≡ₚ ks' → sortKeys ks = sortKeys ks'.
Proof.
  intros Hp. unfold sortKeys.
  apply (Sorted_unique String.le).
  - apply Sorted_merge_sort; apply _.
  - apply Sorted_merge_sort; apply _.
  - by rewrite !merge_sort_Permutation.
Qed.

Lemma foldl_agree {A B} (f g : A → B → A) (l : list B) (a : A) :
  (∀ a b, f a b = g a b) → foldl f a l = foldl g a l.
Proof.
  intros Hfg. revert a. induction l as [|b l IH]; intros a; simpl; [done|].
  by rewrite Hfg, IH.
Qed.

(** The sorted copy depends on the properties of an object only, never on
    the order in which the object enumerates them. *)
Lemma sortedCopy_perm {A} (fs fs' : list (string * A)) :
  NoDup (keys fs) → fs ≡ₚ fs' → sortedCopy fs = sortedCopy fs'.
Proof.
  intros Hnd Hp. unfold sortedCopy.
  rewrite (sortKeys_perm (keys fs) (keys fs')) by (unfold keys; by rewrite Hp).
  apply foldl_agree. intros sorted key.
  by rewrite (assoc_perm key fs fs').
Qed.

Lemma keys_map_values {A B} (f : A → B) (fs : list (string * A)) :
  keys (fmap (λ '(k, c), (k, f c)) fs) = keys fs.
Proof.
  unfold keys. induction fs as [|[k c] fs IH]; [done|].
  rewrite !fmap_cons. simpl. by f_equal.
Qed.

Lemma sortKeysDeep_reordered (v v' : json) :
  uniqueKeys v = true → reordered v v' → sortKeysDeep v = sortKeysDeep v'.
Proof.
  revert v'. induction v as [| | | |l IH|fs IH] using json_rect_deep;
    intros v' Hu Hr; inversion Hr; subst; try done.
  - (* arrays *)
    simpl. f_equal. simpl in Hu. rename H0 into HF. clear Hr.
    revert IH Hu. induction HF as [|x y l l' Hxy HF IHF]; intros IH Hu; [done|].
    simpl in Hu. apply andb_true_iff in Hu as [Hx Hl].
    apply Forall_cons in IH as [IHx IHl]. rewrite !fmap_cons. f_equal; auto.
  - (* objects *)
    simpl in *. apply andb_true_iff in Hu as [Hnd Hu].
    apply bool_decide_eq_true in Hnd.
    rename H0 into HF; rename H1 into Hp. f_equal.
    assert (Hmap : fmap (λ '(k, c), (k, sortKeysDeep c)) fs
                   = fmap (λ '(k, c), (k, sortKeysDeep c)) fs').
    { clear Hp Hnd Hr. revert IH Hu.
      induction HF as [|[k c] [k' c'] l l' [Hk Hc] HF IHF]; intros IH Hu; [done|].
      simpl in *. subst k'. apply andb_true_iff in Hu as [Hx Hl].
      apply Forall_cons in IH as [IHx IHl]. simpl in IHx.
      f_equal; [f_equal; auto | apply IHF; auto]. }
    rewrite Hmap. apply sortedCopy_perm.
    + rewrite <- Hmap, keys_map_values. done.
    + by apply fmap_Permutation.
Qed.

(** ** Arithmetic of the hash loop *)

Lemma toInt32_range (x : Z) : -2147483648 ≤ toInt32 x < 2147483648.
Proof.
  unfold toInt32.
  pose proof (Z.mod_pos_bound (x + 2147483648) 4294967296 ltac:(lia)). lia.
Qed.

Lemma toInt32_congr (x : Z) : ∃ k, toInt32 x = x + 4294967296 * k.
Proof.
  unfold toInt32. exists (- ((x + 2147483648) / 4294967296)).
  rewrite Z.mod_eq by lia. lia.
Qed.

Lemma roundDouble_exact (x : Z) :
  Z.abs x ≤ 9007199254740992 → roundDouble x = x.
Proof.
  intros Hx. unfold roundDouble.
  destruct (Z.leb_spec (Z.abs x) 9007199254740992); [done | lia].
Qed.

(** While the running value stays below 2^53 no addition is rounded, the
    value grows by at most 2^31 + 255 per character, and it agrees with the
    polynomial hash modulo 2^32. *)
Lemma hashLoop_rollingHash (s : string) (h r : Z) :
  Z.abs h + Z.of_nat (String.length s) * 2147483903 ≤ 9007199254740992 →
  (∃ k, h = r + 4294967296 * k) →
  ∃ k, hashLoop h s = rollingHash r s + 4294967296 * k.
Proof.
  revert h r. induction s as [|c s IH]; intros h r Hb Hk; simpl; [done|].
  assert (Hc : 0 ≤ charCode c < 256).
  { unfold charCode. pose proof (N_ascii_bounded c). lia. }
  pose proof (toInt32_range (toInt32 h * 32)) as Hr1.
  destruct (toInt32_congr (toInt32 h * 32)) as [k1 Hk1].
  destruct (toInt32_congr h) as [k2 Hk2].
  destruct Hk as [k Hk].
  change (String.length (String c s)) with (S (String.length s)) in Hb.
  unfold hashStep.
  rewrite (roundDouble_exact (toInt32 (toInt32 h * 32) + h)) by lia.
  rewrite roundDouble_exact by lia.
  apply IH; [lia|].
  exists (k1 + 32 * k2 + 33 * k). lia.
Qed.

Lemma land_mask31 (x : Z) : Z.land x 2147483647 = x mod 2147483648.
Proof. change 2147483647 with (Z.ones 31). by rewrite Z.land_ones. Qed.

Lemma masked_range (x : Z) : 0 ≤ Z.land (toInt32 x) 2147483647 < 2147483648.
Proof. rewrite land_mask31. apply Z.mod_pos_bound. lia. Qed.

Lemma masked_congr (x r : Z) :
  (∃ k, x = r + 4294967296 * k) →
  Z.land (toInt32 x) 2147483647 = r mod 2147483648.
Proof.
  intros [k ->]. rewrite land_mask31.
  destruct (toInt32_congr (r + 4294967296 * k)) as [k' ->].
  replace (r + 4294967296 * k + 4294967296 * k')
    with (r + (2 * k + 2 * k') * 2147483648) by lia.
  by rewrite Z.mod_add.
Qed.

(** ** Base 36 *)

Lemma digit36_value (d : Z) : 0 ≤ d < 36 → digit36Value (digit36 d) = d.
Proof.
  intros Hd. unfold digit36Value, digit36, charCode, ascii_of_Z.
  destruct (Z.ltb_spec d 10).
  - rewrite N_ascii_embedding by lia.
    destruct (Z.ltb_spec (Z.of_N (Z.to_N (48 + d))) 58); lia.
  - rewrite N_ascii_embedding by lia.
    destruct (Z.ltb_spec (Z.of_N (Z.to_N (87 + d))) 58); lia.
Qed.

Lemma parse36_toString36_go (fuel : nat) (n a : Z) (acc : string) :
  0 ≤ n < 36 ^ Z.of_nat fuel →
  ∃ d : nat, parse36 a (toString36_go fuel n acc) = parse36 (a * 36 ^ Z.of_nat d + n) acc.
Proof.
  revert n a acc. induction fuel as [|fuel IH]; intros n a acc Hn.
  - exists 0%nat. simpl in *. f_equal. lia.
  - simpl toString36_go.
    assert (Hm : 0 ≤ n mod 36 < 36) by (apply Z.mod_pos_bound; lia).
    assert (Hdm : n = 36 * (n / 36) + n mod 36) by (apply Z.div_mod; lia).
    destruct (Z.eqb_spec (n / 36) 0) as [Hz|Hnz].
    + exists 1%nat. simpl parse36. rewrite digit36_value by done.
      f_equal. lia.
    + assert (Hq : 0 ≤ n / 36 < 36 ^ Z.of_nat fuel).
      { split; [apply Z.div_pos; lia|].
        apply Z.div_lt_upper_bound; [lia|].
        replace (Z.of_nat (S fuel)) with (Z.succ (Z.of_nat fuel)) in Hn by lia.
        rewrite Z.pow_succ_r in Hn by lia. lia. }
      destruct (IH (n / 36) a (String (digit36 (n mod 36)) acc) Hq) as [d Hd].
      exists (S d). rewrite Hd. simpl parse36. rewrite digit36_value by done.
      f_equal.
      replace (Z.of_nat (S d)) with (Z.succ (Z.of_nat d)) by lia.
      rewrite Z.pow_succ_r by lia. lia.
Qed.

(** The base-36 text denotes the number it was printed from. *)
Lemma parse36_toString36 (n : Z) : 0 ≤ n → parse36 0 (toString36 n) = n.
Proof.
  intros Hn. unfold toString36.
  destruct (parse36_toString36_go (S (Z.to_nat (Z.log2 n))) n 0 "") as [d Hd].
  - split; [lia|].
    destruct (Z.eq_dec n 0) as [->|Hnz]; [simpl; lia|].
    pose proof (Z.log2_spec n ltac:(lia)) as [_ Hl].
    pose proof (Z.log2_nonneg n).
    replace (Z.of_nat (S (Z.to_nat (Z.log2 n)))) with (Z.succ (Z.log2 n)) by lia.
    eapply Z.lt_le_trans; [exact Hl|].
    apply Z.pow_le_mono_l. lia.
  - rewrite Hd. simpl. lia.
Qed.

(** ** The schema hash *)

Lemma stableJson_array (l : list json) :
  stableJson (JArr l) = "[" +:+ join "," (stableJson <$> l) +:+ "]".
Proof.
  unfold stableJson. simpl. do 2 f_equal.
  rewrite <- list_fmap_compose. done.
Qed.

(** C3, counterexample: the two arrangements of the array ["bA", "ab"] have
    different elements and yet the same hash, so a changed array order does
    not always change the hash. *)
Lemma getSchemaHash_array_collision :
  JStr "bA" ≠ JStr "ab" ∧
  stableJson (ex_arr (JStr "bA") (JStr "ab")) ≠ stableJson (ex_arr (JStr "ab") (JStr "bA")) ∧
  getSchemaHash (ex_arr (JStr "bA") (JStr "ab")) = getSchemaHash (ex_arr (JStr "ab") (JStr "bA")).
Proof. split; [|split]; [discriminate | discriminate | reflexivity]. Qed.

(** C3, as amended: the hash of a document is unchanged when the keys of its
    objects are enumerated in another order (in particular when the same
    document is hashed again); it is the base-36 numeral of the loop's value
    masked to 31 bits, and for a stable JSON text of at most 4194303 code
    units that value is the polynomial rolling hash [h * 33 + c] from 5381
    modulo 2^31; arrays are serialised in their given order, so that changing
    the order of an array's elements can change the hash. *)
Theorem getSchemaHash_stable (D : json) :
  uniqueKeys D = true →
  (∀ D', reordered D D' → getSchemaHash D' = getSchemaHash D) ∧
  (∃ n, getSchemaHash D = toString36 n ∧
        n = Z.land (toInt32 (hashLoop 5381 (stableJson D))) 2147483647 ∧
        0 ≤ n < 2147483648 ∧
        parse36 0 (getSchemaHash D) = n ∧
        (Z.of_nat (String.length (stableJson D)) ≤ 4194303 →
         n = rollingHash 5381 (stableJson D) mod 2147483648)) ∧
  (∀ l, stableJson (JArr l) = "[" +:+ join "," (stableJson <$> l) +:+ "]") ∧
  getSchemaHash (ex_arr (JStr "a") (JStr "b")) ≠ getSchemaHash (ex_arr (JStr "b") (JStr "a")).
Proof.
  intros Hu. split; [|split; [|split]].
  - intros D' Hr. unfold getSchemaHash, stableJson.
    by rewrite (sortKeysDeep_reordered D D').
  - eexists. split; [reflexivity|]. split; [reflexivity|].
    split; [apply masked_range|]. split.
    + unfold getSchemaHash. apply parse36_toString36, masked_range.
    + intros Hlen. apply masked_congr.
      apply hashLoop_rollingHash; [simpl; lia | by exists 0].
  - apply stableJson_array.
  - vm_compute. discriminate.
Qed.

Lemma getSchemaHash_stable_witness :
  uniqueKeys ex_doc1 = true ∧ reordered ex_doc1 ex_doc2 ∧
  getSchemaHash ex_doc2 = getSchemaHash ex_doc1.
Proof.
  assert (Hr : reordered ex_doc1 ex_doc2).
  { unfold ex_doc1, ex_doc2.
    eapply reordered_obj; [|apply Permutation_swap].
    repeat constructor; simpl.
    eapply reordered_obj; [|reflexivity].
    repeat constructor; simpl.
    eapply reordered_obj; [|apply Permutation_swap].
    repeat constructor. }
  split; [reflexivity|]. split; [exact Hr|].
  exact (proj1 (getSchemaHash_stable ex_doc1 eq_refl) ex_doc2 Hr).
Defined.

(** ** Assignment and lookup *)

Lemma assoc_obj_update {A} (k k' : string) (v : A) (fs : list (string * A)) :
  assoc k' (obj_update k v fs) =
  if String.eqb k' k then (match assoc k fs with Some _ => Some v | None => None end)
  else assoc k' fs.
Proof.
  induction fs as [|[k0 v0] fs IH]; simpl.
  - by destruct (String.eqb k' k).
  - destruct (String.eqb_spec k k0) as [->|Hne]; simpl.
    + by destruct (String.eqb_spec k' k0).
    + destruct (String.eqb_spec k' k0) as [->|Hne'].
      * destruct (String.eqb_spec k0 k); [congruence | done].
      * exact IH.
Qed.

Lemma assoc_obj_insert_index {A} (i : Z) (k k' : string) (v : A) (fs : list (string * A)) :
  assoc k fs = None →
  assoc k' (obj_insert_index i k v fs) = if String.eqb k' k then Some v else assoc k' fs.
Proof.
  induction fs as [|[k0 v0] fs IH]; simpl; intros Hk.
  - done.
  - destruct (String.eqb_spec k k0) as [->|Hne]; [done|].
    destruct (arrayIndex k0) as [j|]; [destruct (j <? i)|]; simpl; try done.
    rewrite (IH Hk).
    destruct (String.eqb_spec k' k0) as [->|Hne']; [|done].
    by destruct (String.eqb_spec k0 k); [congruence|].
Qed.

Lemma assoc_app_new {A} (k k' : string) (v : A) (fs : list (string * A)) :
  assoc k fs = None →
  assoc k' (fs ++ [(k, v)]) = if String.eqb k' k then Some v else assoc k' fs.
Proof.
  induction fs as [|[k0 v0] fs IH]; simpl; intros Hk.
  - done.
  - destruct (String.eqb_spec k k0) as [->|Hne]; [done|].
    rewrite (IH Hk).
    destruct (String.eqb_spec k' k0) as [->|Hne']; [|done].
    by destruct (String.eqb_spec k0 k); [congruence|].
Qed.

(** After [CreateDataProperty(k, v)] the key [k] holds [v] and every other
    key holds what it held. *)
Lemma assoc_createDataProperty {A} (k k' : string) (v : A) (fs : list (string * A)) :
  assoc k' (createDataProperty k v fs) = if String.eqb k' k then Some v else assoc k' fs.
Proof.
  unfold createDataProperty. destruct (assoc k fs) as [x|] eqn:E.
  - rewrite assoc_obj_update, E. destruct (String.eqb_spec k' k) as [->|]; [|done]. done.
  - destruct (arrayIndex k); [by apply assoc_obj_insert_index | by apply assoc_app_new].
Qed.

(** The same for the assignment [o[k] = v], for any key but [__proto__]. *)
Lemma assoc_obj_set {A} (k k' : string) (v : A) (fs : list (string * A)) :
  k ≠ "__proto__" →
  assoc k' (obj_set k v fs) = if String.eqb k' k then Some v else assoc k' fs.
Proof.
  intros Hk. unfold obj_set. destruct (assoc k fs) as [x|] eqn:E.
  - rewrite assoc_obj_update, E. by destruct (String.eqb_spec k' k) as [->|].
  - destruct (String.eqb_spec k "__proto__"); [done|]. apply assoc_createDataProperty.
Qed.

Lemma rootGet_rootSetNamed (r : jsval) (k k' : string) (v : json) :
  rootTruthy r = true → rootIsObject r = true →
  k ≠ "__proto__" → arrayIndex k = None →
  rootGet (rootSetNamed r k v) k' =
  if String.eqb k' k then Some v else rootGet r k'.
Proof.
  intros Ht Ho Hk Hi.
  destruct r as [[| | | |l|fs]|l named]; simpl in *; try done.
  - destruct (String.eqb_spec k' k) as [->|Hne].
    + rewrite Hi. unfold obj_set. simpl.
      destruct (String.eqb_spec k "__proto__"); [done|].
      unfold createDataProperty. simpl. rewrite Hi. simpl.
      by rewrite String.eqb_refl.
    + destruct (arrayIndex k'); [done|].
      unfold obj_set. simpl. destruct (String.eqb_spec k "__proto__"); [done|].
      unfold createDataProperty. simpl. rewrite Hi. simpl.
      by destruct (String.eqb_spec k' k).
  - by apply assoc_obj_set.
  - destruct (String.eqb_spec k' k) as [->|Hne].
    + rewrite Hi, assoc_obj_set by done. by rewrite String.eqb_refl.
    + destruct (arrayIndex k'); [done|]. rewrite assoc_obj_set by done.
      by destruct (String.eqb_spec k' k).
Qed.

(** ** Sanitising *)

Lemma elem_of_fmap_fields {A B} (f : A → B) (k : string) (v : B) (fs : list (string * A)) :
  (k, v) ∈ (λ '(k, c), (k, f c)) <$> fs → ∃ v0, (k, v0) ∈ fs ∧ v = f v0.
Proof.
  intros ([k0 v0] & Heq & Hin)%list_elem_of_fmap_1.
  injection Heq as -> ->. by exists v0.
Qed.

Lemma elem_of_indexedFrom_fmap {A B} (f : A → B) (k : string) (v : B) (l : list A) (i : nat) :
  (k, v) ∈ indexedFrom i (f <$> l) → ∃ v0, (k, v0) ∈ indexedFrom i l ∧ v = f v0.
Proof.
  revert i. induction l as [|x l IH]; intros i; simpl.
  - intros H. inversion H.
  - intros [Heq|Hin]%elem_of_cons.
    + injection Heq as -> ->. exists x. split; [left | done].
    + destruct (IH _ Hin) as (v0 & Hv0 & ->). exists v0. split; [by right | done].
Qed.

(** Both kinds of table, an object or an array, keep their keys; each
    value is replaced by its image. *)
Lemma ownProps_sanitizeTable (t : json) (c : string) (v : json) :
  (c, v) ∈ ownProps (sanitizeTable t) →
  ∃ v0, (c, v0) ∈ ownProps t ∧ v = sanitizeColumn v0.
Proof.
  destruct t as [| | | |l|fs]; simpl; try (intros H; by inversion H).
  - apply elem_of_indexedFrom_fmap.
  - apply elem_of_fmap_fields.
Qed.

Lemma ownProps_sanitizeTables (tables tables' : json) (t : string) (table : json) :
  sanitizeTables tables = Ok tables' →
  (t, table) ∈ ownProps tables' →
  ∃ table0, (t, table0) ∈ ownProps tables ∧ table = sanitizeTable table0.
Proof.
  destruct tables as [| | |[|a s]|l|fs]; simpl; intros Heq; try done;
    injection Heq as <-; simpl; try (intros H; by inversion H).
  - apply elem_of_indexedFrom_fmap.
  - apply elem_of_fmap_fields.
Qed.

Lemma isValidColumnType_string : isValidColumnType "string" = true.
Proof. reflexivity. Qed.

Lemma sanitizeColumn_spec (v0 : json) : columnSpec v0 (sanitizeColumn v0).
Proof.
  destruct v0 as [|b|r|s|l|fs]; simpl; try done.
  - destruct (startsWithEnumMarker s) eqn:E1; simpl.
    + split; [done|]. by rewrite E1.
    + destruct (matchesValidType s) eqn:E2.
      * split; [done|]. simpl. by rewrite E1, E2.
      * split; [done|]. reflexivity.
  - destruct (assoc "type" fs) as [[| | |t| |]|] eqn:Et; simpl;
      try (rewrite assoc_createDataProperty; reflexivity).
    destruct (isValidColumnType t) eqn:Ev; simpl.
    + by rewrite Et.
    + rewrite assoc_createDataProperty. reflexivity.
Qed.

(** C1, counterexample: a numeric column definition 42 is stored back as
    the string "42", which is not in the vocabulary. *)
Lemma sanitizeSchema_numeric_column :
  sanitizeSchema ex_numeric_column =
    Ok (Json (JObj [("tables", JObj [("orders", JObj [("id", JStr "string"); ("total", JStr "42")])])]))
  ∧ inVocabulary (JStr "42") = false.
Proof. split; reflexivity. Qed.

(** The [Array.isArray] branch is never taken: an array column becomes a
    descriptor object that lists its elements by index, not the literal
    'array'. *)
Lemma sanitizeColumn_array :
  sanitizeColumn (JArr [JStr "a"; JStr "b"]) =
    JObj [("0", JStr "a"); ("1", JStr "b"); ("type", JStr "string")].
Proof. reflexivity. Qed.

(** C1, as amended: sanitising returns for every document whose [tables] is
    not a non-empty string, and each column of each table of the result
    comes from the column of the same name in the input as follows.  A
    plain string is kept when it starts with an enum marker or matches a
    base type (alone or followed by [:] or [[]) and is replaced by 'string'
    otherwise; a descriptor object ends up with a [type] that is one of the
    base type names; [null], a boolean or a number becomes its string form,
    which need not be in the vocabulary. *)
Theorem sanitizeSchema_columns (D : jsval) :
  (tablesIsText D = false → ∃ S, sanitizeSchema D = Ok S) ∧
  (∀ S t c v,
     sanitizeSchema D = Ok S → columnAt S t c v →
     ∃ v0, columnAt D t c v0 ∧ columnSpec v0 v).
Proof.
  unfold sanitizeSchema, tablesIsText. split.
  - intros Ht.
    destruct (negb (rootTruthy D) || negb (rootIsObject D)); [by eexists|].
    destruct (rootGet D "tables") as [tables|]; [|by eexists].
    destruct (truthy tables); [|by eexists].
    destruct tables as [| | |[|a s]|l|fs]; simpl; try done; by eexists.
  - intros S t c v HS (tables' & table & Hget & Ht & Hc).
    destruct (negb (rootTruthy D) || negb (rootIsObject D)) eqn:Hroot.
    { injection HS as <-. simpl in Hget. injection Hget as <-.
      simpl in Ht. inversion Ht. }
    apply orb_false_iff in Hroot as [Hr1 Hr2].
    apply negb_false_iff in Hr1, Hr2.
    assert (Hempty : ∀ S', S' = rootSetNamed D "tables" (JObj []) →
                           rootGet S' "tables" = Some tables' → False).
    { intros S' -> Hg. rewrite rootGet_rootSetNamed in Hg by done.
      simpl in Hg. injection Hg as <-. simpl in Ht. inversion Ht. }
    destruct (rootGet D "tables") as [tables|] eqn:HD;
      [|injection HS as <-; by destruct (Hempty _ eq_refl Hget)].
    destruct (truthy tables) eqn:Htr;
      [|injection HS as <-; by destruct (Hempty _ eq_refl Hget)].
    destruct (sanitizeTables tables) as [tables1|e] eqn:Hst; [|done].
    injection HS as <-.
    rewrite rootGet_rootSetNamed in Hget by done. simpl in Hget.
    injection Hget as <-.
    destruct (ownProps_sanitizeTables _ _ _ _ Hst Ht) as (table0 & Ht0 & ->).
    destruct (ownProps_sanitizeTable _ _ _ Hc) as (v0 & Hv0 & ->).
    exists v0. split; [|apply sanitizeColumn_spec].
    by exists tables, table0.
Qed.

Lemma sanitizeSchema_columns_witness :
  sanitizeSchema ex_numeric_column =
    Ok (Json (JObj [("tables", JObj [("orders", JObj [("id", JStr "string"); ("total", JStr "42")])])]))
  ∧ ∃ v0, columnAt ex_numeric_column "orders" "total" v0 ∧ columnSpec v0 (JStr "42").
Proof.
  split; [reflexivity|].
  apply (proj2 (sanitizeSchema_columns ex_numeric_column) _ "orders" "total" (JStr "42") eq_refl).
  eexists _, _. split; [reflexivity|]. split.
  - simpl. left.
  - simpl. right. left.
Defined.

(** ** Filtering after sanitising *)

Lemma rootSetNamed_object (r : jsval) (k : string) (v : json) :
  rootTruthy r = true → rootIsObject r = true →
  rootTruthy (rootSetNamed r k v) = true ∧ rootIsObject (rootSetNamed r k v) = true.
Proof. destruct r as [[| | | |l|fs]|l named]; simpl; done. Qed.

Lemma sanitizeTables_kind (tables tables' : json) :
  sanitizeTables tables = Ok tables' →
  truthy tables = true →
  truthy tables' = true ∧ typeofObject tables' = typeofObject tables.
Proof.
  destruct tables as [| | |[|a s]|l|fs]; simpl; intros Heq Ht; try done;
    by injection Heq as <-.
Qed.

(** C7, counterexample: an empty version is replaced by '1.0.0'; a further
    top-level field is not carried over; and metadata and version are both
    lost when [tables] is a number. *)
Lemma sanitizeThenFilter_not_frame :
  (rootGet ex_empty_version "version" = Some (JStr "") ∧
   ∃ r, sanitizeThenFilter ex_empty_version = Ok r ∧ getProp r "version" = Some (JStr "1.0.0"))
  ∧ (rootGet ex_extra_field "generatedBy" = Some (JStr "ai") ∧
     ∃ r, sanitizeThenFilter ex_extra_field = Ok r ∧ getProp r "generatedBy" = None)
  ∧ (rootGet ex_scalar_tables "metadata" = Some ex_project ∧
     sanitizeThenFilter ex_scalar_tables = Ok (JObj [("tables", JObj [])])).
Proof.
  split; [|split].
  - split; [reflexivity|]. eexists. split; reflexivity.
  - split; [reflexivity|]. eexists. split; reflexivity.
  - split; reflexivity.
Qed.

(** C7, as amended: for a document whose [tables] is not a non-empty string
    the two passes return an object.  Unless [tables] is a number other
    than zero or [true], that object has exactly the fields [tables],
    [version] and [metadata]: [metadata] is the input's when that is present
    and truthy and the empty object otherwise, [version] is the input's when
    present and truthy (not empty) and '1.0.0' otherwise; no other top-level
    field of the input is carried over.  When [tables] is a number other than
    zero or [true], the result is [{tables: {}}] alone.  For a non-empty
    string the sanitiser throws. *)
Theorem sanitizeThenFilter_frame (D : jsval) :
  (tablesIsText D = false →
   ∃ T, sanitizeThenFilter D =
        Ok (JObj (("tables", JObj T) ::
                  if tablesIsScalar D then []
                  else [("version", orElse (rootGet D "version") (JStr "1.0.0"));
                        ("metadata", orElse (rootGet D "metadata") (JObj []))]))
        ∧ (tablesIsScalar D = true → T = []))
  ∧ (tablesIsText D = true → ∃ e, sanitizeThenFilter D = Throw e).
Proof.
  unfold sanitizeThenFilter, sanitizeSchema, tablesIsText, tablesIsScalar. split.
  - intros Htext.
    destruct (rootTruthy D) eqn:Hr1; simpl;
      [|destruct D as [[| | | |l|fs]|l named]; try done; by eexists].
    destruct (rootIsObject D) eqn:Hr2; simpl;
      [|destruct D as [[| | | |l|fs]|l named]; try done; by eexists].
    assert (Hfalsy : ∀ rest,
      rest = [("version", orElse (rootGet D "version") (JStr "1.0.0"));
              ("metadata", orElse (rootGet D "metadata") (JObj []))] →
      ∃ T, filterSchema (rootSetNamed D "tables" (JObj [])) = Ok (JObj (("tables", JObj T) :: rest))
           ∧ (false = true → T = [])).
    { intros rest ->. unfold filterSchema.
      destruct (rootSetNamed_object D "tables" (JObj []) Hr1 Hr2) as [-> ->].
      rewrite !rootGet_rootSetNamed by done. simpl. by eexists. }
    destruct (rootGet D "tables") as [tables|] eqn:HD; [|by apply Hfalsy].
    destruct (truthy tables) eqn:Htr; simpl; [|by apply Hfalsy].
    destruct (sanitizeTables tables) as [tables1|e] eqn:Hst.
    + destruct (sanitizeTables_kind _ _ Hst Htr) as [Ht1 Ho1].
      unfold filterSchema.
      destruct (rootSetNamed_object D "tables" tables1 Hr1 Hr2) as [-> ->].
      rewrite !rootGet_rootSetNamed by done. simpl.
      rewrite Ht1, Ho1. simpl.
      destruct (typeofObject tables); simpl; by eexists.
    + destruct tables as [| | |[|a s]|l|fs]; simpl in *; done.
  - intros Htext.
    destruct (rootGet D "tables") as [[| | |[|a s]| |]|] eqn:HD; try done.
    destruct (rootTruthy D) eqn:Hr1; [|by destruct D as [[]|]].
    destruct (rootIsObject D) eqn:Hr2; [|by destruct D as [[]|]].
    simpl. by eexists.
Qed.

Lemma sanitizeThenFilter_frame_witness :
  tablesIsText ex_extra_field = false ∧
  ∃ T, sanitizeThenFilter ex_extra_field =
       Ok (JObj [("tables", JObj T); ("version", JStr "1.0.0"); ("metadata", ex_project)]).
Proof.
  split; [reflexivity|].
  destruct (proj1 (sanitizeThenFilter_frame ex_extra_field) eq_refl) as (T & H & _).
  by exists T.
Defined.

(** ** Merging *)

Lemma assoc_foldl_createDataProperty (k : string) (src target : list (string * json)) :
  NoDup (keys src) →
  assoc k (foldl (λ acc '(k, v), createDataProperty k v acc) target src) =
  match assoc k src with
  | Some v => Some v
  | None => assoc k target
  end.
Proof.
  revert target. induction src as [|[k0 v0] src IH]; intros target Hnd; simpl; [done|].
  unfold keys in Hnd. rewrite fmap_cons in Hnd. apply NoDup_cons in Hnd as [Hk0 Hnd].
  rewrite (IH _ Hnd), assoc_createDataProperty.
  destruct (String.eqb_spec k k0) as [->|Hne]; [|done].
  simpl in Hk0. apply (assoc_None k0 src) in Hk0. by rewrite Hk0.
Qed.

Lemma assoc_spreadOptInto (k : string) (src : option json) (target : list (string * json)) :
  ownKeysDistinct src →
  assoc k (spreadOptInto target src) =
  match ownGet src k with
  | Some v => Some v
  | None => assoc k target
  end.
Proof.
  destruct src as [v|]; simpl; [|done].
  intros Hnd. by apply assoc_foldl_createDataProperty.
Qed.

(** C8: the merged document's [tables] holds, under each key, the server's
    table when the server has that key and the local table otherwise; a
    table is taken whole, so the columns of a table that both sides have
    are the server's alone. *)
Theorem mergeSchemas_shallow (localSchema serverSchema : json)
    (localTables serverTables : option json) :
  getMember localSchema "tables" = Ok localTables →
  getMember serverSchema "tables" = Ok serverTables →
  ownKeysDistinct localTables → ownKeysDistinct serverTables →
  ∃ merged tables,
    mergeSchemas localSchema serverSchema = Ok merged ∧
    getProp merged "tables" = Some (JObj tables) ∧
    ∀ k,
      (is_Some (ownGet localTables k) → is_Some (ownGet serverTables k) →
       assoc k tables = ownGet serverTables k) ∧
      (is_Some (ownGet localTables k) → ownGet serverTables k = None →
       assoc k tables = ownGet localTables k) ∧
      (ownGet localTables k = None → is_Some (ownGet serverTables k) →
       assoc k tables = ownGet serverTables k) ∧
      (ownGet localTables k = None → ownGet serverTables k = None →
       assoc k tables = None).
Proof.
  intros Hl Hs Hnl Hns. unfold mergeSchemas. rewrite Hl, Hs.
  eexists _, _. split; [reflexivity|]. split.
  - simpl. by rewrite assoc_createDataProperty.
  - intros k. rewrite !assoc_spreadOptInto by done. simpl.
    destruct (ownGet serverTables k) as [vs|], (ownGet localTables k) as [vl|];
      repeat split; intros H1 H2; try done; by destruct H1 || by destruct H2.
Qed.

Lemma mergeSchemas_shallow_witness :
  ownKeysDistinct (getProp ex_local "tables") ∧
  ownKeysDistinct (getProp ex_server "tables") ∧
  ∃ merged tables,
    mergeSchemas ex_local ex_server = Ok merged ∧
    getProp merged "tables" = Some (JObj tables) ∧
    ∀ k,
      (is_Some (ownGet (getProp ex_local "tables") k) →
       is_Some (ownGet (getProp ex_server "tables") k) →
       assoc k tables = ownGet (getProp ex_server "tables") k) ∧
      (is_Some (ownGet (getProp ex_local "tables") k) →
       ownGet (getProp ex_server "tables") k = None →
       assoc k tables = ownGet (getProp ex_local "tables") k) ∧
      (ownGet (getProp ex_local "tables") k = None →
       is_Some (ownGet (getProp ex_server "tables") k) →
       assoc k tables = ownGet (getProp ex_server "tables") k) ∧
      (ownGet (getProp ex_local "tables") k = None →
       ownGet (getProp ex_server "tables") k = None →
       assoc k tables = None).
Proof.
  assert (H1 : ownKeysDistinct (getProp ex_local "tables"))
    by (apply (bool_decide_unpack _); reflexivity).
  assert (H2 : ownKeysDistinct (getProp ex_server "tables"))
    by (apply (bool_decide_unpack _); reflexivity).
  split; [exact H1|]. split; [exact H2|].
  exact (mergeSchemas_shallow ex_local ex_server _ _ eq_refl eq_refl H1 H2).
Defined.

(** The table [users] exists on both sides: the merged table is the
    server's, and the local column [name] is gone. *)
Lemma mergeSchemas_example :
  mergeSchemas ex_local ex_server =
  Ok (JObj [("tables",
             JObj [("users", JObj [("id", JStr "string"); ("email", JStr "string")]);
                   ("drafts", JObj [("id", JStr "string")]);
                   ("orders", JObj [("id", JStr "string")])]);
            ("metadata", ex_project);
            ("version", JStr "1.0.0")]).
Proof. reflexivity. Qed.

(** ** Running programs *)

Lemma run_bind {A B} (m : prog A) (f : A → prog B) (o : oracle) (w : world) (tr : list event) :
  run (bind m f) o w tr =
  match run m o w tr with
  | (Returned a, w', tr') => run (f a) o w' tr'
  | (Threw e, w', tr') => (Threw e, w', tr')
  | (Exited code, w', tr') => (Exited code, w', tr')
  end.
Proof.
  revert w tr. induction m as [a|e|X eff k IH]; intros w tr; simpl; try done.
  destruct (handle o tr w eff) as [[x w']|code]; [apply IH | done].
Qed.

Lemma run_catch {A} (m : prog A) (h : jserror → prog A) (o : oracle) (w : world)
    (tr : list event) :
  run (catch m h) o w tr =
  match run m o w tr with
  | (Threw e, w', tr') => run (h e) o w' tr'
  | other => other
  end.
Proof.
  revert w tr. induction m as [a|e|X eff k IH]; intros w tr; simpl; try done.
  destruct (handle o tr w eff) as [[x w']|code]; [apply IH | done].
Qed.

Lemma run_extends {A} (m : prog A) (o : oracle) (w w' : world) (tr tr' : list event)
    (out : outcome A) :
  run m o w tr = (out, w', tr') → ∃ evs, tr' = tr ++ evs.
Proof.
  revert w tr. induction m as [a|e|X eff k IH]; intros w tr; simpl.
  - intros [= _ _ <-]. exists []. by rewrite app_nil_r.
  - intros [= _ _ <-]. exists []. by rewrite app_nil_r.
  - destruct (handle o tr w eff) as [[x w1]|code].
    + intros [evs ->]%IH. exists (Event eff x :: evs). by rewrite <- app_assoc.
    + intros [= _ _ <-]. exists []. by rewrite app_nil_r.
Qed.

Lemma run_say (line : string) (o : oracle) (w : world) (tr : list event) :
  run (say line) o w tr = (Returned tt, w, tr ++ [Event (Say line) tt]).
Proof. reflexivity. Qed.

(** A program that avoids a kind of effect adds no event of that kind. *)
Lemma run_avoids {A} (c : kind) (m : prog A) (o : oracle) (w w' : world)
    (tr tr' : list event) (out : outcome A) :
  avoids c m → run m o w tr = (out, w', tr') →
  ∃ evs, tr' = tr ++ evs ∧ Forall (λ ev, ofKind c ev = false) evs.
Proof.
  intros Hav. revert w tr.
  induction Hav as [a|e|X eff k Hc Hk IH]; intros w tr; simpl.
  - intros [= _ _ <-]. exists []. by rewrite app_nil_r.
  - intros [= _ _ <-]. exists []. by rewrite app_nil_r.
  - destruct (handle o tr w eff) as [[x w1]|code].
    + intros (evs & -> & HF)%IH. exists (Event eff x :: evs).
      split; [by rewrite <- app_assoc | by constructor].
    + intros [= _ _ <-]. exists []. by rewrite app_nil_r.
Qed.

(** A program that never writes to a path leaves the file there as it is. *)
Lemma run_keeps_file {A} (path : string) (m : prog A) (o : oracle) (w w' : world)
    (tr tr' : list event) (out : outcome A) :
  avoids (writesTo path) m → run m o w tr = (out, w', tr') →
  files w' !! path = files w !! path.
Proof.
  intros Hav. revert w tr.
  induction Hav as [a|e|X eff k Hc Hk IH]; intros w tr; simpl.
  - by intros [= _ <- _].
  - by intros [= _ <- _].
  - destruct (handle o tr w eff) as [[x w1]|code] eqn:Hh.
    + intros Hrun. rewrite (IH _ _ _ Hrun).
      destruct eff; simpl in Hh; try done; try (by injection Hh as _ <-).
      injection Hh as _ <-. simpl. unfold writesTo in Hc.
      apply lookup_insert_ne. intros ->. by rewrite String.eqb_refl in Hc.
    + by intros [= _ <- _].
Qed.

(** A program that never writes at all leaves the world as it is. *)
Lemma run_keeps_world {A} (m : prog A) (o : oracle) (w w' : world)
    (tr tr' : list event) (out : outcome A) :
  avoids writes m → run m o w tr = (out, w', tr') → w' = w.
Proof.
  intros Hav. revert w tr.
  induction Hav as [a|e|X eff k Hc Hk IH]; intros w tr; simpl.
  - by intros [= _ <- _].
  - by intros [= _ <- _].
  - destruct (handle o tr w eff) as [[x w1]|code] eqn:Hh.
    + intros Hrun. rewrite (IH _ _ _ Hrun).
      destruct eff; simpl in Hh; try done; by injection Hh as _ <-.
    + by intros [= _ <- _].
Qed.

Lemma avoids_bind {A B} (c : kind) (m : prog A) (f : A → prog B) :
  avoids c m → (∀ a, avoids c (f a)) → avoids c (bind m f).
Proof.
  intros Hm Hf. induction Hm as [a|e|X eff k Hc Hk IH]; simpl.
  - apply Hf.
  - constructor.
  - by constructor.
Qed.

Lemma avoids_catch {A} (c : kind) (m : prog A) (h : jserror → prog A) :
  avoids c m → (∀ e, avoids c (h e)) → avoids c (catch m h).
Proof.
  intros Hm Hh. induction Hm as [a|e|X eff k Hc Hk IH]; simpl.
  - constructor.
  - apply Hh.
  - by constructor.
Qed.

Lemma avoids_lift {A} (c : kind) (r : result A) : avoids c (lift r).
Proof. destruct r; constructor. Qed.

Lemma avoids_exit {A} (c : kind) (code : Z) : c _ (Exit code) = false → avoids c (@exit A code).
Proof. intros Hc. constructor; [done | intros []]. Qed.

(** Discharging [avoids]: program structure first, case analysis on the
    remaining scrutinees last. *)
Ltac avoids_step :=
  first
    [ apply avoids_Ret
    | apply avoids_Raise
    | apply avoids_lift
    | apply avoids_exit; reflexivity
    | apply avoids_bind; [|intros ?]
    | apply avoids_catch; [|intros ?]
    | apply avoids_Do; [reflexivity | intros ?]
    | progress (unfold perform, say, readJson)
    | case_match ].

Ltac solve_avoids := repeat avoids_step.

Lemma answers_app (tr1 tr2 : list event) : answers (tr1 ++ tr2) = answers tr1 ++ answers tr2.
Proof.
  induction tr1 as [|[X eff x] tr1 IH]; simpl; [done|].
  destruct eff; simpl; by rewrite ?IH.
Qed.

Lemma answers_none (evs : list event) :
  Forall (λ ev, ofKind asks ev = false) evs → answers evs = [].
Proof.
  induction 1 as [|[X eff x] evs Hev _ IH]; simpl; [done|].
  destruct eff; simpl in *; done.
Qed.

(** ** Pulling *)

Arguments getSchemaHash : simpl never.
Arguments mergeSchemas : simpl never.
Arguments createDataProperty : simpl never.
Arguments spreadInto : simpl never.
Arguments Pull.updateSchemaFile : simpl never.
Arguments Pull.updateLastPullTime : simpl never.
Arguments Pull.resolveConflict : simpl never.

Lemma updateLastPullTime_avoids (c : kind) (file hash : string) :
  (∀ content, c _ (FsWrite file content) = false) →
  c _ Now = false → (∀ t, c _ (ToISOString t) = false) →
  avoids c (Pull.updateLastPullTime file hash).
Proof.
  intros Hw Hn Hi. unfold Pull.updateLastPullTime, perform. simpl.
  constructor; [done|intros now]. constructor; [done|intros iso].
  constructor; [done|intros []]. constructor.
Qed.

Lemma updateSchemaFile_avoids_asks (file : string) (schema : json) :
  avoids asks (Pull.updateSchemaFile file schema).
Proof. unfold Pull.updateSchemaFile. solve_avoids. Qed.

Lemma resolveConflict_avoids_asks (a : ConflictAction) (l s : json) (file : string) :
  avoids asks (Pull.resolveConflict a l s file).
Proof.
  unfold Pull.resolveConflict.
  destruct a; solve_avoids; apply updateSchemaFile_avoids_asks.
Qed.

Lemma resolveConflict_LOCAL_avoids_writes (l s : json) (file : string) :
  avoids writes (Pull.resolveConflict LOCAL l s file).
Proof. unfold Pull.resolveConflict. solve_avoids. Qed.

Lemma resolve_then_record (o : oracle) (w w' : world) (tr1 tr : list event)
    (a : ConflictAction) (l s : json) (h : string) (out : outcome unit) :
  run (bind (Pull.resolveConflict a l s schemaFileName)
            (λ _, Pull.updateLastPullTime lastPullFileName h)) o w tr1 = (out, w', tr) →
  ∃ evs, tr = tr1 ++ evs ∧ answers evs = [] ∧
         (a = LOCAL →
          Forall (λ ev, ofKind (writesTo schemaFileName) ev = false) evs ∧
          files w' !! schemaFileName = files w !! schemaFileName).
Proof.
  intros Hrun.
  assert (Hasks : avoids asks (bind (Pull.resolveConflict a l s schemaFileName)
                                    (λ _, Pull.updateLastPullTime lastPullFileName h))).
  { apply avoids_bind; [apply resolveConflict_avoids_asks|].
    intros _. by apply updateLastPullTime_avoids. }
  destruct (run_avoids _ _ _ _ _ _ _ _ Hasks Hrun) as (evs & -> & Hevs).
  exists evs. split; [done|]. split; [by apply answers_none|].
  intros ->.
  assert (Hw : avoids (writesTo schemaFileName)
                 (bind (Pull.resolveConflict LOCAL l s schemaFileName)
                       (λ _, Pull.updateLastPullTime lastPullFileName h))).
  { apply avoids_bind; [unfold Pull.resolveConflict; solve_avoids|].
    intros _. by apply updateLastPullTime_avoids. }
  destruct (run_avoids _ _ _ _ _ _ _ _ Hw Hrun) as (evs' & Heq & Hevs').
  apply app_inv_head in Heq as <-.
  split; [done|]. by apply (run_keeps_file _ _ _ _ _ _ _ _ Hw Hrun).
Qed.

(** The heart of the conflict path: with remote changes and a schema file
    modified after the last pull, the first thing after reading the
    modification time is the prompt with the four choices; after [DIFF] the
    two excerpts are shown and the prompt with the three remaining choices
    follows; nothing is asked after that, and keeping the local version
    writes no schema file. *)
Lemma processServerResponse_conflict (o : oracle) (w w' : world) (tr0 tr : list event)
    (r : response) (schemaData serverSchema : json) (localSchemaHash : string)
    (lastPullTime : jsdate) (f : file) (t : Z) (out : outcome unit) :
  Pull.serverSchemaOf r = Ok (Some serverSchema) →
  truthy serverSchema = true →
  Pull.isUpdatedOf r || negb (String.eqb (getSchemaHash serverSchema) localSchemaHash) = true →
  files w !! schemaFileName = Some f →
  lastPullTime = Some t → t < file_mtime f →
  run (Pull.processServerResponse r schemaData localSchemaHash
         schemaFileName lastPullFileName lastPullTime) o w tr0 = (out, w', tr) →
  ∃ a evs,
    tr = tr0 ++ Event (FsStat schemaFileName) (Ok (file_mtime f))
             :: Event (Ask SERVER [LOCAL; MERGE; DIFF]) a :: evs ∧
    (a ≠ DIFF →
     answers evs = [] ∧
     (a = LOCAL →
      Forall (λ ev, ofKind (writesTo schemaFileName) ev = false) evs ∧
      files w' !! schemaFileName = files w !! schemaFileName)) ∧
    (a = DIFF →
     ∃ a2 evs',
       evs = excerptEvents ++ Event (Ask SERVER [LOCAL; MERGE]) a2 :: evs' ∧
       a2 ≠ DIFF ∧ answers evs' = [] ∧
       (a2 = LOCAL →
        Forall (λ ev, ofKind (writesTo schemaFileName) ev = false) evs' ∧
        files w' !! schemaFileName = files w !! schemaFileName)).
Proof.
  intros Hschema Htruthy Hchg Hfile -> Hlt Hrun.
  unfold Pull.processServerResponse in Hrun.
  rewrite Hschema in Hrun. simpl in Hrun. rewrite Htruthy in Hrun. simpl in Hrun.
  rewrite Hfile in Hrun. simpl in Hrun.
  assert (Hgt : (t <? file_mtime f) = true) by (apply Z.ltb_lt; lia).
  rewrite Hgt, Hchg in Hrun. simpl in Hrun.
  revert Hrun.
  match goal with
  | |- context [Event (Ask SERVER [LOCAL; MERGE; DIFF]) ?x] => generalize x
  end.
  intros a.
  assert (Hshape : ∀ (e1 e2 : event) (evs : list event),
            ((tr0 ++ [e1]) ++ [e2]) ++ evs = tr0 ++ e1 :: e2 :: evs).
  { intros. by rewrite <- !app_assoc. }
  assert (Hnot : a ≠ DIFF →
    run (bind (Pull.resolveConflict a schemaData serverSchema schemaFileName)
              (λ _, Pull.updateLastPullTime lastPullFileName
                      (if (getSchemaHash serverSchema =? "")%string
                       then localSchemaHash else getSchemaHash serverSchema)))
        o w ((tr0 ++ [Event (FsStat schemaFileName) (Ok (file_mtime f))])
             ++ [Event (Ask SERVER [LOCAL; MERGE; DIFF]) a]) = (out, w', tr) →
    ∃ evs,
      tr = tr0 ++ Event (FsStat schemaFileName) (Ok (file_mtime f))
               :: Event (Ask SERVER [LOCAL; MERGE; DIFF]) a :: evs ∧
      answers evs = [] ∧
      (a = LOCAL →
       Forall (λ ev, ofKind (writesTo schemaFileName) ev = false) evs ∧
       files w' !! schemaFileName = files w !! schemaFileName)).
  { intros _ (evs & -> & Hans & Hloc)%resolve_then_record.
    exists evs. by rewrite Hshape. }
  destruct a.
  1-3: intros Hrun; destruct (Hnot ltac:(done) Hrun) as (evs & Heq & Hrest);
       eexists _, evs; (split; [exact Heq|]);
       (split; [intros _; exact Hrest | intros ?; discriminate]).
  clear Hnot. simpl.
  match goal with
  | |- context [Event (Ask SERVER [LOCAL; MERGE]) ?x] =>
      assert (Ha2 : x ≠ DIFF) by (repeat case_match; done);
      revert Ha2; generalize x
  end.
  intros a2 Ha2 (evs & -> & Hrest)%resolve_then_record.
  eexists DIFF, _. split; [|split; [done|]].
  - rewrite <- !app_assoc. simpl. reflexivity.
  - intros _. by exists a2, evs.
Qed.

(** C2: with a server schema whose hash differs from the local one (or the
    [updated] flag set) and a schema file modified after the last pull, the
    response is processed by reading the file's modification time and then
    asking for one of server / local / merge / diff; after diff the excerpts
    are printed and one of server / local / merge is asked for.  No schema
    file is written before the (first) choice, and when the choice finally
    made is to keep the local version no schema file is written at all. *)
Theorem pull_conflict_requires_choice (o : oracle) (w w' : world) (tr : list event)
    (r : response) (schemaData serverSchema : json) (localSchemaHash : string)
    (lastPullTime : jsdate) (f : file) (t : Z) (out : outcome unit) :
  Pull.serverSchemaOf r = Ok (Some serverSchema) →
  truthy serverSchema = true →
  Pull.isUpdatedOf r || negb (String.eqb (getSchemaHash serverSchema) localSchemaHash) = true →
  files w !! schemaFileName = Some f →
  lastPullTime = Some t → t < file_mtime f →
  run (Pull.processServerResponse r schemaData localSchemaHash
         schemaFileName lastPullFileName lastPullTime) o w [] = (out, w', tr) →
  ∃ a evs,
    tr = Event (FsStat schemaFileName) (Ok (file_mtime f))
         :: Event (Ask SERVER [LOCAL; MERGE; DIFF]) a :: evs ∧
    Forall (λ ev, ofKind (writesTo schemaFileName) ev = false) (beforeFirstAsk tr) ∧
    (a = DIFF →
     ∃ a2 evs', evs = excerptEvents ++ Event (Ask SERVER [LOCAL; MERGE]) a2 :: evs' ∧
                a2 ≠ DIFF) ∧
    (last (answers tr) = Some LOCAL →
     Forall (λ ev, ofKind (writesTo schemaFileName) ev = false) tr ∧
     files w' !! schemaFileName = files w !! schemaFileName).
Proof.
  intros Hschema Htruthy Hchg Hfile Hlast Hlt Hrun.
  destruct (processServerResponse_conflict _ _ _ _ _ _ _ _ _ _ _ _ _
              Hschema Htruthy Hchg Hfile Hlast Hlt Hrun) as (a & evs & Htr & Hnd & Hd).
  simpl in Htr. exists a, evs. split; [exact Htr|]. split; [|split].
  - rewrite Htr. simpl. by repeat constructor.
  - intros Ha. destruct (Hd Ha) as (a2 & evs' & Hevs & Ha2 & _). by exists a2, evs'.
  - rewrite Htr. simpl.
    assert (a = DIFF ∨ a ≠ DIFF) as [Ha|Ha] by (destruct a; auto).
    + destruct (Hd Ha) as (a2 & evs' & -> & Ha2 & Hans & Hloc).
      simpl. rewrite Hans. simpl. intros [= ->].
      destruct (Hloc eq_refl) as [Hev Hf]. split; [|exact Hf].
      by repeat constructor.
    + destruct (Hnd Ha) as (Hans & Hloc). rewrite Hans. simpl. intros [= ->].
      destruct (Hloc eq_refl) as [Hev Hf]. split; [|exact Hf].
      by repeat constructor.
Qed.

Lemma pull_conflict_requires_choice_witness :
  ∃ a evs,
    (run (Pull.processServerResponse ex_reply ex_local (getSchemaHash ex_local)
            schemaFileName lastPullFileName (Some 1000))
         (ex_oracle 1 (Ok ex_reply) ex_creds (Ok (RawText ""))) ex_world []).2
    = Event (FsStat schemaFileName) (Ok 2000)
      :: Event (Ask SERVER [LOCAL; MERGE; DIFF]) a :: evs.
Proof.
  destruct (run (Pull.processServerResponse ex_reply ex_local (getSchemaHash ex_local)
                   schemaFileName lastPullFileName (Some 1000))
                (ex_oracle 1 (Ok ex_reply) ex_creds (Ok (RawText ""))) ex_world [])
    as [[out w'] tr] eqn:Hrun.
  destruct (pull_conflict_requires_choice
              (ex_oracle 1 (Ok ex_reply) ex_creds (Ok (RawText ""))) ex_world w' tr
              ex_reply ex_local ex_server (getSchemaHash ex_local) (Some 1000)
              (File (JsonText ex_local) 2000) 1000 out
              eq_refl eq_refl eq_refl eq_refl eq_refl eq_refl Hrun)
    as (a & evs & Htr & _).
  exists a, evs. exact Htr.
Defined.

Arguments hasLocalChanges : simpl never.
Arguments Pull.handleSchemaConflicts : simpl never.

(** Whenever the response carries a schema and processing it completes,
    the last-pull file holds the hash of the server schema: the up-to-date,
    update and conflict branches all end in [updateLastPullTime]. *)
Lemma processServerResponse_records (o : oracle) (w w' : world) (tr0 tr : list event)
    (r : response) (schemaData serverSchema : json) (localSchemaHash : string)
    (lastPullTime : jsdate) :
  Pull.serverSchemaOf r = Ok (Some serverSchema) →
  truthy serverSchema = true →
  run (Pull.processServerResponse r schemaData localSchemaHash
         schemaFileName lastPullFileName lastPullTime) o w tr0 = (Returned tt, w', tr) →
  ∃ time mtime,
    files w' !! lastPullFileName =
    Some (File (JsonText (JObj [("time", JStr time);
                                ("hash", JStr (if String.eqb (getSchemaHash serverSchema) ""
                                               then localSchemaHash
                                               else getSchemaHash serverSchema))]))
               mtime).
Proof.
  intros Hschema Htruthy Hrun.
  unfold Pull.processServerResponse in Hrun.
  rewrite Hschema in Hrun. cbn [lift bind] in Hrun.
  rewrite Htruthy in Hrun. cbn [negb] in Hrun.
  rewrite run_bind in Hrun.
  destruct (run (hasLocalChanges schemaFileName lastPullTime) o w tr0)
    as [[[mods|e|code] w1] tr1]; try done.
  rewrite run_bind in Hrun.
  match type of Hrun with
  | match run ?m o w1 tr1 with _ => _ end = _ =>
      destruct (run m o w1 tr1) as [[[[]|e|code] w2] tr2]; try done
  end.
  unfold Pull.updateLastPullTime in Hrun. simpl in Hrun.
  injection Hrun as <- _. simpl. rewrite lookup_insert_eq. by eexists _, _.
Qed.


Lemma getLocalSchemaInfo_epoch (o : oracle) (w : world) (tr : list event)
    (schemaData : json) (mtime : Z) :
  files w !! schemaFileName = Some (File (JsonText schemaData) mtime) →
  lastPullLost w = true →
  ∃ evs,
    run (Pull.getLocalSchemaInfo schemaFileName lastPullFileName) o w tr
    = (Returned (schemaData, getSchemaHash schemaData, Some 0), w, tr ++ evs) ∧
    Forall (λ ev, ofKind quiet ev = false) evs.
Proof.
  intros Hfile Hlost. unfold lastPullLost in Hlost.
  unfold Pull.getLocalSchemaInfo, readJson, perform. simpl.
  rewrite Hfile. simpl.
  destruct (files w !! lastPullFileName) as [[txt m]|] eqn:Hlp; simpl.
  - rewrite Hlp. simpl. simpl in Hlost.
    destruct txt as [[| | | | |]|raw]; try done; simpl;
      (eexists; split; [by rewrite <- !app_assoc | by repeat constructor]).
  - eexists; split; [by rewrite <- !app_assoc | by repeat constructor].
Qed.

Lemma requireLogin_run (o : oracle) (w : world) (tr : list event)
    (c u s : string) :
  o_credentials o "hosby-cli-token" = Ok (Some c) →
  o_credentials o "hosby-user-id" = Ok (Some u) →
  o_credentials o "hosby-session-token" = Ok (Some s) →
  c ≠ "" → u ≠ "" → s ≠ "" →
  ∃ evs,
    run requireLogin o w tr = (Returned (Credentials u c s), w, tr ++ evs) ∧
    Forall (λ ev, ofKind quiet ev = false) evs.
Proof.
  intros Hc Hu Hs Hcn Hun Hsn. unfold requireLogin, perform. simpl.
  rewrite Hc. simpl. rewrite Hu. simpl. rewrite Hs. simpl.
  destruct c as [|c0 c]; [done|]. destruct u as [|u0 u]; [done|].
  destruct s as [|s0 s]; [done|]. simpl.
  eexists; split; [by rewrite <- !app_assoc | by repeat constructor].
Qed.

Lemma getProjectInfos_run (o : oracle) (w : world) (tr : list event)
    (schemaData : json) (mtime : Z) :
  files w !! schemaFileName = Some (File (JsonText schemaData) mtime) →
  ∃ p evs,
    run getProjectInfos o w tr = (Returned p, w, tr ++ evs) ∧
    Forall (λ ev, ofKind quiet ev = false) evs.
Proof.
  intros Hfile. unfold getProjectInfos, readJson, perform. simpl.
  rewrite Hfile. simpl.
  eexists _, _; split; [reflexivity | by repeat constructor].
Qed.

Lemma handlePullError_avoids (c : kind) (err : jserror) :
  (∀ line, c _ (Say line) = false) → avoids c (Pull.handlePullError err).
Proof.
  intros Hsay. unfold Pull.handlePullError, say, perform. simpl.
  constructor; [done|intros []].
  repeat case_match; (constructor; [done|intros []; constructor]).
Qed.

Lemma checkSchemaExists_run (o : oracle) (w : world) (tr : list event) (f : file) :
  files w !! schemaFileName = Some f →
  run checkSchemaExists o w tr = (Returned true, w, tr ++ [Event (FsExists schemaFileName) true]).
Proof.
  intros Hfile. unfold checkSchemaExists, perform. simpl. rewrite Hfile. done.
Qed.

Arguments Pull.getLocalSchemaInfo : simpl never.
Arguments Pull.processServerResponse : simpl never.
Arguments Pull.handlePullError : simpl never.
Arguments requireLogin : simpl never.
Arguments getProjectInfos : simpl never.
Arguments checkSchemaExists : simpl never.

(** C10: the schema file exists and was modified after the epoch, the
    last-pull file is missing, is not valid JSON or holds [null], the user
    is logged in and the backend answers with a schema that differs from the
    local one (or flags an update).  Then the pull sends the epoch as the
    last-pull time and, before any file is written, asks the user how to
    resolve the conflict. *)
Theorem first_pull_asks (o : oracle) (w w' : world) (tr : list event)
    (schemaData serverSchema : json) (mtime : Z) (r : response) (c u s : string)
    (out : outcome unit) :
  files w !! schemaFileName = Some (File (JsonText schemaData) mtime) →
  0 < mtime →
  lastPullLost w = true →
  o_credentials o "hosby-cli-token" = Ok (Some c) →
  o_credentials o "hosby-user-id" = Ok (Some u) →
  o_credentials o "hosby-session-token" = Ok (Some s) →
  c ≠ "" → u ≠ "" → s ≠ "" →
  (∀ tr req, o_http o tr req = Ok r) →
  Pull.serverSchemaOf r = Ok (Some serverSchema) →
  truthy serverSchema = true →
  Pull.isUpdatedOf r
  || negb (String.eqb (getSchemaHash serverSchema) (getSchemaHash schemaData)) = true →
  run Pull.pull o w [] = (out, w', tr) →
  ∃ pre projectId a evs,
    tr = pre
         ++ Event (Http (PullRequest projectId (getSchemaHash schemaData) (o_iso o 0))) (Ok r)
         :: Event (FsStat schemaFileName) (Ok mtime)
         :: Event (Ask SERVER [LOCAL; MERGE; DIFF]) a :: evs ∧
    Forall (λ ev, ofKind quiet ev = false) pre.
Proof.
  intros Hfile Hm Hlost Hc Hu Hs Hcn Hun Hsn Hhttp Hschema Htruthy Hchg Hrun.
  unfold Pull.pull in Hrun.
  rewrite run_bind, (checkSchemaExists_run _ _ _ _ Hfile) in Hrun. cbn [negb] in Hrun.
  rewrite run_bind in Hrun.
  destruct (getLocalSchemaInfo_epoch o w ([] ++ [Event (FsExists schemaFileName) true])
              _ _ Hfile Hlost) as (evs1 & He1 & Hq1).
  rewrite He1 in Hrun. clear He1.
  rewrite run_bind in Hrun.
  destruct (requireLogin_run o w (([] ++ [Event (FsExists schemaFileName) true]) ++ evs1)
              c u s Hc Hu Hs Hcn Hun Hsn) as (evs2 & He2 & Hq2).
  rewrite He2 in Hrun. clear He2.
  rewrite run_bind in Hrun.
  destruct (getProjectInfos_run o w
              ((([] ++ [Event (FsExists schemaFileName) true]) ++ evs1) ++ evs2)
              _ _ Hfile) as (p & evs3 & He3 & Hq3).
  rewrite He3 in Hrun. clear He3.
  simpl in Hrun. rewrite Hhttp in Hrun. simpl in Hrun.
  rewrite run_catch in Hrun.
  match type of Hrun with
  | match run ?m o w ?t0 with _ => _ end = _ =>
      destruct (run m o w t0) as [[out1 w1] tr1] eqn:Hproc
  end.
  destruct (processServerResponse_conflict _ _ _ _ _ _ _ _ _ _ _ _ _
              Hschema Htruthy Hchg Hfile eq_refl Hm Hproc) as (a & evs & -> & _).
  assert (Hfinal : ∃ more,
            tr = (Event (FsExists schemaFileName) true
                  :: evs1 ++ evs2 ++ evs3
                     ++ [Event (Say "Pulling latest schema from server...") ();
                         Event (ToISOString 0) (o_iso o 0)])
                 ++ Event (Http (PullRequest (project_id p) (getSchemaHash schemaData)
                                   (o_iso o 0))) (Ok r)
                 :: Event (FsStat schemaFileName) (Ok mtime)
                 :: Event (Ask SERVER [LOCAL; MERGE; DIFF]) a :: more).
  { destruct out1 as [[]|e|code].
    - injection Hrun as _ _ <-. exists evs.
      simpl. repeat (rewrite <- app_assoc; simpl). reflexivity.
    - apply run_extends in Hrun as [more ->]. exists (evs ++ more).
      simpl. repeat (rewrite <- app_assoc; simpl). reflexivity.
    - injection Hrun as _ _ <-. exists evs.
      simpl. repeat (rewrite <- app_assoc; simpl). reflexivity. }
  destruct Hfinal as [more ->].
  eexists _, _, a, more. split; [reflexivity|].
  constructor; [done|]. rewrite !Forall_app. repeat split; try done; by repeat constructor.
Qed.

Lemma first_pull_asks_witness :
  ∃ pre projectId a evs,
    (run Pull.pull (ex_oracle 1 (Ok ex_reply) ex_creds (Ok (RawText ""))) ex_world []).2
    = pre
      ++ Event (Http (PullRequest projectId (getSchemaHash ex_local)
                        (o_iso (ex_oracle 1 (Ok ex_reply) ex_creds (Ok (RawText ""))) 0)))
               (Ok ex_reply)
      :: Event (FsStat schemaFileName) (Ok 2000)
      :: Event (Ask SERVER [LOCAL; MERGE; DIFF]) a :: evs ∧
    Forall (λ ev, ofKind quiet ev = false) pre.
Proof.
  destruct (run Pull.pull (ex_oracle 1 (Ok ex_reply) ex_creds (Ok (RawText ""))) ex_world [])
    as [[out w'] tr] eqn:Hrun.
  exact (first_pull_asks (ex_oracle 1 (Ok ex_reply) ex_creds (Ok (RawText "")))
           ex_world w' tr ex_local ex_server 2000 ex_reply "secret" "secret" "secret" out
           eq_refl ltac:(lia) eq_refl eq_refl eq_refl eq_refl
           ltac:(discriminate) ltac:(discriminate) ltac:(discriminate)
           (λ _ _, eq_refl) eq_refl eq_refl eq_refl Hrun).
Defined.

(** C10, counterexample: a last-pull record that can be parsed but gives
    no date.  [.hosby-last-pull] holds a [time] that is not a date, the
    schema file was modified after the epoch, the user is logged in and the
    backend has a schema that differs from the local one.  The pull ends
    without a request and without a prompt, and writes nothing: the epoch
    is not what such a record leaves as last-pull time. *)
Lemma pull_undated_record_no_prompt :
  ∃ tr,
    run Pull.pull (ex_oracle 1 (Ok ex_reply) ex_creds (Ok (RawText ""))) ex_world_undated []
    = (Returned tt, ex_world_undated, tr) ∧
    files ex_world_undated !! lastPullFileName
    = Some (File (JsonText (JObj [("time", JStr "yesterday"); ("hash", JStr "abc")])) 3000) ∧
    negb (String.eqb (getSchemaHash ex_server) (getSchemaHash ex_local)) = true ∧
    Forall (λ ev, ofKind asks ev = false) tr ∧
    Forall (λ ev, ofKind requests ev = false) tr ∧
    Forall (λ ev, ofKind writes ev = false) tr.
Proof.
  eexists. split; [vm_compute; reflexivity|].
  split; [reflexivity|]. split; [reflexivity|].
  repeat split; by repeat constructor.
Qed.

(** ** Pushing *)

Lemma avoids_weaken {A} (c c' : kind) (m : prog A) :
  (∀ X (eff : effect X), c X eff = false → c' X eff = false) →
  avoids c m → avoids c' m.
Proof.
  intros Hcc. induction 1 as [a|e|X eff k Hc Hk IH]; constructor; auto.
Qed.

Lemma either_false_l (c1 c2 : kind) X (eff : effect X) :
  either c1 c2 X eff = false → c1 X eff = false.
Proof. unfold either. by intros [? ?]%orb_false_iff. Qed.

Lemma either_false_r (c1 c2 : kind) X (eff : effect X) :
  either c1 c2 X eff = false → c2 X eff = false.
Proof. unfold either. by intros [? ?]%orb_false_iff. Qed.

(** A program that neither writes nor performs effects of kind [c] keeps
    the world and adds events that are neither. *)
Lemma run_silent {A} (c : kind) (m : prog A) (o : oracle) (w w' : world)
    (tr tr' : list event) (out : outcome A) :
  avoids (either writes c) m → run m o w tr = (out, w', tr') →
  w' = w ∧ ∃ evs, tr' = tr ++ evs ∧ Forall (λ ev, ofKind (either writes c) ev = false) evs.
Proof.
  intros Hav Hrun. split.
  - eapply run_keeps_world; [|exact Hrun].
    eapply avoids_weaken; [|exact Hav]. apply either_false_l.
  - eapply run_avoids; [exact Hav | exact Hrun].
Qed.

Lemma count_app (p : event → bool) (tr1 tr2 : list event) :
  count p (tr1 ++ tr2) = (count p tr1 + count p tr2)%nat.
Proof. unfold count. by rewrite List.filter_app, length_app. Qed.

Lemma count_none (p : event → bool) (evs : list event) :
  Forall (λ ev, p ev = false) evs → count p evs = 0%nat.
Proof.
  unfold count. induction 1 as [|ev evs Hev _ IH]; simpl; [done|]. by rewrite Hev.
Qed.

Lemma isHttpDone_requests (ev : event) : ofKind requests ev = false → isHttpDone ev = false.
Proof. destruct ev as [X eff x]. by destruct eff. Qed.

Lemma silent_no_requests (evs : list event) :
  Forall (λ ev, ofKind (either writes requests) ev = false) evs →
  Forall (λ ev, ofKind requests ev = false) evs ∧
  Forall (λ ev, isHttpDone ev = false) evs ∧
  Forall (λ ev, ofKind writes ev = false) evs.
Proof.
  intros H. repeat split; eapply Forall_impl; try exact H; intros [X eff x] Hev.
  - simpl in *. by apply either_false_r in Hev.
  - apply isHttpDone_requests. simpl in *. by apply either_false_r in Hev.
  - simpl in *. by apply either_false_l in Hev.
Qed.

Arguments Push.getLocalSchemaInfo : simpl never.
Arguments Push.hasSchemaChanged : simpl never.
Arguments Push.authenticate : simpl never.
Arguments Push.pushSchemaToServer : simpl never.
Arguments Push.updateLastPushFile : simpl never.
Arguments Push.handlePushError : simpl never.

Lemma checkSchemaExists_silent : avoids silent checkSchemaExists.
Proof. unfold checkSchemaExists. solve_avoids. Qed.

Lemma Push_getLocalSchemaInfo_silent (file : string) :
  avoids silent (Push.getLocalSchemaInfo file).
Proof. unfold Push.getLocalSchemaInfo. solve_avoids. Qed.

Lemma hasSchemaChanged_silent (file hash : string) (force : bool) :
  avoids silent (Push.hasSchemaChanged file hash force).
Proof. unfold Push.hasSchemaChanged. solve_avoids. Qed.

Lemma requireLogin_silent : avoids silent requireLogin.
Proof. unfold requireLogin. solve_avoids. Qed.

Lemma authenticate_silent : avoids silent Push.authenticate.
Proof. unfold Push.authenticate. apply avoids_catch; [apply requireLogin_silent|]. intros. constructor. Qed.

Lemma getProjectInfos_silent : avoids silent getProjectInfos.
Proof. unfold getProjectInfos. solve_avoids. Qed.

Lemma handlePushError_silent (err : jserror) : avoids silent (Push.handlePushError err).
Proof. unfold Push.handlePushError. solve_avoids. Qed.

(** What a successful reading of the schema file tells. *)
Lemma Push_getLocalSchemaInfo_returned (o : oracle) (w w' : world) (tr tr' : list event)
    (sd : json) (h : string) :
  run (Push.getLocalSchemaInfo schemaFileName) o w tr = (Returned (sd, h), w', tr') →
  ∃ m, files w !! schemaFileName = Some (File (JsonText sd) m) ∧
       h = getSchemaHash sd ∧ sd ≠ JNull.
Proof.
  unfold Push.getLocalSchemaInfo, readJson, perform. simpl.
  destruct (files w !! schemaFileName) as [[txt m]|]; simpl; [|done].
  destruct txt as [v|raw]; simpl; [|done].
  destruct v; simpl; try done; intros [= <- <- _ _]; by eexists.
Qed.

Lemma uneventful_silent (w : world) (tr0 evs : list event) :
  Forall (λ ev, ofKind silent ev = false) evs → uneventful w w tr0 (tr0 ++ evs).
Proof.
  intros (Hr & Hd & Hw)%silent_no_requests. split; [done|].
  exists evs. repeat split; try done. rewrite (count_none _ _ Hr). lia.
Qed.

Lemma uneventful_prefix (w w' : world) (tr0 pre tr : list event) :
  Forall (λ ev, ofKind silent ev = false) pre →
  uneventful w w' (tr0 ++ pre) tr → uneventful w w' tr0 tr.
Proof.
  intros (Hr & Hd & Hw)%silent_no_requests (-> & evs & -> & Hw' & Hd' & Hc).
  split; [done|]. exists (pre ++ evs). rewrite app_assoc.
  repeat split; try done; try (by apply Forall_app).
  rewrite count_app, (count_none _ _ Hr). lia.
Qed.

Lemma uneventful_suffix (w w' : world) (tr0 tr post : list event) :
  Forall (λ ev, ofKind silent ev = false) post →
  uneventful w w' tr0 tr → uneventful w w' tr0 (tr ++ post).
Proof.
  intros (Hr & Hd & Hw)%silent_no_requests (-> & evs & -> & Hw' & Hd' & Hc).
  split; [done|]. exists (evs ++ post). rewrite app_assoc.
  repeat split; try done; try (by apply Forall_app).
  rewrite count_app, (count_none _ _ Hr). lia.
Qed.

Lemma pushed_prefix (w w' : world) (tr0 pre tr : list event) :
  Forall (λ ev, ofKind silent ev = false) pre →
  pushed w w' (tr0 ++ pre) tr → pushed w w' tr0 tr.
Proof.
  intros Hpre (sd & m & pre' & req & resp & now & time & mtime & pid &
               Hf & Hsd & Hs & -> & Hw).
  exists sd, m, (pre ++ pre'), req, resp, now, time, mtime, pid.
  repeat split; try done; [by apply Forall_app | by rewrite <- !app_assoc].
Qed.

Lemma pushSchemaToServer_run (o : oracle) (w : world) (t : list event)
    (creds : AuthCredentials) (p : ProjectCredentials) (sd : json) (h : string) :
  sd ≠ JNull →
  ∃ pre req ans tr',
    Forall (λ ev, ofKind silent ev = false) pre ∧
    tr' = t ++ pre ++ [Event (Http req) ans] ∧
    run (Push.pushSchemaToServer creds p sd h) o w t
    = (match ans with Ok r => Returned r | Throw e => Threw e end, w, tr').
Proof.
  intros Hsd. unfold Push.pushSchemaToServer, perform.
  destruct sd; try done; simpl.
  all: match goal with
       | |- context [run (lift ?a) _ _ _] => generalize a
       end; intros ans.
  all: eexists [_; _; _], _, ans, _; (split; [|split]);
       [ | | destruct ans; simpl; reflexivity ];
       [ | rewrite <- !app_assoc; simpl; reflexivity ];
       by repeat constructor.
Qed.

Lemma updateLastPushFile_run (o : oracle) (w : world) (t : list event)
    (file hash : string) (projectId : option json) :
  ∃ now time mtime,
    run (Push.updateLastPushFile file hash projectId) o w t
    = (Returned tt,
       World (<[file := File (JsonText (lastPushRecord time hash projectId)) mtime]> (files w)),
       t ++ [Event Now now; Event (ToISOString now) time;
             Event (FsWrite file (JsonText (lastPushRecord time hash projectId))) tt]).
Proof.
  unfold Push.updateLastPushFile, perform. simpl.
  eexists _, _, _. rewrite <- !app_assoc. simpl. reflexivity.
Qed.

(** From the request on: either it fails and nothing else happens, or it
    is answered and the record is written. *)
Lemma push_send_shape (o : oracle) (w w' : world) (t tr : list event)
    (creds : AuthCredentials) (p : ProjectCredentials) (sd : json) (m : Z)
    (out : outcome unit) :
  files w !! schemaFileName = Some (File (JsonText sd) m) → sd ≠ JNull →
  run (bind (Push.pushSchemaToServer creds p sd (getSchemaHash sd))
         (λ _, bind (Push.updateLastPushFile lastPushFileName (getSchemaHash sd) (project_id p))
                 (λ _, say "Push completed successfully!"))) o w t = (out, w', tr) →
  uneventful w w' t tr ∨ (out = Returned tt ∧ pushed w w' t tr).
Proof.
  intros Hf Hsd Hrun. rewrite run_bind in Hrun.
  destruct (pushSchemaToServer_run o w t creds p sd (getSchemaHash sd) Hsd)
    as (pre & req & ans & tr1 & Hpre & -> & Heq).
  rewrite Heq in Hrun. clear Heq.
  destruct ans as [resp|e].
  - right. rewrite run_bind in Hrun.
    destruct (updateLastPushFile_run o w (t ++ pre ++ [Event (Http req) (Ok resp)])
                lastPushFileName (getSchemaHash sd) (project_id p))
      as (now & time & mtime & Heq).
    rewrite Heq in Hrun. clear Heq. simpl in Hrun.
    injection Hrun as <- <- <-. split; [done|].
    exists sd, m, pre, req, resp, now, time, mtime, (project_id p).
    repeat split; try done. by rewrite <- !app_assoc.
  - left. injection Hrun as <- <- <-. split; [done|].
    apply silent_no_requests in Hpre as (Hr & Hd & Hw).
    exists (pre ++ [Event (Http req) (Throw e)]).
    repeat split; try done.
    + apply Forall_app. split; [done | by repeat constructor].
    + apply Forall_app. split; [done | by repeat constructor].
    + rewrite count_app, (count_none _ _ Hr). unfold count. simpl. lia.
Qed.

Ltac silent_bind Hrun Hav evs Hs out1 :=
  rewrite run_bind in Hrun;
  match type of Hrun with
  | match run ?m ?o ?w ?t with _ => _ end = _ =>
      let H := fresh "Hstep" in
      let w1 := fresh "w1" in
      let t1 := fresh "t1" in
      let Hw := fresh "Hw" in
      let Ht := fresh "Ht" in
      destruct (run m o w t) as [[out1 w1] t1] eqn:H;
      destruct (run_silent requests _ _ _ _ _ _ _ Hav H) as (Hw & evs & Ht & Hs);
      subst w1 t1
  end.

(** The [try] block either transmits nothing successfully or completes
    after a transmission followed by the writing of the record. *)
Lemma pushAttempt_shape (force : bool) (o : oracle) (w w' : world) (t tr : list event)
    (out : outcome unit) :
  run (Push.pushAttempt force) o w t = (out, w', tr) →
  uneventful w w' t tr ∨ (out = Returned tt ∧ pushed w w' t tr).
Proof.
  intros Hrun. unfold Push.pushAttempt in Hrun.
  silent_bind Hrun (Push_getLocalSchemaInfo_silent schemaFileName) evs1 Hs1 out1.
  destruct out1 as [[sd h]|e|code]; cbv iota beta in Hrun;
    [|left; injection Hrun as <- <- <-; by apply uneventful_silent..].
  destruct (Push_getLocalSchemaInfo_returned _ _ _ _ _ _ _ Hstep) as (m & Hf & -> & Hsd).
  silent_bind Hrun (hasSchemaChanged_silent lastPushFileName (getSchemaHash sd) force) evs2 Hs2 out2.
  destruct out2 as [changed|e|code]; cbv iota beta in Hrun;
    [|left; injection Hrun as <- <- <-;
      apply (uneventful_prefix _ _ _ evs1); [done | by apply uneventful_silent]..].
  destruct changed; cbn [negb] in Hrun.
  2: { simpl in Hrun. left. injection Hrun as <- <- <-.
       apply (uneventful_prefix _ _ _ evs1); [done|].
       apply (uneventful_prefix _ _ _ evs2); [done|].
       apply uneventful_silent. by repeat constructor. }
  silent_bind Hrun authenticate_silent evs3 Hs3 out3.
  destruct out3 as [creds|e|code]; cbv iota beta in Hrun;
    [|left; injection Hrun as <- <- <-;
      apply (uneventful_prefix _ _ _ evs1); [done|];
      apply (uneventful_prefix _ _ _ evs2); [done | by apply uneventful_silent]..].
  silent_bind Hrun getProjectInfos_silent evs4 Hs4 out4.
  destruct out4 as [p|e|code]; cbv iota beta in Hrun;
    [|left; injection Hrun as <- <- <-;
      apply (uneventful_prefix _ _ _ evs1); [done|];
      apply (uneventful_prefix _ _ _ evs2); [done|];
      apply (uneventful_prefix _ _ _ evs3); [done | by apply uneventful_silent]..].
  rewrite run_bind, run_say in Hrun. cbv iota beta in Hrun.
  destruct (push_send_shape _ _ _ _ _ _ _ _ _ _ Hf Hsd Hrun) as [Hu|[-> Hp]].
  - left.
    apply (uneventful_prefix _ _ _ evs1); [done|].
    apply (uneventful_prefix _ _ _ evs2); [done|].
    apply (uneventful_prefix _ _ _ evs3); [done|].
    apply (uneventful_prefix _ _ _ evs4); [done|].
    apply (uneventful_prefix _ _ _ [Event (Say "Pushing schema to server...") ()]);
      [by repeat constructor | done].
  - right. split; [done|].
    apply (pushed_prefix _ _ _ evs1); [done|].
    apply (pushed_prefix _ _ _ evs2); [done|].
    apply (pushed_prefix _ _ _ evs3); [done|].
    apply (pushed_prefix _ _ _ evs4); [done|].
    apply (pushed_prefix _ _ _ [Event (Say "Pushing schema to server...") ()]);
      [by repeat constructor | done].
Qed.

Arguments Push.pushAttempt : simpl never.

(** Every run of [push] is of one of the two shapes. *)
Lemma push_shape (force : bool) (o : oracle) (w w' : world) (t tr : list event)
    (out : outcome unit) :
  run (Push.push force) o w t = (out, w', tr) →
  uneventful w w' t tr ∨ pushed w w' t tr.
Proof.
  intros Hrun. unfold Push.push in Hrun.
  silent_bind Hrun checkSchemaExists_silent evs1 Hs1 out1.
  destruct out1 as [[|]|e|code]; cbn [negb] in Hrun; cbv iota beta in Hrun;
    [|left; injection Hrun as <- <- <-; by apply uneventful_silent..].
  rewrite run_catch in Hrun.
  destruct (run (Push.pushAttempt force) o w (t ++ evs1)) as [[ob wb] tb] eqn:Hb.
  destruct (pushAttempt_shape _ _ _ _ _ _ _ Hb) as [Hu|[-> Hp]].
  - left. apply (uneventful_prefix _ _ _ evs1); [done|].
    destruct ob as [[]|e|code]; try (injection Hrun as <- <- <-; exact Hu).
    assert (Hh : avoids silent
                   (_ <- say "Error during push operation"; Push.handlePushError e)).
    { apply avoids_bind; [unfold say, perform; solve_avoids|].
      intros _. apply handlePushError_silent. }
    destruct (run_silent requests _ _ _ _ _ _ _ Hh Hrun) as (-> & evs & -> & Hs).
    by apply uneventful_suffix.
  - right. injection Hrun as <- <- <-. by apply (pushed_prefix _ _ _ evs1).
Qed.

Lemma recordedAfterSuccess_no_writes (seen : bool) (evs : list event) :
  Forall (λ ev, ofKind writes ev = false) evs → recordedAfterSuccess seen evs = true.
Proof.
  intros H. revert seen. induction H as [|[X eff x] evs Hev _ IH]; intros seen; simpl; [done|].
  destruct eff; simpl in *; try done; apply IH.
Qed.

Lemma recordedAfterSuccess_silent (seen : bool) (pre rest : list event) :
  Forall (λ ev, ofKind silent ev = false) pre →
  recordedAfterSuccess seen (pre ++ rest) = recordedAfterSuccess seen rest.
Proof.
  intros H. revert seen. induction H as [|[X eff x] evs Hev _ IH]; intros seen; simpl; [done|].
  destruct eff; simpl in *; try done; rewrite IH; by rewrite ?orb_false_r.
Qed.

(** What [getProjectInfos] returns does not depend on the trace so far. *)
Lemma getProjectInfos_any_trace (o : oracle) (w w' : world) (t t' : list event)
    (out : outcome ProjectCredentials) :
  run getProjectInfos o w t = (out, w', t') →
  ∃ tp, run getProjectInfos o w [] = (out, w', tp).
Proof.
  unfold getProjectInfos, readJson, perform. simpl.
  destruct (files w !! schemaFileName) as [[[v|raw] m]|]; simpl;
    intros [= <- <- _]; by eexists.
Qed.

(** From the request on, with the record spelled out. *)
Lemma push_send_record (o : oracle) (w w' : world) (t tr : list event)
    (creds : AuthCredentials) (p : ProjectCredentials) (sd : json)
    (out : outcome unit) :
  sd ≠ JNull →
  run (bind (Push.pushSchemaToServer creds p sd (getSchemaHash sd))
         (λ _, bind (Push.updateLastPushFile lastPushFileName (getSchemaHash sd) (project_id p))
                 (λ _, say "Push completed successfully!"))) o w t = (out, w', tr) →
  (∃ evs, tr = t ++ evs ∧ Forall (λ ev, isHttpDone ev = false) evs) ∨
  (out = Returned tt ∧
   ∃ now time mtime pre,
     tr = pre ++ [Event Now now;
                  Event (ToISOString now) time;
                  Event (FsWrite lastPushFileName
                           (JsonText (lastPushRecord time (getSchemaHash sd) (project_id p)))) tt;
                  Event (Say "Push completed successfully!") tt] ∧
     files w' = <[lastPushFileName :=
                    File (JsonText (lastPushRecord time (getSchemaHash sd) (project_id p))) mtime]>
                  (files w)).
Proof.
  intros Hsd Hrun. rewrite run_bind in Hrun.
  destruct (pushSchemaToServer_run o w t creds p sd (getSchemaHash sd) Hsd)
    as (pre & req & ans & tr1 & Hpre & -> & Heq).
  rewrite Heq in Hrun. clear Heq.
  destruct ans as [resp|e].
  - right. rewrite run_bind in Hrun.
    destruct (updateLastPushFile_run o w (t ++ pre ++ [Event (Http req) (Ok resp)])
                lastPushFileName (getSchemaHash sd) (project_id p))
      as (now & time & mtime & Heq).
    rewrite Heq in Hrun. clear Heq. simpl in Hrun.
    injection Hrun as <- <- <-. split; [done|].
    exists now, time, mtime, (t ++ pre ++ [Event (Http req) (Ok resp)]).
    split; [by rewrite <- !app_assoc | done].
  - left. injection Hrun as <- <- <-. eexists. split; [reflexivity|].
    apply silent_no_requests in Hpre as (Hr & Hd & Hw).
    apply Forall_app. split; [done | by repeat constructor].
Qed.

(** A run of the [try] block in which a request was answered ends with the
    record written. *)
Lemma pushAttempt_record (force : bool) (o : oracle) (w w' : world) (t tr : list event)
    (out : outcome unit) :
  run (Push.pushAttempt force) o w t = (out, w', tr) →
  (∃ evs, tr = t ++ evs ∧ Forall (λ ev, isHttpDone ev = false) evs) ∨
  (out = Returned tt ∧ recordWritten o w w' tr).
Proof.
  intros Hrun. unfold Push.pushAttempt in Hrun.
  assert (Hquiet : ∀ evs, Forall (λ ev, ofKind silent ev = false) evs →
                          Forall (λ ev, isHttpDone ev = false) evs).
  { intros evs Hs. by apply silent_no_requests in Hs as (_ & Hd & _). }
  silent_bind Hrun (Push_getLocalSchemaInfo_silent schemaFileName) evs1 Hs1 out1.
  destruct out1 as [[sd h]|e|code]; cbv iota beta in Hrun;
    [|left; injection Hrun as <- <- <-; eexists; split; [reflexivity | by apply Hquiet]..].
  destruct (Push_getLocalSchemaInfo_returned _ _ _ _ _ _ _ Hstep) as (m & Hf & -> & Hsd).
  silent_bind Hrun (hasSchemaChanged_silent lastPushFileName (getSchemaHash sd) force) evs2 Hs2 out2.
  destruct out2 as [changed|e|code]; cbv iota beta in Hrun;
    [|left; injection Hrun as <- <- <-; eexists; split;
      [by rewrite <- !app_assoc | apply Hquiet; by apply Forall_app]..].
  destruct changed; cbn [negb] in Hrun.
  2: { simpl in Hrun. left. injection Hrun as <- <- <-. eexists. split;
         [by rewrite <- !app_assoc|].
       apply Hquiet. rewrite !Forall_app. repeat split; try done. by repeat constructor. }
  silent_bind Hrun authenticate_silent evs3 Hs3 out3.
  destruct out3 as [creds|e|code]; cbv iota beta in Hrun;
    [|left; injection Hrun as <- <- <-; eexists; split;
      [by rewrite <- !app_assoc | apply Hquiet; rewrite !Forall_app; by repeat split]..].
  silent_bind Hrun getProjectInfos_silent evs4 Hs4 out4.
  destruct out4 as [p|e|code]; cbv iota beta in Hrun;
    [|left; injection Hrun as <- <- <-; eexists; split;
      [by rewrite <- !app_assoc | apply Hquiet; rewrite !Forall_app; by repeat split]..].
  match goal with
  | H : run getProjectInfos o w _ = (Returned p, w, _) |- _ =>
      apply getProjectInfos_any_trace in H as [tp Hp]
  end.
  rewrite run_bind, run_say in Hrun. cbv iota beta in Hrun.
  destruct (push_send_record _ _ _ _ _ _ _ _ _ Hsd Hrun)
    as [(evs & -> & Hnone)|(-> & now & time & mtime & pre & -> & Hw)].
  - left. eexists. split; [by rewrite <- !app_assoc|].
    rewrite !Forall_app. repeat split; try (by apply Hquiet); try done.
    by repeat constructor.
  - right. split; [done|]. by exists sd, m, p, tp, now, time, mtime, pre.
Qed.

(** Every run of [push] in which a request was answered ends with the
    record written. *)
Lemma push_record (force : bool) (o : oracle) (w w' : world) (tr : list event)
    (out : outcome unit) :
  run (Push.push force) o w [] = (out, w', tr) →
  Forall (λ ev, isHttpDone ev = false) tr ∨ recordWritten o w w' tr.
Proof.
  intros Hrun. unfold Push.push in Hrun.
  silent_bind Hrun checkSchemaExists_silent evs1 Hs1 out1.
  assert (Hq1 : Forall (λ ev, isHttpDone ev = false) evs1)
    by (by apply silent_no_requests in Hs1 as (_ & Hd & _)).
  destruct out1 as [[|]|e|code]; cbn [negb] in Hrun; cbv iota beta in Hrun;
    [|left; by injection Hrun as <- <- <-..].
  rewrite run_catch in Hrun.
  destruct (run (Push.pushAttempt force) o w ([] ++ evs1)) as [[ob wb] tb] eqn:Hb.
  destruct (pushAttempt_record _ _ _ _ _ _ _ Hb) as [(evs & -> & Hnone)|[-> Hp]].
  - left.
    destruct ob as [[]|e|code]; try (injection Hrun as <- <- <-; by apply Forall_app).
    assert (Hh : avoids silent
                   (_ <- say "Error during push operation"; Push.handlePushError e)).
    { apply avoids_bind; [unfold say, perform; solve_avoids|].
      intros _. apply handlePushError_silent. }
    destruct (run_silent requests _ _ _ _ _ _ _ Hh Hrun) as (-> & more & -> & Hs).
    apply silent_no_requests in Hs as (_ & Hd & _).
    rewrite !Forall_app. by repeat split.
  - right. injection Hrun as <- <- <-. done.
Qed.

(** C6: in every run of [push] a write of the last-push record comes only
    after a request that the backend answered with a response.  When no
    request was answered with a response, whatever the reason, the
    last-push file is what it was and the run wrote nothing.  When a request
    was answered with a response, the run ends with the record written: the
    current time, the hash of the schema file and the project id, in
    [.hosby-last-push] and in no other file. *)
Theorem push_records_after_success (force : bool) (o : oracle) (w w' : world)
    (tr : list event) (out : outcome unit) :
  run (Push.push force) o w [] = (out, w', tr) →
  recordedAfterSuccess false tr = true ∧
  (Forall (λ ev, isHttpDone ev = false) tr →
   files w' !! lastPushFileName = files w !! lastPushFileName ∧
   Forall (λ ev, ofKind writes ev = false) tr) ∧
  (Exists (λ ev, isHttpDone ev = true) tr → recordWritten o w w' tr).
Proof.
  intros Hrun. split; [|split].
  - apply push_shape in Hrun as [Hu|Hp].
    + destruct Hu as (-> & evs & -> & Hw & Hd & Hc). simpl.
      by apply recordedAfterSuccess_no_writes.
    + destruct Hp as (sd & m & pre & req & resp & now & time & mtime & pid &
                      Hf & Hsd & Hs & -> & Hw).
      simpl. rewrite recordedAfterSuccess_silent by done. reflexivity.
  - apply push_shape in Hrun as [Hu|Hp].
    + by destruct Hu as (-> & evs & -> & Hw & Hd & Hc).
    + destruct Hp as (sd & m & pre & req & resp & now & time & mtime & pid &
                      Hf & Hsd & Hs & -> & Hw).
      simpl. intros Hnone. apply Forall_app in Hnone as [_ Hnone].
      apply Forall_cons in Hnone as [Hnone _]. done.
  - intros Hsome. apply push_record in Hrun as [Hnone|Hrec]; [|done].
    exfalso. apply Exists_exists in Hsome as (ev & Hin & Hev).
    rewrite Forall_forall in Hnone. specialize (Hnone ev Hin). congruence.
Qed.

Lemma push_records_after_success_witness :
  recordedAfterSuccess false
    (run (Push.push false) (ex_oracle 0 (Ok ex_reply) ex_creds (Ok (RawText ""))) ex_world []).2
  = true ∧
  recordWritten (ex_oracle 0 (Ok ex_reply) ex_creds (Ok (RawText ""))) ex_world
    (run (Push.push false) (ex_oracle 0 (Ok ex_reply) ex_creds (Ok (RawText ""))) ex_world []).1.2
    (run (Push.push false) (ex_oracle 0 (Ok ex_reply) ex_creds (Ok (RawText ""))) ex_world []).2.
Proof.
  assert (Hsome : Exists (λ ev, isHttpDone ev = true)
            (run (Push.push false) (ex_oracle 0 (Ok ex_reply) ex_creds (Ok (RawText "")))
               ex_world []).2).
  { vm_compute.
    repeat first [apply Exists_cons_hd; reflexivity | apply Exists_cons_tl]. }
  destruct (run (Push.push false) (ex_oracle 0 (Ok ex_reply) ex_creds (Ok (RawText "")))
              ex_world []) as [[out w'] tr] eqn:Hrun.
  destruct (push_records_after_success false _ ex_world w' tr out Hrun) as (H1 & _ & H3).
  split; [exact H1 | exact (H3 Hsome)].
Defined.

(** The no-op path, from any trace: the schema file parses to a document
    other than [null] and the last-push record holds its hash. *)
Lemma push_noop_run (o : oracle) (w : world) (t : list event)
    (sd rec : json) (m m' : Z) :
  files w !! schemaFileName = Some (File (JsonText sd) m) → sd ≠ JNull →
  files w !! lastPushFileName = Some (File (JsonText rec) m') →
  getMember rec "hash" = Ok (Some (JStr (getSchemaHash sd))) →
  run (Push.push false) o w t
  = (Returned tt, w,
     t ++ [Event (FsExists schemaFileName) true;
           Event (FsRead schemaFileName) (Ok (JsonText sd));
           Event (FsExists lastPushFileName) true;
           Event (FsRead lastPushFileName) (Ok (JsonText rec));
           Event (Say "Schema unchanged since last push. Use --force to push anyway.") tt]).
Proof.
  intros Hf Hsd Hp Hh.
  unfold Push.push, Push.pushAttempt, Push.getLocalSchemaInfo, Push.hasSchemaChanged,
    checkSchemaExists, readJson, perform, say.
  simpl. rewrite Hf. simpl. rewrite Hf. simpl.
  destruct sd; try done; simpl; rewrite Hp; simpl; rewrite Hp; simpl; rewrite Hh; simpl;
    rewrite String.eqb_refl; simpl; by rewrite <- !app_assoc.
Qed.

Lemma count_isHttpDone_pushed (pre : list event) (req : request) (resp : response)
    (now : Z) (time : string) (content : text) (line : string) :
  Forall (λ ev, ofKind silent ev = false) pre →
  count isHttpDone (pre ++ [Event (Http req) (Ok resp); Event Now now;
                            Event (ToISOString now) time;
                            Event (FsWrite lastPushFileName content) tt;
                            Event (Say line) tt]) = 1%nat.
Proof.
  intros (Hr & Hd & Hw)%silent_no_requests.
  by rewrite count_app, (count_none _ _ Hd).
Qed.

(** C5: without [force], when the last-push record holds the hash of the
    current schema, [push] reports the schema unchanged, makes no request
    and changes nothing.  Consequently, of two consecutive pushes of the
    same schema without [force] at most one has its request answered with a
    response, and once the first has, the second makes no request. *)
Theorem push_unchanged_is_noop (o : oracle) (w : world) :
  (∀ sd rec m m',
     files w !! schemaFileName = Some (File (JsonText sd) m) → sd ≠ JNull →
     files w !! lastPushFileName = Some (File (JsonText rec) m') →
     getMember rec "hash" = Ok (Some (JStr (getSchemaHash sd))) →
     ∃ tr, run (Push.push false) o w [] = (Returned tt, w, tr) ∧
           Forall (λ ev, ofKind requests ev = false) tr ∧
           last tr = Some (Event (Say "Schema unchanged since last push. Use --force to push anyway.") tt))
  ∧ (∀ out1 w1 tr1 out2 w2 tr2,
       run (Push.push false) o w [] = (out1, w1, tr1) →
       run (Push.push false) o w1 tr1 = (out2, w2, tr2) →
       (count isHttpDone tr2 ≤ 1)%nat ∧
       (count isHttpDone tr1 = 1%nat →
        ∃ evs, tr2 = tr1 ++ evs ∧ Forall (λ ev, ofKind requests ev = false) evs)).
Proof.
  split.
  - intros sd rec m m' Hf Hsd Hp Hh.
    eexists. split; [by apply (push_noop_run o w [] sd rec m m')|].
    split; [by repeat constructor | reflexivity].
  - intros out1 w1 tr1 out2 w2 tr2 Hrun1 Hrun2.
    destruct (push_shape _ _ _ _ _ _ _ Hrun1) as [Hu|Hp].
    + destruct Hu as (-> & evs & -> & Hw & Hd & Hc).
      assert (H1 : count isHttpDone ([] ++ evs) = 0%nat) by by apply count_none.
      split; [|intros Hone; lia].
      destruct (push_shape _ _ _ _ _ _ _ Hrun2) as [Hu2|Hp2].
      * destruct Hu2 as (-> & evs2 & -> & Hw2 & Hd2 & Hc2).
        rewrite count_app, H1, (count_none _ _ Hd2). lia.
      * destruct Hp2 as (sd & m & pre & req & resp & now & time & mtime & pid &
                         Hf & Hsd & Hs & -> & Hw2).
        rewrite count_app, H1, count_isHttpDone_pushed by done. lia.
    + destruct Hp as (sd & m & pre & req & resp & now & time & mtime & pid &
                      Hf & Hsd & Hs & -> & Hw1).
      assert (Hf1 : files w1 !! schemaFileName = Some (File (JsonText sd) m)).
      { rewrite Hw1. rewrite lookup_insert_ne by done. exact Hf. }
      assert (Hp1 : files w1 !! lastPushFileName
                    = Some (File (JsonText (lastPushRecord time (getSchemaHash sd) pid)) mtime)).
      { rewrite Hw1. by rewrite lookup_insert_eq. }
      rewrite (push_noop_run o w1 _ sd _ m mtime Hf1 Hsd Hp1 eq_refl) in Hrun2.
      injection Hrun2 as <- <- <-.
      assert (H1 : count isHttpDone
                     (pre ++ [Event (Http req) (Ok resp); Event Now now;
                                    Event (ToISOString now) time;
                                    Event (FsWrite lastPushFileName
                                             (JsonText (lastPushRecord time (getSchemaHash sd) pid))) ();
                                    Event (Say "Push completed successfully!") ()]) = 1%nat)
        by by apply count_isHttpDone_pushed.
      split.
      * rewrite count_app, H1. unfold count. simpl. lia.
      * intros _. eexists. split; [reflexivity | by repeat constructor].
Qed.

Lemma push_unchanged_is_noop_witness :
  ∃ tr, run (Push.push false) (ex_oracle 0 (Ok ex_reply) ex_creds (Ok (RawText "")))
          ex_world_pushed [] = (Returned tt, ex_world_pushed, tr) ∧
        Forall (λ ev, ofKind requests ev = false) tr ∧
        last tr = Some (Event (Say "Schema unchanged since last push. Use --force to push anyway.") tt).
Proof.
  exact (proj1 (push_unchanged_is_noop (ex_oracle 0 (Ok ex_reply) ex_creds (Ok (RawText "")))
                  ex_world_pushed)
           ex_local (lastPushRecord "t0" (getSchemaHash ex_local) (Some (JStr "p1"))) 2000 3000
           eq_refl ltac:(discriminate) eq_refl eq_refl).
Defined.

(** C5, counterexample: the backend rejects the first push, the record is
    not written, and the second push of the same schema sends its request
    again: two requests in all. *)
Lemma push_twice_two_requests :
  count (ofKind requests)
    (pushTwice (ex_oracle 0 (Throw ex_server_error) ex_creds (Ok (RawText ""))) ex_world).1
  = 1%nat ∧
  count (ofKind requests)
    (pushTwice (ex_oracle 0 (Throw ex_server_error) ex_creds (Ok (RawText ""))) ex_world).2
  = 2%nat.
Proof. split; vm_compute; reflexivity. Qed.

(** ** Inference through the AI provider *)

Lemma run_no_write {A} (m : prog A) (o : oracle) (w w' : world)
    (tr tr' : list event) (out : outcome A) :
  avoids writes m → run m o w tr = (out, w', tr') →
  w' = w ∧ ∃ evs, tr' = tr ++ evs ∧ Forall (λ ev, ofKind writes ev = false) evs.
Proof.
  intros Hav Hrun. split.
  - by eapply run_keeps_world.
  - by eapply run_avoids.
Qed.

(** When the provider's text is not JSON the inference throws the parse
    failure, reported as a failed analysis, after three events none of
    which is a write. *)
Lemma analyzeWithAI_invalid_json (o : oracle) (w : world) (t : list event)
    (timeout : Z) (name sys usr raw : string) :
  (∀ tr, o_complete o tr sys usr = Ok (RawText raw)) →
  run (Scan.analyzeWithAI timeout name sys usr) o w t
  = (Threw (mkError ("AI analysis failed: " +:+ Scan.parseFailure)), w,
     t ++ [Event (Say "Sending request to the model...") tt;
           Event (Complete sys usr) (Ok (RawText raw));
           Event (Say "Failed to parse AI response as JSON") tt]).
Proof.
  intros Hc. unfold Scan.analyzeWithAI, perform, say. simpl.
  rewrite Hc. simpl. by rewrite <- !app_assoc.
Qed.

Lemma validateScanPath_no_write (scanPath : string) :
  avoids writes (Scan.validateScanPath scanPath).
Proof. unfold Scan.validateScanPath. solve_avoids. Qed.

Lemma ensureHosbyTsInstalled_no_write : avoids writes Scan.ensureHosbyTsInstalled.
Proof. unfold Scan.ensureHosbyTsInstalled. solve_avoids. Qed.

Arguments Scan.analyzeWithAI : simpl never.
Arguments Scan.validateScanPath : simpl never.
Arguments Scan.ensureHosbyTsInstalled : simpl never.
Arguments Scan.processAndFilterSchema : simpl never.
Arguments Scan.installHosbyTs : simpl never.

(** C9: when the provider answers with text that is not valid JSON,
    [analyzeWithAI] throws the parse failure instead of returning a schema,
    and a scan that uses the AI returns having written no file: the world
    is as it was. *)
Theorem scan_invalid_json_writes_nothing (pathJoin : string → string → string)
    (o : oracle) (w w' : world) (tr : list event)
    (clientContent scanPath raw : string) (options : Scan.ScanOptions)
    (out : outcome unit) :
  Scan.ai options = true →
  (∀ tr, o_complete o tr (Scan.systemPrompt options) (Scan.userPrompt options)
         = Ok (RawText raw)) →
  run (Scan.scan pathJoin clientContent scanPath options) o w [] = (out, w', tr) →
  (∀ t, ∃ t',
     run (Scan.analyzeWithAI (Scan.timeout options) (Scan.providerName options)
            (Scan.systemPrompt options) (Scan.userPrompt options)) o w t
     = (Threw (mkError ("AI analysis failed: " +:+ Scan.parseFailure)), w, t')) ∧
  out = Returned tt ∧ w' = w ∧ Forall (λ ev, ofKind writes ev = false) tr.
Proof.
  intros Hai Hc Hrun. split.
  { intros t. eexists. by apply analyzeWithAI_invalid_json. }
  unfold Scan.scan in Hrun. rewrite run_bind in Hrun.
  destruct (run (Scan.validateScanPath scanPath) o w []) as [[o1 w1] t1] eqn:H1.
  destruct (run_no_write _ _ _ _ _ _ _ (validateScanPath_no_write scanPath) H1)
    as (-> & evs1 & -> & Hq1).
  assert (Hv : ∃ valid, o1 = Returned valid).
  { revert H1. unfold Scan.validateScanPath, perform. simpl.
    destruct (o_pathExists o scanPath); simpl; [|intros [= <- _]; by eexists].
    destruct (o_isDirectory o scanPath); simpl; intros [= <- _]; by eexists. }
  destruct Hv as [valid ->]. cbv iota beta in Hrun.
  destruct valid; cbn [negb] in Hrun; cbv iota in Hrun;
    [|by injection Hrun as <- <- <-].
  rewrite run_bind, run_say in Hrun. cbv iota beta in Hrun.
  rewrite run_catch, run_bind in Hrun.
  match type of Hrun with
  | context [run Scan.ensureHosbyTsInstalled o w ?t0] =>
      destruct (run Scan.ensureHosbyTsInstalled o w t0) as [[o2 w2] t2] eqn:H2
  end.
  destruct (run_no_write _ _ _ _ _ _ _ ensureHosbyTsInstalled_no_write H2)
    as (-> & evs2 & -> & Hq2).
  assert (Hi : ∃ installed, o2 = Returned installed).
  { revert H2. unfold Scan.ensureHosbyTsInstalled, perform. simpl.
    destruct (o_exec o _ _); simpl; intros [= <- _]; by eexists. }
  destruct Hi as [installed ->]. cbv iota beta in Hrun.
  rewrite Hai in Hrun.
  rewrite run_bind, run_say in Hrun. cbv iota beta in Hrun.
  rewrite run_bind, run_bind, run_say in Hrun. cbv iota beta in Hrun.
  rewrite run_catch, run_bind in Hrun.
  rewrite (analyzeWithAI_invalid_json _ _ _ _ _ _ _ raw Hc) in Hrun.
  cbv iota beta in Hrun. rewrite run_bind, run_say in Hrun. cbv iota beta in Hrun.
  simpl in Hrun. injection Hrun as <- <- <-.
  split; [done|]. split; [done|].
  rewrite !Forall_app. repeat split; try done; by repeat constructor.
Qed.

Lemma scan_invalid_json_writes_nothing_witness :
  (run (Scan.scan ex_pathJoin "client" "." (Scan.Options true 60000 "OpenAI" "system" "user"))
       (ex_oracle 0 (Ok ex_reply) ex_creds (Ok (RawText "not json"))) ex_world []).1
  = (Returned tt, ex_world).
Proof.
  destruct (run (Scan.scan ex_pathJoin "client" "."
                   (Scan.Options true 60000 "OpenAI" "system" "user"))
              (ex_oracle 0 (Ok ex_reply) ex_creds (Ok (RawText "not json"))) ex_world [])
    as [[out w'] tr] eqn:Hrun.
  destruct (scan_invalid_json_writes_nothing ex_pathJoin
              (ex_oracle 0 (Ok ex_reply) ex_creds (Ok (RawText "not json")))
              ex_world w' tr "client" "." "not json"
              (Scan.Options true 60000 "OpenAI" "system" "user") out
              eq_refl (λ _, eq_refl) Hrun) as (_ & -> & -> & _).
  reflexivity.
Defined.
(* ===================================================================== *)
(** * Further properties *)
(* ===================================================================== *)

(** ** The shape of a hash *)

Lemma digit36_isDigit36 (d : Z) : 0 ≤ d < 36 → isDigit36 (digit36 d) = true.
Proof.
  intros Hd. unfold isDigit36, digit36, charCode, ascii_of_Z.
  destruct (Z.ltb_spec d 10).
  - rewrite N_ascii_embedding by lia. rewrite Z2N.id by lia.
    apply orb_true_iff. left. apply andb_true_iff. split; lia.
  - rewrite N_ascii_embedding by lia. rewrite Z2N.id by lia.
    apply orb_true_iff. right. apply andb_true_iff. split; lia.
Qed.

Lemma append_cons (c : ascii) (s t : string) : String c s +:+ t = String c (s +:+ t).
Proof. reflexivity. Qed.

Lemma append_nil_r (s : string) : s +:+ "" = s.
Proof. induction s as [|c s IH]; [done|]. by rewrite append_cons, IH. Qed.

Lemma append_assoc (s t u : string) : (s +:+ t) +:+ u = s +:+ (t +:+ u).
Proof. induction s as [|c s IH]; [done|]. by rewrite !append_cons, IH. Qed.

Lemma length_append (s t : string) :
  String.length (s +:+ t) = (String.length s + String.length t)%nat.
Proof. induction s as [|c s IH]; [done|]. rewrite append_cons. simpl. by rewrite IH. Qed.

Lemma list_ascii_append (s t : string) :
  list_ascii_of_string (s +:+ t) = list_ascii_of_string s ++ list_ascii_of_string t.
Proof. induction s as [|c s IH]; [done|]. rewrite append_cons. simpl. by rewrite IH. Qed.

Lemma toString36_go_shape (fuel : nat) (n : Z) (acc : string) (k : nat) :
  0 ≤ n < 36 ^ Z.of_nat (S k) → (0 < fuel)%nat →
  ∃ ds, toString36_go fuel n acc = ds +:+ acc ∧
        (1 ≤ String.length ds ≤ S k)%nat ∧
        Forall (λ c, isDigit36 c = true) (list_ascii_of_string ds).
Proof.
  revert n acc k. induction fuel as [|fuel IH]; intros n acc k Hn Hf; [lia|].
  cbn [toString36_go]. pose proof (Z.mod_pos_bound n 36 ltac:(lia)) as Hm.
  assert (Hone : ∃ ds, String (digit36 (n `mod` 36)) acc = ds +:+ acc ∧
                       (1 ≤ String.length ds ≤ S k)%nat ∧
                       Forall (λ c, isDigit36 c = true) (list_ascii_of_string ds)).
  { exists (String (digit36 (n mod 36)) ""). split; [done|]. simpl. split; [lia|].
    constructor; [by apply digit36_isDigit36 | constructor]. }
  destruct (Z.eqb_spec (n / 36) 0) as [Hq|Hq]; [exact Hone|].
  destruct fuel as [|fuel']; [exact Hone|].
  destruct k as [|k'].
  { exfalso. apply Hq. apply Z.div_small. simpl in Hn. lia. }
  destruct (IH (n / 36) (String (digit36 (n mod 36)) acc) k') as (ds & Heq & Hlen & Hall).
  - split; [apply Z.div_pos; lia|].
    apply Z.div_lt_upper_bound; [lia|].
    replace (36 * 36 ^ Z.of_nat (S k')) with (36 ^ Z.of_nat (S (S k'))); [lia|].
    rewrite (Nat2Z.inj_succ (S k')), Z.pow_succ_r by lia. done.
  - lia.
  - exists (ds +:+ String (digit36 (n mod 36)) "").
    split; [|split].
    + rewrite Heq, append_assoc. done.
    + rewrite length_append. simpl. lia.
    + rewrite list_ascii_append. apply Forall_app. split; [done|].
      constructor; [by apply digit36_isDigit36 | constructor].
Qed.

(** X1: a schema hash is a numeral of one to six characters, each of them
    a digit or a lower-case letter a-z. *)
Theorem getSchemaHash_format (schema : json) :
  (1 ≤ String.length (getSchemaHash schema) ≤ 6)%nat ∧
  Forall (λ c, isDigit36 c = true) (list_ascii_of_string (getSchemaHash schema)).
Proof.
  unfold getSchemaHash, toString36.
  pose proof (masked_range (hashLoop 5381 (stableJson schema))) as Hr.
  destruct (toString36_go_shape
              (S (Z.to_nat (Z.log2 (Z.land (toInt32 (hashLoop 5381 (stableJson schema))) 2147483647))))
              (Z.land (toInt32 (hashLoop 5381 (stableJson schema))) 2147483647) "" 5)
    as (ds & Heq & Hlen & Hall).
  - change (36 ^ Z.of_nat 6) with 2176782336. lia.
  - lia.
  - rewrite Heq.
    by rewrite append_nil_r.
Qed.

(** ** Array indices and the enumeration order of objects *)

Lemma digitsValue_bounds (s : string) (acc n : Z) :
  0 ≤ acc → digitsValue s acc = Some n →
  acc * 10 ^ Z.of_nat (String.length s) ≤ n < (acc + 1) * 10 ^ Z.of_nat (String.length s).
Proof.
  revert acc. induction s as [|c s IH]; intros acc Hacc; simpl String.length.
  - intros [= <-]. simpl. lia.
  - cbn [digitsValue]. cbv zeta.
    destruct ((48 <=? charCode c) && (charCode c <=? 57)) eqn:Hd; [|done].
    apply andb_true_iff in Hd as [H1 H2]. intros Hv.
    apply IH in Hv; [|lia].
    rewrite Nat2Z.inj_succ, Z.pow_succ_r by lia.
    pose proof (Z.pow_pos_nonneg 10 (Z.of_nat (String.length s)) ltac:(lia) ltac:(lia)).
    nia.
Qed.

Lemma charCode_inj (c c' : ascii) : charCode c = charCode c' → c = c'.
Proof.
  unfold charCode. intros H%(inj Z.of_N).
  by rewrite <- (ascii_N_embedding c), <- (ascii_N_embedding c'), H.
Qed.

Lemma digitsValue_inj (s s' : string) (acc n : Z) :
  0 ≤ acc → String.length s = String.length s' →
  digitsValue s acc = Some n → digitsValue s' acc = Some n → s = s'.
Proof.
  revert s' acc. induction s as [|c s IH]; intros [|c' s'] acc Hacc Hlen; try done.
  cbn [digitsValue]. cbv zeta.
  destruct ((48 <=? charCode c) && (charCode c <=? 57)) eqn:Hd; [|done].
  destruct ((48 <=? charCode c') && (charCode c' <=? 57)) eqn:Hd'; [|done].
  apply andb_true_iff in Hd as [H1 H2]. apply andb_true_iff in Hd' as [H1' H2'].
  intros Hv Hv'. simpl in Hlen. injection Hlen as Hlen.
  assert (Hc : 0 ≤ acc * 10 + (charCode c - 48)) by lia.
  assert (Hc' : 0 ≤ acc * 10 + (charCode c' - 48)) by lia.
  pose proof (digitsValue_bounds _ _ _ Hc Hv) as Hb.
  pose proof (digitsValue_bounds _ _ _ Hc' Hv') as Hb'.
  rewrite <- Hlen in Hb'.
  pose proof (Z.pow_pos_nonneg 10 (Z.of_nat (String.length s)) ltac:(lia) ltac:(lia)).
  assert (Hcc : charCode c = charCode c') by nia.
  apply charCode_inj in Hcc as <-.
  f_equal. by apply (IH s' (acc * 10 + (charCode c - 48))); [lia|..].
Qed.

Lemma arrayIndex_range (k : string) (n : Z) :
  arrayIndex k = Some n →
  (k = "0" ∧ n = 0) ∨
  (10 ^ Z.of_nat (String.length k - 1) ≤ n < 10 ^ Z.of_nat (String.length k)
   ∧ digitsValue k 0 = Some n).
Proof.
  unfold arrayIndex. destruct k as [|c rest]; [done|].
  destruct ((charCode c =? 48) && negb (String.eqb rest "")) eqn:Hz; [done|].
  destruct (digitsValue (String c rest) 0) as [m|] eqn:Hv; [|done].
  destruct (m <=? 4294967294); [|done]. intros [= <-].
  cbn [digitsValue] in Hv. cbv zeta in Hv.
  destruct ((48 <=? charCode c) && (charCode c <=? 57)) eqn:Hd; [|done].
  apply andb_true_iff in Hd as [H1 H2].
  destruct (Z.eqb_spec (charCode c) 48) as [Hc|Hc].
  - simpl in Hz. apply negb_false_iff in Hz. apply String.eqb_eq in Hz as ->.
    left. simpl in Hv. injection Hv as <-.
    split; [|lia]. f_equal. apply charCode_inj. rewrite Hc. reflexivity.
  - right. split.
    + assert (Hc0 : 0 ≤ 0 * 10 + (charCode c - 48)) by lia.
      pose proof (digitsValue_bounds _ _ _ Hc0 Hv) as Hb.
      simpl String.length. replace (S (String.length rest) - 1)%nat with (String.length rest) by lia.
      rewrite Nat2Z.inj_succ, Z.pow_succ_r by lia.
      pose proof (Z.pow_pos_nonneg 10 (Z.of_nat (String.length rest)) ltac:(lia) ltac:(lia)).
      nia.
    + done.
Qed.

(** Two keys that are the same array index are the same key. *)
Lemma arrayIndex_inj (k k' : string) (n : Z) :
  arrayIndex k = Some n → arrayIndex k' = Some n → k = k'.
Proof.
  intros H H'.
  destruct (arrayIndex_range _ _ H) as [[-> ->]|[Hr Hv]];
    destruct (arrayIndex_range _ _ H') as [[-> Hn]|[Hr' Hv']]; try done.
  - pose proof (Z.pow_pos_nonneg 10 (Z.of_nat (String.length k' - 1)) ltac:(lia) ltac:(lia)). lia.
  - pose proof (Z.pow_pos_nonneg 10 (Z.of_nat (String.length k - 1)) ltac:(lia) ltac:(lia)). lia.
  - apply (digitsValue_inj k k' 0 n); [lia| |done|done].
    destruct (Nat.lt_trichotomy (String.length k) (String.length k')) as [Hl|[Hl|Hl]]; [|done|].
    + exfalso.
      assert (10 ^ Z.of_nat (String.length k) ≤ 10 ^ Z.of_nat (String.length k' - 1))
        by (apply Z.pow_le_mono_r; lia).
      lia.
    + exfalso.
      assert (10 ^ Z.of_nat (String.length k') ≤ 10 ^ Z.of_nat (String.length k - 1))
        by (apply Z.pow_le_mono_r; lia).
      lia.
Qed.

Lemma keys_obj_update {A} (k : string) (v : A) (fs : list (string * A)) :
  keys (obj_update k v fs) = keys fs.
Proof.
  unfold keys. induction fs as [|[k0 v0] fs IH]; [done|]. simpl.
  destruct (String.eqb k k0); simpl; [done | by f_equal].
Qed.

Lemma elem_of_keys_obj_insert_index {A} (i : Z) (k k' : string) (v : A) (fs : list (string * A)) :
  k' ∈ keys (obj_insert_index i k v fs) ↔ k' = k ∨ k' ∈ keys fs.
Proof.
  unfold keys. induction fs as [|[k0 v0] fs IH]; simpl.
  - rewrite list_elem_of_singleton. split; [by left | intros [?|H]; [done | inversion H]].
  - destruct (arrayIndex k0) as [j|]; [destruct (j <? i)|]; simpl;
      rewrite ?elem_of_cons, ?IH; simpl; tauto.
Qed.

Lemma NoDup_keys_obj_insert_index {A} (i : Z) (k : string) (v : A) (fs : list (string * A)) :
  k ∉ keys fs → NoDup (keys fs) → NoDup (keys (obj_insert_index i k v fs)).
Proof.
  induction fs as [|[k0 v0] fs IH]; simpl; intros Hk Hnd.
  - apply NoDup_singleton.
  - unfold keys in Hk, Hnd. simpl in Hk, Hnd.
    apply not_elem_of_cons in Hk as [Hne Hk]. apply NoDup_cons in Hnd as [Hk0 Hnd].
    assert (Hall : NoDup (k :: k0 :: keys fs)).
    { apply NoDup_cons. split; [|by apply NoDup_cons].
      apply not_elem_of_cons. done. }
    destruct (arrayIndex k0) as [j|]; [destruct (j <? i)|]; try exact Hall.
    change (NoDup (k0 :: keys (obj_insert_index i k v fs))).
    apply NoDup_cons. split; [|by apply IH].
    rewrite elem_of_keys_obj_insert_index.
    intros [->|Hin]; done.
Qed.

Lemma indicesThenNames_weaken {A} (b b' : Z) (fs : list (string * A)) :
  b' ≤ b → indicesThenNames b fs → indicesThenNames b' fs.
Proof.
  destruct fs as [|[k v] fs]; simpl; [done|].
  destruct (arrayIndex k); [|done]. intros Hb [H1 H2]. split; [lia | done].
Qed.

Lemma indicesThenNames_obj_update {A} (b : Z) (k : string) (v : A) (fs : list (string * A)) :
  indicesThenNames b fs → indicesThenNames b (obj_update k v fs).
Proof.
  revert b. induction fs as [|[k0 v0] fs IH]; intros b; simpl; [done|].
  destruct (String.eqb_spec k k0) as [->|Hne]; simpl; [done|].
  destruct (arrayIndex k0).
  - intros [H1 H2]. split; [done | by apply IH].
  - intros HF. clear IH. induction fs as [|[k1 v1] fs IH]; simpl; [done|].
    inversion HF; subst. destruct (String.eqb k k1); constructor; try done. by apply IH.
Qed.

Lemma indicesThenNames_obj_insert_index {A} (b i : Z) (k : string) (v : A)
    (fs : list (string * A)) :
  arrayIndex k = Some i → b < i → k ∉ keys fs →
  indicesThenNames b fs → indicesThenNames b (obj_insert_index i k v fs).
Proof.
  intros Hk. revert b. induction fs as [|[k0 v0] fs IH]; intros b Hb Hnew; simpl.
  - rewrite Hk. done.
  - unfold keys in Hnew. simpl in Hnew. apply not_elem_of_cons in Hnew as [Hne Hnew].
    destruct (arrayIndex k0) as [j|] eqn:Hk0.
    + intros [H1 H2]. destruct (Z.ltb_spec j i).
      * simpl. rewrite Hk0. split; [done|]. by apply IH.
      * simpl. rewrite Hk, Hk0. split; [done|]. split; [|done].
        assert (j ≠ i); [|lia]. intros ->. apply Hne. by apply (arrayIndex_inj k k0 i).
    + intros HF. simpl. rewrite Hk, Hk0. done.
Qed.

Lemma indicesThenNames_snoc {A} (b : Z) (k : string) (v : A) (fs : list (string * A)) :
  arrayIndex k = None → indicesThenNames b fs → indicesThenNames b (fs ++ [(k, v)]).
Proof.
  intros Hk. revert b. induction fs as [|[k0 v0] fs IH]; intros b; simpl.
  - by rewrite Hk.
  - destruct (arrayIndex k0).
    + intros [H1 H2]. split; [done | by apply IH].
    + intros HF. apply Forall_app. split; [done|]. by constructor.
Qed.

(** An assignment keeps an object in enumeration order. *)
Lemma enumerationOrder_obj_set {A} (k : string) (v : A) (fs : list (string * A)) :
  enumerationOrder fs → enumerationOrder (obj_set k v fs).
Proof.
  intros [Hnd Hord]. unfold obj_set.
  destruct (assoc k fs) as [x|] eqn:E.
  - split; [by rewrite keys_obj_update | by apply indicesThenNames_obj_update].
  - destruct (String.eqb k "__proto__"); [done|].
    apply assoc_None in E. unfold createDataProperty.
    rewrite (proj2 (assoc_None k fs) E).
    destruct (arrayIndex k) as [i|] eqn:Hk.
    + split; [by apply NoDup_keys_obj_insert_index|].
      apply indicesThenNames_obj_insert_index; try done.
      destruct (arrayIndex_range _ _ Hk) as [[_ ->]|[Hr _]]; [lia|].
      pose proof (Z.pow_pos_nonneg 10 (Z.of_nat (String.length k - 1)) ltac:(lia) ltac:(lia)). lia.
    + split; [|by apply indicesThenNames_snoc].
      unfold keys. rewrite fmap_app. simpl. apply NoDup_app. split; [done|].
      split; [|apply NoDup_singleton].
      intros x Hx ->%list_elem_of_singleton. done.
Qed.

Lemma obj_insert_index_last {A} (b i : Z) (k : string) (v : A) (fs : list (string * A)) :
  arrayIndex k = Some i → indicesThenNames b (fs ++ [(k, v)]) →
  b < i ∧ obj_insert_index i k v fs = fs ++ [(k, v)].
Proof.
  intros Hk. revert b. induction fs as [|[k0 v0] fs IH]; intros b; simpl.
  - rewrite Hk. by intros [? _].
  - destruct (arrayIndex k0) as [j|].
    + intros [H1 H2]. destruct (IH _ H2) as [H3 ->].
      split; [lia|]. by rewrite (proj2 (Z.ltb_lt j i) H3).
    + intros HF. apply Forall_app in HF as [_ HF]. inversion HF; subst. simpl in *. congruence.
Qed.

Lemma enumerationOrder_prefix {A} (fs : list (string * A)) (kv : string * A) :
  enumerationOrder (fs ++ [kv]) → enumerationOrder fs.
Proof.
  intros [Hnd Hord]. split.
  - unfold keys in *. rewrite fmap_app in Hnd. by apply NoDup_app in Hnd as [? _].
  - clear Hnd. revert Hord. generalize (-1). induction fs as [|[k0 v0] fs IH]; intros b; simpl; [done|].
    destruct (arrayIndex k0).
    + intros [H1 H2]. split; [done | by apply IH].
    + intros HF. by apply Forall_app in HF as [? _].
Qed.

Lemma assoc_snoc_None {A} (k : string) (fs : list (string * A)) (kv : string * A) :
  assoc k (fs ++ [kv]) = None → assoc k fs = None ∧ k ≠ kv.1.
Proof.
  rewrite !assoc_None. unfold keys. rewrite fmap_app. simpl.
  intros H. split.
  - intros Hin. apply H. apply elem_of_app. by left.
  - intros ->. apply H. apply elem_of_app. right. left.
Qed.

(** Assigning the properties of an object, in its own order, to the empty
    object builds the object again. *)
Lemma rebuild_enumerationOrder {A} (fs : list (string * A)) :
  enumerationOrder fs → assoc "__proto__" fs = None →
  foldl (λ acc '(k, v), obj_set k v acc) [] fs = fs.
Proof.
  induction fs as [|[k v] fs IH] using rev_ind; [done|].
  intros Hord Hproto. rewrite foldl_app. simpl.
  destruct (assoc_snoc_None _ _ _ Hproto) as [Hp Hk]. simpl in Hk.
  rewrite (IH (enumerationOrder_prefix _ _ Hord) Hp).
  destruct Hord as [Hnd Hord].
  assert (Hnew : assoc k fs = None).
  { apply assoc_None. unfold keys in *. rewrite fmap_app in Hnd.
    apply NoDup_app in Hnd as (_ & Hd & _). intros Hin. apply (Hd _ Hin). left. }
  unfold obj_set. rewrite Hnew.
  destruct (String.eqb_spec k "__proto__"); [congruence|].
  unfold createDataProperty. rewrite Hnew.
  destruct (arrayIndex k) as [i|] eqn:Hi; [|done].
  by destruct (obj_insert_index_last _ _ _ _ _ Hi Hord) as [_ ->].
Qed.

Lemma Forall_obj_set {A} (P : string * A → Prop) (k : string) (v : A) (fs : list (string * A)) :
  P (k, v) → Forall P fs → Forall P (obj_set k v fs).
Proof.
  intros Hkv HF. unfold obj_set.
  assert (Hupd : Forall P (obj_update k v fs)).
  { induction HF as [|[k0 v0] fs H0 HF IH]; simpl; [done|].
    destruct (String.eqb_spec k k0) as [->|]; constructor; done. }
  destruct (assoc k fs); [done|].
  destruct (String.eqb k "__proto__"); [done|].
  unfold createDataProperty. destruct (assoc k fs); [done|].
  destruct (arrayIndex k) as [i|].
  - clear Hupd. induction HF as [|[k0 v0] fs H0 HF IH]; simpl; [by constructor|].
    destruct (arrayIndex k0) as [j|]; [destruct (j <? i)|]; repeat constructor; done.
  - apply Forall_app. split; [done | by constructor].
Qed.

(** ** Which tables [filterSchema] keeps *)

(** One turn of the loop of [filterSchema]. *)
Lemma filterTables_step (tables : json) :
  filterTables tables =
  foldl (λ filtered '(table, columns),
           if keepsTable table columns then obj_set table columns filtered else filtered)
        [] (ownProps tables).
Proof.
  unfold filterTables. apply foldl_agree. intros filtered [table columns].
  unfold keepsTable.
  destruct (truthy columns), (typeofObject columns), (hasColumns columns),
    (isIgnoredByPattern (toLowerCase table)), (isUIComponentTable (toLowerCase table)); done.
Qed.

Lemma filterTables_fold_lookup (l acc : list (string * json)) (t : string) :
  NoDup (keys l) → assoc "__proto__" acc = None →
  assoc "__proto__"
    (foldl (λ filtered '(table, columns),
              if keepsTable table columns then obj_set table columns filtered else filtered)
           acc l) = None ∧
  assoc t
    (foldl (λ filtered '(table, columns),
              if keepsTable table columns then obj_set table columns filtered else filtered)
           acc l) =
  match assoc t l with
  | Some columns =>
      if keepsTable t columns && negb (String.eqb t "__proto__") then Some columns
      else assoc t acc
  | None => assoc t acc
  end.
Proof.
  revert acc. induction l as [|[k0 c0] l IH]; intros acc Hnd Hp; simpl; [done|].
  unfold keys in Hnd. simpl in Hnd. apply NoDup_cons in Hnd as [Hk0 Hnd].
  set (acc' := if keepsTable k0 c0 then obj_set k0 c0 acc else acc).
  assert (Hp' : assoc "__proto__" acc' = None).
  { unfold acc'. destruct (keepsTable k0 c0); [|done].
    destruct (String.eqb_spec k0 "__proto__") as [->|Hne].
    - unfold obj_set. by rewrite Hp.
    - rewrite assoc_obj_set by done. by destruct (String.eqb_spec "__proto__" k0). }
  destruct (IH acc' Hnd Hp') as [Hr1 Hr2]. split; [done|].
  rewrite Hr2. destruct (String.eqb_spec t k0) as [->|Hne].
  - rewrite (proj2 (assoc_None k0 l) Hk0). unfold acc'.
    destruct (keepsTable k0 c0); simpl; [|done].
    destruct (String.eqb_spec k0 "__proto__") as [->|Hne]; simpl.
    + unfold obj_set. by rewrite Hp.
    + rewrite assoc_obj_set by done. by rewrite String.eqb_refl.
  - assert (Hacc : assoc t acc' = assoc t acc).
    { unfold acc'. destruct (keepsTable k0 c0); [|done].
      destruct (String.eqb_spec k0 "__proto__") as [->|Hne'].
      - unfold obj_set. by rewrite Hp.
      - rewrite assoc_obj_set by done. by destruct (String.eqb_spec t k0). }
    by rewrite Hacc.
Qed.

(** X2: when [schema.tables] is an object, the [tables] of the filtered
    schema holds, under each name, exactly the table the input holds under
    that name, provided that table is an object with at least one column and
    its lower-cased name is neither on the ignore list nor UI-looking; every
    other table, and a table named [__proto__], is left out. *)
Theorem filterSchema_tables (schema : jsval) (tables : json) :
  rootTruthy schema = true → rootIsObject schema = true →
  rootGet schema "tables" = Some tables →
  truthy tables = true → typeofObject tables = true →
  NoDup (keys (ownProps tables)) →
  ∃ filtered kept,
    filterSchema schema = Ok filtered ∧
    getProp filtered "tables" = Some (JObj kept) ∧
    ∀ t, assoc t kept =
         match assoc t (ownProps tables) with
         | Some columns =>
             if keepsTable t columns && negb (String.eqb t "__proto__") then Some columns
             else None
         | None => None
         end.
Proof.
  intros Hr1 Hr2 Hget Htr Hobj Hnd. unfold filterSchema.
  rewrite Hr1, Hr2, Hget, Htr, Hobj. simpl.
  eexists _, _. split; [reflexivity|]. split; [reflexivity|].
  intros t. rewrite filterTables_step.
  destruct (filterTables_fold_lookup (ownProps tables) [] t Hnd eq_refl) as [_ ->].
  by destruct (assoc t (ownProps tables)).
Qed.

Lemma filterSchema_tables_witness :
  ∃ filtered kept,
    filterSchema (Json ex_local) = Ok filtered ∧
    getProp filtered "tables" = Some (JObj kept) ∧
    assoc "users" kept = Some (JObj [("id", JStr "string"); ("name", JStr "string")]).
Proof.
  destruct (filterSchema_tables (Json ex_local)
              (JObj [("users", JObj [("id", JStr "string"); ("name", JStr "string")]);
                     ("drafts", JObj [("id", JStr "string")])])
              eq_refl eq_refl eq_refl eq_refl eq_refl)
    as (filtered & kept & H1 & H2 & H3).
  - apply (bool_decide_unpack _). reflexivity.
  - exists filtered, kept. split; [exact H1|]. split; [exact H2|].
    rewrite (H3 "users"). reflexivity.
Defined.

Lemma filterTables_fold_invariant (l acc : list (string * json)) :
  enumerationOrder acc → assoc "__proto__" acc = None →
  Forall (λ kv, keepsTable kv.1 kv.2 = true) acc →
  let r := foldl (λ filtered '(table, columns),
                    if keepsTable table columns then obj_set table columns filtered else filtered)
                 acc l in
  enumerationOrder r ∧ assoc "__proto__" r = None ∧
  Forall (λ kv, keepsTable kv.1 kv.2 = true) r.
Proof.
  revert acc. induction l as [|[k0 c0] l IH]; intros acc Hord Hp HF; simpl; [done|].
  apply IH.
  - destruct (keepsTable k0 c0); [by apply enumerationOrder_obj_set | done].
  - destruct (keepsTable k0 c0); [|done].
    destruct (String.eqb_spec k0 "__proto__") as [->|Hne].
    + unfold obj_set. by rewrite Hp.
    + rewrite assoc_obj_set by done. by destruct (String.eqb_spec "__proto__" k0).
  - destruct (keepsTable k0 c0) eqn:Hk; [by apply Forall_obj_set | done].
Qed.

Lemma filterTables_fixed (kept : list (string * json)) :
  enumerationOrder kept → assoc "__proto__" kept = None →
  Forall (λ kv, keepsTable kv.1 kv.2 = true) kept →
  filterTables (JObj kept) = kept.
Proof.
  intros Hord Hp HF. rewrite filterTables_step. simpl.
  rewrite <- (rebuild_enumerationOrder kept Hord Hp) at 2.
  generalize (@nil (string * json)). clear Hord Hp.
  induction HF as [|[k c] l Hk HF IH]; intros acc; simpl; [done|].
  simpl in Hk. rewrite Hk. apply IH.
Qed.

(** X3: filtering is idempotent on a schema whose [tables] is an object:
    the filtered schema, filtered again, is returned as it is. *)
Theorem filterSchema_idempotent (schema : jsval) (tables filtered : json) :
  rootGet schema "tables" = Some tables →
  truthy tables = true → typeofObject tables = true →
  filterSchema schema = Ok filtered →
  filterSchema (Json filtered) = Ok filtered.
Proof.
  intros Hget Htr Hobj. unfold filterSchema at 1.
  destruct (negb (rootTruthy schema) || negb (rootIsObject schema)); [done|].
  rewrite Hget, Htr, Hobj. simpl. intros [= <-].
  unfold filterSchema. simpl.
  destruct (filterTables_fold_invariant (ownProps tables) [])
    as (Hord & Hp & HF); [split; [constructor | done] | done | done |].
  rewrite <- filterTables_step in Hord, Hp, HF.
  rewrite (filterTables_fixed _ Hord Hp HF).
  assert (Hor : ∀ x d, (if truthy (orElse x d) then orElse x d else d) = orElse x d).
  { intros [v|] d; simpl; [|by destruct (truthy d)].
    destruct (truthy v) eqn:Hv; [by rewrite Hv | by destruct (truthy d)]. }
  by rewrite !Hor.
Qed.

Lemma filterSchema_idempotent_witness :
  ∃ filtered, filterSchema (Json ex_local) = Ok filtered ∧
              filterSchema (Json filtered) = Ok filtered.
Proof.
  destruct (filterSchema (Json ex_local)) as [filtered|e] eqn:E; [|discriminate E].
  exists filtered. split; [reflexivity|].
  exact (filterSchema_idempotent (Json ex_local) _ filtered eq_refl eq_refl eq_refl E).
Defined.

(** ** Sanitising again *)

Lemma sanitizeSchema_columnAt (D S : jsval) (t c : string) (v : json) :
  sanitizeSchema D = Ok S → columnAt S t c v →
  ∃ v0, columnAt D t c v0 ∧ v = sanitizeColumn v0.
Proof.
  unfold sanitizeSchema. intros HS (tables' & table & Hget & Ht & Hc).
  destruct (negb (rootTruthy D) || negb (rootIsObject D)) eqn:Hroot.
  { injection HS as <-. simpl in Hget. injection Hget as <-.
    simpl in Ht. inversion Ht. }
  apply orb_false_iff in Hroot as [Hr1 Hr2].
  apply negb_false_iff in Hr1, Hr2.
  assert (Hempty : ∀ S', S' = rootSetNamed D "tables" (JObj []) →
                         rootGet S' "tables" = Some tables' → False).
  { intros S' -> Hg. rewrite rootGet_rootSetNamed in Hg by done.
    simpl in Hg. injection Hg as <-. simpl in Ht. inversion Ht. }
  destruct (rootGet D "tables") as [tables|] eqn:HD;
    [|injection HS as <-; by destruct (Hempty _ eq_refl Hget)].
  destruct (truthy tables) eqn:Htr;
    [|injection HS as <-; by destruct (Hempty _ eq_refl Hget)].
  destruct (sanitizeTables tables) as [tables1|e] eqn:Hst; [|done].
  injection HS as <-.
  rewrite rootGet_rootSetNamed in Hget by done. simpl in Hget.
  injection Hget as <-.
  destruct (ownProps_sanitizeTables _ _ _ _ Hst Ht) as (table0 & Ht0 & ->).
  destruct (ownProps_sanitizeTable _ _ _ Hc) as (v0 & Hv0 & ->).
  exists v0. split; [|done]. by exists tables, table0.
Qed.

Lemma sanitizeColumn_fixed (v : json) : inVocabulary v = true → sanitizeColumn v = v.
Proof.
  destruct v as [|b|r|s|l|fs]; simpl; try done.
  - intros [H|H]%orb_true_iff; rewrite H; [done|]. by destruct (startsWithEnumMarker s).
  - destruct (assoc "type" fs) as [[| | |t| |]|]; try done. by intros ->.
Qed.

Lemma sanitizeColumn_twice (v : json) : inVocabulary (sanitizeColumn (sanitizeColumn v)) = true.
Proof.
  assert (Hstr : ∀ s, inVocabulary (sanitizeColumn (JStr s)) = true).
  { intros s. simpl. destruct (startsWithEnumMarker s) eqn:E1; simpl; [by rewrite E1|].
    destruct (matchesValidType s) eqn:E2; simpl; [by rewrite E1, E2 | reflexivity]. }
  assert (Hobj : ∀ w, inVocabulary w = true → inVocabulary (sanitizeColumn w) = true).
  { intros w Hw. by rewrite sanitizeColumn_fixed. }
  destruct v as [|b|r|s|l|fs]; try apply Hstr.
  - apply Hobj, Hstr.
  - apply Hobj. simpl. by rewrite assoc_createDataProperty.
  - apply Hobj. pose proof (sanitizeColumn_spec (JObj fs)) as H. exact H.
Qed.

Lemma sanitizeColumn_settles (v : json) :
  sanitizeColumn (sanitizeColumn (sanitizeColumn v)) = sanitizeColumn (sanitizeColumn v).
Proof. apply sanitizeColumn_fixed, sanitizeColumn_twice. Qed.

Lemma sanitizeTable_settles (t : json) :
  sanitizeTable (sanitizeTable (sanitizeTable t)) = sanitizeTable (sanitizeTable t).
Proof.
  destruct t as [|b|r|s|l|fs]; simpl; try done.
  - f_equal. rewrite <- !list_fmap_compose. apply list_fmap_ext.
    intros i x _. simpl. apply sanitizeColumn_settles.
  - f_equal. rewrite <- !list_fmap_compose. apply list_fmap_ext.
    intros i [k c] _. simpl. f_equal. apply sanitizeColumn_settles.
Qed.

Lemma sanitizeTables_settles (tables tables1 : json) :
  truthy tables = true → sanitizeTables tables = Ok tables1 →
  truthy tables1 = true ∧
  ∃ tables2, sanitizeTables tables1 = Ok tables2 ∧ truthy tables2 = true ∧
             sanitizeTables tables2 = Ok tables2.
Proof.
  destruct tables as [|b|r|[|a s]|l|fs]; simpl; intros Htr [= <-]; try done.
  - split; [done|]. by exists (JBool b).
  - split; [done|]. by exists (JNum r).
  - split; [done|]. eexists. split; [reflexivity|]. split; [done|]. simpl. f_equal. f_equal.
    rewrite <- !list_fmap_compose. apply list_fmap_ext.
    intros i x _. simpl. apply sanitizeTable_settles.
  - split; [done|]. eexists. split; [reflexivity|]. split; [done|]. simpl. f_equal. f_equal.
    rewrite <- !list_fmap_compose. apply list_fmap_ext.
    intros i [k c] _. simpl. f_equal. apply sanitizeTable_settles.
Qed.

Lemma obj_update_twice {A} (k : string) (v v' : A) (fs : list (string * A)) :
  obj_update k v' (obj_update k v fs) = obj_update k v' fs.
Proof.
  induction fs as [|[k0 v0] fs IH]; simpl; [done|].
  destruct (String.eqb_spec k k0) as [->|Hne]; simpl.
  - by rewrite String.eqb_refl.
  - destruct (String.eqb_spec k k0); [done|]. by rewrite IH.
Qed.

Lemma obj_update_snoc {A} (k : string) (v v' : A) (fs : list (string * A)) :
  assoc k fs = None → obj_update k v' (fs ++ [(k, v)]) = fs ++ [(k, v')].
Proof.
  induction fs as [|[k0 v0] fs IH]; simpl; intros Hk.
  - by rewrite String.eqb_refl.
  - destruct (String.eqb_spec k k0); [done|]. by rewrite IH.
Qed.

(** Assigning a name twice is assigning it once, the second value. *)
Lemma obj_set_twice {A} (k : string) (v v' : A) (fs : list (string * A)) :
  k ≠ "__proto__" → arrayIndex k = None →
  obj_set k v' (obj_set k v fs) = obj_set k v' fs.
Proof.
  intros Hp Hi. unfold obj_set at 2 3.
  destruct (assoc k fs) as [x|] eqn:E.
  - unfold obj_set. rewrite assoc_obj_update, String.eqb_refl, E. apply obj_update_twice.
  - destruct (String.eqb_spec k "__proto__"); [done|].
    unfold createDataProperty. rewrite E, Hi.
    unfold obj_set. rewrite assoc_app_new by done. rewrite String.eqb_refl.
    by apply obj_update_snoc.
Qed.

Lemma rootSetNamed_twice (r : jsval) (k : string) (v v' : json) :
  k ≠ "__proto__" → arrayIndex k = None →
  rootSetNamed (rootSetNamed r k v) k v' = rootSetNamed r k v'.
Proof.
  intros Hp Hi. destruct r as [[| | | |l|fs]|l named]; simpl; try done.
  - f_equal. by apply (obj_set_twice k v v' []).
  - do 2 f_equal. by apply obj_set_twice.
  - f_equal. by apply obj_set_twice.
Qed.

Lemma sanitizeSchema_shape (D : jsval) (S : jsval) :
  sanitizeSchema D = Ok S →
  ∃ D0 tables,
    S = rootSetNamed D0 "tables" tables ∧
    rootTruthy D0 = true ∧ rootIsObject D0 = true ∧
    truthy tables = true ∧
    ((tables = JObj []) ∨ ∃ tables0, truthy tables0 = true ∧ sanitizeTables tables0 = Ok tables).
Proof.
  unfold sanitizeSchema.
  destruct (negb (rootTruthy D) || negb (rootIsObject D)) eqn:Hroot.
  { intros [= <-]. exists (Json (JObj [])), (JObj []). repeat split; by left. }
  apply orb_false_iff in Hroot as [Hr1 Hr2]. apply negb_false_iff in Hr1, Hr2.
  destruct (rootGet D "tables") as [tables|] eqn:HD.
  - destruct (truthy tables) eqn:Htr.
    + destruct (sanitizeTables tables) as [tables1|e] eqn:Hst; [|done].
      intros [= <-]. exists D, tables1. repeat split; try done.
      * by destruct (sanitizeTables_settles _ _ Htr Hst).
      * right. by exists tables.
    + intros [= <-]. exists D, (JObj []). repeat split; try done. by left.
  - intros [= <-]. exists D, (JObj []). repeat split; try done. by left.
Qed.

Lemma rootSetNamed_facts (r : jsval) (k : string) (v : json) :
  rootTruthy r = true → rootIsObject r = true →
  rootTruthy (rootSetNamed r k v) = true ∧ rootIsObject (rootSetNamed r k v) = true.
Proof. destruct r as [[| | | |l|fs]|l named]; simpl; done. Qed.

(** X4: sanitising settles after two passes.  Whatever the document, the
    sanitised document can be sanitised again; after this second pass every
    column of every table is in the vocabulary, and a further pass changes
    nothing.  (A scalar column needs both passes: 42 becomes "42", then
    'string'.) *)
Theorem sanitizeSchema_settles (D S1 : jsval) :
  sanitizeSchema D = Ok S1 →
  ∃ S2, sanitizeSchema S1 = Ok S2 ∧
        (∀ t c v, columnAt S2 t c v → inVocabulary v = true) ∧
        sanitizeSchema S2 = Ok S2.
Proof.
  intros HS1.
  destruct (sanitizeSchema_shape _ _ HS1) as (D0 & tables1 & -> & Hr1 & Hr2 & Htr1 & Hsrc).
  assert (Hpass : ∀ tables, truthy tables = true →
            ∀ tables', sanitizeTables tables = Ok tables' →
            sanitizeSchema (rootSetNamed D0 "tables" tables) = Ok (rootSetNamed D0 "tables" tables')).
  { intros tables Htr tables' Hst. unfold sanitizeSchema.
    destruct (rootSetNamed_facts D0 "tables" tables Hr1 Hr2) as [-> ->]. simpl.
    rewrite rootGet_rootSetNamed by done. simpl. rewrite Htr, Hst.
    by rewrite rootSetNamed_twice. }
  assert (Hsettle : ∃ tables2, sanitizeTables tables1 = Ok tables2 ∧ truthy tables2 = true ∧
                               sanitizeTables tables2 = Ok tables2).
  { destruct Hsrc as [->|(tables0 & Htr0 & Hst0)].
    - by exists (JObj []).
    - by destruct (sanitizeTables_settles _ _ Htr0 Hst0) as [_ ?]. }
  destruct Hsettle as (tables2 & Hst1 & Htr2 & Hst2).
  exists (rootSetNamed D0 "tables" tables2).
  split; [by apply Hpass|]. split; [|by apply Hpass].
  intros t c v Hcol.
  destruct (sanitizeSchema_columnAt _ _ t c v (Hpass _ Htr1 _ Hst1) Hcol) as (v1 & Hcol1 & ->).
  destruct (sanitizeSchema_columnAt _ _ t c v1 HS1 Hcol1) as (v0 & _ & ->).
  apply sanitizeColumn_twice.
Qed.

Lemma sanitizeSchema_settles_witness :
  ∃ S1 S2, sanitizeSchema ex_numeric_column = Ok S1 ∧
           sanitizeSchema S1 = Ok S2 ∧
           (∀ t c v, columnAt S2 t c v → inVocabulary v = true) ∧
           sanitizeSchema S2 = Ok S2.
Proof.
  destruct (sanitizeSchema ex_numeric_column) as [S1|e] eqn:E; [|discriminate E].
  destruct (sanitizeSchema_settles ex_numeric_column S1 E) as (S2 & H).
  exists S1, S2. split; [reflexivity | exact H].
Defined.

(** ** Merging, field by field *)

(** X5: apart from [tables], every top-level field of the merged document
    is the server's when the server document has that field, and the local
    one otherwise; so the server's [version] and [metadata] replace the
    local ones whenever the server sends them. *)
Theorem mergeSchemas_fields (localSchema serverSchema : json) :
  localSchema ≠ JNull → serverSchema ≠ JNull →
  NoDup (keys (ownProps localSchema)) → NoDup (keys (ownProps serverSchema)) →
  ∃ merged,
    mergeSchemas localSchema serverSchema = Ok (JObj merged) ∧
    ∀ k, k ≠ "tables" →
         assoc k merged =
         match assoc k (ownProps serverSchema) with
         | Some v => Some v
         | None => assoc k (ownProps localSchema)
         end.
Proof.
  intros Hl Hs Hnl Hns. unfold mergeSchemas.
  assert (Hm : ∀ v k, v ≠ JNull → getMember v k = Ok (getProp v k)) by (by intros []).
  rewrite (Hm _ _ Hl), (Hm _ _ Hs).
  eexists. split; [reflexivity|].
  intros k Hk. rewrite assoc_createDataProperty.
  destruct (String.eqb_spec k "tables"); [done|].
  unfold spreadInto.
  rewrite (assoc_foldl_createDataProperty k (ownProps serverSchema)) by done.
  rewrite (assoc_foldl_createDataProperty k (ownProps localSchema)) by done.
  simpl. by destruct (assoc k (ownProps serverSchema)), (assoc k (ownProps localSchema)).
Qed.

Lemma mergeSchemas_fields_witness :
  ∃ merged,
    mergeSchemas ex_local ex_server = Ok (JObj merged) ∧
    assoc "version" merged = Some (JStr "1.0.0") ∧
    assoc "metadata" merged = Some ex_project.
Proof.
  destruct (mergeSchemas_fields ex_local ex_server) as (merged & Hm & Hf).
  - discriminate.
  - discriminate.
  - apply (bool_decide_unpack _). reflexivity.
  - apply (bool_decide_unpack _). reflexivity.
  - exists merged. split; [exact Hm|].
    split; [rewrite (Hf "version") | rewrite (Hf "metadata")]; try discriminate; reflexivity.
Defined.

(** ** The structural scan, sanitised and filtered *)

Lemma rev_app_append (s acc : string) : String.rev_app s acc = String.rev s +:+ acc.
Proof.
  unfold String.rev. revert acc. induction s as [|c s IH]; intros acc; [done|].
  simpl. rewrite (IH (String c acc)), (IH (String c "")), append_assoc. done.
Qed.

Lemma rev_append (s t : string) : String.rev (s +:+ t) = String.rev t +:+ String.rev s.
Proof.
  induction s as [|c s IH]; [by rewrite append_nil_r|].
  rewrite append_cons. unfold String.rev at 1 3. simpl.
  rewrite !rev_app_append, IH, append_assoc. done.
Qed.

Lemma prefix_append (p x y : string) : String.prefix (p +:+ x) (p +:+ y) = String.prefix x y.
Proof.
  induction p as [|c p IH]; [done|]. rewrite !append_cons. simpl.
  by destruct (ascii_dec c c).
Qed.

Lemma endsWith_append (n p q : string) : endsWith (n +:+ q) (p +:+ q) = endsWith n p.
Proof. unfold endsWith. by rewrite !rev_append, prefix_append. Qed.

Lemma endsWith_nil (s : string) : endsWith s "" = true.
Proof. unfold endsWith. simpl. by destruct (String.rev s). Qed.

Lemma lowerChar_idempotent (c : ascii) : lowerChar (lowerChar c) = lowerChar c.
Proof. destruct c as [[] [] [] [] [] [] [] []]; reflexivity. Qed.

Lemma toLowerCase_idempotent (s : string) : toLowerCase (toLowerCase s) = toLowerCase s.
Proof. induction s as [|c s IH]; simpl; [done|]. by rewrite lowerChar_idempotent, IH. Qed.

Lemma toLowerCase_append (s t : string) :
  toLowerCase (s +:+ t) = toLowerCase s +:+ toLowerCase t.
Proof. induction s as [|c s IH]; [done|]. rewrite !append_cons. simpl. by rewrite IH, append_cons. Qed.

Lemma tableName_not_proto (n : string) : n +:+ "s" ≠ "__proto__".
Proof.
  intros H. apply (f_equal (λ s, endsWith s "s")) in H.
  change "s" with ("" +:+ "s") in H at 2. rewrite endsWith_append in H.
  unfold endsWith in H. simpl in H. by destruct (String.rev n).
Qed.

(** A name that ends with one of the UI patterns gives, with its [s], a
    table name that the filter takes for a UI component. *)
Lemma isUIComponentTable_plural (n : string) :
  existsb (endsWith n) uiPatterns = true → isUIComponentTable (n +:+ "s") = true.
Proof.
  intros (p & Hin & Hp)%existsb_exists. unfold isUIComponentTable.
  assert (Hex : existsb (λ pattern, endsWith (n +:+ "s") pattern
                                    || endsWith (n +:+ "s") (pattern +:+ "s"))
                        uiPatterns = true).
  { apply existsb_exists. exists p. split; [done|].
    by rewrite endsWith_append, Hp, orb_true_r. }
  by rewrite Hex.
Qed.

Lemma sanitizeColumn_mapType (type : string) :
  sanitizeColumn (JStr (mapType type)) = JStr (mapType type).
Proof. unfold mapType. repeat case_match; reflexivity. Qed.

Lemma sanitizeTable_interfaceTable (properties : list (string * string)) :
  sanitizeTable (interfaceTable properties) = interfaceTable properties.
Proof.
  unfold interfaceTable. simpl. f_equal.
  assert (HF : Forall (λ kv : string * json, sanitizeColumn kv.2 = kv.2)
                 (foldl (λ columns '(name, type), obj_set name (JStr (mapType type)) columns)
                        [] properties)).
  { generalize (@nil (string * json)) (Forall_nil_2 (λ kv : string * json, sanitizeColumn kv.2 = kv.2)).
    induction properties as [|[name type] properties IH]; intros acc Hacc; simpl; [done|].
    apply IH. apply Forall_obj_set; [apply sanitizeColumn_mapType | done]. }
  induction HF as [|[k c] l Hc HF IH]; [done|].
  rewrite fmap_cons. simpl in Hc. by rewrite Hc, IH.
Qed.

(** The tables a scan builds, looked up by name. *)
Lemma scanProject_tables_invariant (interfaces : list interface) (acc : list (string * json)) :
  enumerationOrder acc →
  Forall (λ kv : string * json, sanitizeTable kv.2 = kv.2) acc →
  let tables := foldl (λ tables intf,
                         obj_set (toLowerCase (intf_name intf) +:+ "s")
                                 (interfaceTable (intf_properties intf)) tables)
                      acc interfaces in
  enumerationOrder tables ∧
  Forall (λ kv : string * json, sanitizeTable kv.2 = kv.2) tables ∧
  ∀ t columns, assoc t tables = Some columns →
    assoc t acc = Some columns ∨
    ∃ intf, intf ∈ interfaces ∧ t = toLowerCase (intf_name intf) +:+ "s" ∧
            columns = interfaceTable (intf_properties intf).
Proof.
  revert acc. induction interfaces as [|intf interfaces IH]; intros acc Hord HF; simpl.
  - split; [done|]. split; [done|]. intros t columns H. by left.
  - destruct (IH (obj_set (toLowerCase (intf_name intf) +:+ "s")
                          (interfaceTable (intf_properties intf)) acc))
      as (H1 & H2 & H3).
    + by apply enumerationOrder_obj_set.
    + apply Forall_obj_set; [apply sanitizeTable_interfaceTable | done].
    + split; [done|]. split; [done|]. intros t columns Ht.
      destruct (H3 t columns Ht) as [Hacc|(intf' & Hin & Heq)].
      * rewrite assoc_obj_set in Hacc by apply tableName_not_proto.
        destruct (String.eqb_spec t (toLowerCase (intf_name intf) +:+ "s")) as [->|Hne].
        -- injection Hacc as <-. right. exists intf. split; [left | done].
        -- by left.
      * right. exists intf'. split; [by right | done].
Qed.

(** X6: what the structural scan produces needs no sanitising:
    [sanitizeSchema] returns the scanned schema as it is, since every column
    type [mapType] gives is in the vocabulary. *)
Theorem scanProject_sanitized (interfaces : list interface) :
  sanitizeSchema (Json (scanProject interfaces)) = Ok (Json (scanProject interfaces)).
Proof.
  destruct (scanProject_tables_invariant interfaces []) as (_ & HF & _);
    [split; [constructor | done] | done |].
  unfold sanitizeSchema, scanProject. simpl.
  match goal with |- context [fmap ?f ?T] => assert (Hfix : fmap f T = T) end.
  { induction HF as [|[k c] l Hc HF IH]; [done|].
    rewrite fmap_cons. simpl in Hc. by rewrite Hc, IH. }
  rewrite Hfix. reflexivity.
Qed.

(** X7: every table that is left of a scanned schema after filtering comes
    from an interface that has at least one property and whose lower-cased
    name does not end with any of the UI patterns ([props], [state],
    [config], ..., [renderer]); the table is the one built for that
    interface, named after it in lower case with an [s]. *)
Theorem scanProject_filtered (interfaces : list interface) :
  ∃ kept,
    filterSchema (Json (scanProject interfaces)) =
      Ok (JObj [("tables", JObj kept); ("version", JStr "1.0.0"); ("metadata", JObj [])]) ∧
    ∀ t columns, assoc t kept = Some columns →
      ∃ intf, intf ∈ interfaces ∧
              t = toLowerCase (intf_name intf) +:+ "s" ∧
              columns = interfaceTable (intf_properties intf) ∧
              intf_properties intf ≠ [] ∧
              existsb (endsWith (toLowerCase (intf_name intf))) uiPatterns = false.
Proof.
  eexists. split; [reflexivity|].
  intros t columns. rewrite filterTables_step.
  destruct (scanProject_tables_invariant interfaces []) as ([Hnd _] & _ & Hlook);
    [split; [constructor | done] | done |].
  cbv zeta in Hlook.
  match goal with |- assoc t (foldl _ [] (ownProps (JObj ?T))) = _ → _ => set (tables := T) in * end.
  destruct (filterTables_fold_lookup (ownProps (JObj tables)) [] t Hnd eq_refl) as [_ ->].
  simpl ownProps. destruct (assoc t tables) as [c|] eqn:Ht; [|done].
  destruct (keepsTable t c && negb (String.eqb t "__proto__")) eqn:Hk; [|done].
  intros [= ->]. apply andb_true_iff in Hk as [Hk _].
  destruct (Hlook t columns Ht) as [Hacc|(intf & Hin & -> & ->)]; [done|].
  exists intf. split; [done|]. split; [done|]. split; [done|].
  unfold keepsTable in Hk.
  rewrite !andb_true_iff in Hk. destruct Hk as ((((_ & _) & Hcols) & _) & Hui).
  split.
  - intros Hnil. rewrite Hnil in Hcols. done.
  - rewrite toLowerCase_append, toLowerCase_idempotent in Hui.
    change (toLowerCase "s") with "s" in Hui.
    destruct (existsb (endsWith (toLowerCase (intf_name intf))) uiPatterns) eqn:Hex; [|done].
    apply isUIComponentTable_plural in Hex. by rewrite Hex in Hui.
Qed.

Lemma scanProject_filtered_witness :
  ∃ intf, intf ∈ ex_interfaces ∧
          "users" = toLowerCase (intf_name intf) +:+ "s" ∧
          intf_properties intf ≠ [] ∧
          existsb (endsWith (toLowerCase (intf_name intf))) uiPatterns = false.
Proof.
  destruct (scanProject_filtered ex_interfaces) as (kept & Hf & Hk).
  vm_compute in Hf. injection Hf as <-.
  destruct (Hk "users" _ eq_refl) as (intf & H1 & H2 & _ & H3 & H4).
  by exists intf.
Defined.

(** ** The generated service interface *)

Lemma interfaceTable_strings (properties : list (string * string)) :
  ∃ columns, interfaceTable properties = JObj columns ∧
             Forall (λ kv : string * json, getTypeFromSchema kv.2 = "string") columns.
Proof.
  unfold interfaceTable. eexists. split; [reflexivity|].
  generalize (@nil (string * json))
             (Forall_nil_2 (λ kv : string * json, getTypeFromSchema kv.2 = "string")).
  induction properties as [|[name type] properties IH]; intros acc Hacc; simpl; [done|].
  apply IH. by apply Forall_obj_set.
Qed.

(** X8: the service template declares every property of a scanned
    interface as a [string], whatever type the scan recorded for it: the
    column holds the name of its type, and the template takes the type of
    that name.  The members [id], [createdAt] and [updatedAt] are left to the
    fixed part of the template. *)
Theorem templateProperties_scanned (properties : list (string * string)) :
  ∃ columns,
    interfaceTable properties = JObj columns ∧
    templateProperties (JObj columns) =
      Ok (join newline
            ((λ key, "  " +:+ key +:+ ": string;") <$> List.filter isOwnMember (keys columns))).
Proof.
  destruct (interfaceTable_strings properties) as (columns & Heq & HF).
  exists columns. split; [done|]. unfold templateProperties. simpl. do 2 f_equal.
  clear Heq. induction HF as [|[k c] l Hc HF IH]; [done|].
  simpl. destruct (isOwnMember k); [|exact IH].
  rewrite !fmap_cons. simpl in Hc. by rewrite Hc, IH.
Qed.

(** ** Commands that stop early *)

Lemma getSchemaHash_nonempty (schema : json) : getSchemaHash schema ≠ "".
Proof.
  unfold getSchemaHash, toString36.
  pose proof (masked_range (hashLoop 5381 (stableJson schema))) as Hr.
  destruct (toString36_go_shape
              (S (Z.to_nat (Z.log2 (Z.land (toInt32 (hashLoop 5381 (stableJson schema))) 2147483647))))
              (Z.land (toInt32 (hashLoop 5381 (stableJson schema))) 2147483647) "" 5)
    as (ds & Heq & Hlen & _).
  - change (36 ^ Z.of_nat 6) with 2176782336. lia.
  - lia.
  - rewrite Heq, append_nil_r. intros ->. simpl in Hlen. lia.
Qed.

Lemma say_avoids (line : string) (c : kind) :
  c _ (Say line) = false → avoids c (say line).
Proof. intros H. unfold say, perform. constructor; [done | intros []; constructor]. Qed.

Lemma Pull_getLocalSchemaInfo_silent (schemaFile lastPullTimeFile : string) :
  avoids silent (Pull.getLocalSchemaInfo schemaFile lastPullTimeFile).
Proof. unfold Pull.getLocalSchemaInfo. solve_avoids. Qed.

Lemma handlePullError_silent (err : jserror) : avoids silent (Pull.handlePullError err).
Proof. by apply handlePullError_avoids. Qed.

(** X9: without [hosby.schema.json] in the working directory, [pull] and
    [push] stop after looking for it: one existence test, one message,
    nothing read from the credential store, nothing sent, nothing
    written. *)
Theorem commands_need_schema_file (o : oracle) (w : world) (force : bool) :
  files w !! schemaFileName = None →
  run Pull.pull o w []
  = (Returned tt, w,
     [Event (FsExists schemaFileName) false;
      Event (Say "No hosby.schema.json found. Please run `hosby scan` first.") tt]) ∧
  run (Push.push force) o w []
  = (Returned tt, w,
     [Event (FsExists schemaFileName) false;
      Event (Say "No hosby.schema.json found. Please run `hosby scan` first.") tt]).
Proof.
  intros Hf. unfold Pull.pull, Push.push, checkSchemaExists, perform, say. simpl.
  rewrite Hf. simpl. done.
Qed.

Lemma commands_need_schema_file_witness :
  run Pull.pull (ex_oracle 0 (Ok ex_reply) ex_creds (Ok (RawText ""))) (World ∅) []
  = (Returned tt, World ∅,
     [Event (FsExists schemaFileName) false;
      Event (Say "No hosby.schema.json found. Please run `hosby scan` first.") tt]).
Proof.
  exact (proj1 (commands_need_schema_file (ex_oracle 0 (Ok ex_reply) ex_creds (Ok (RawText "")))
                  (World ∅) false (lookup_empty _))).
Defined.

Lemma Pull_getLocalSchemaInfo_returns (o : oracle) (w : world) (tr : list event)
    (sd : json) (m : Z) :
  files w !! schemaFileName = Some (File (JsonText sd) m) →
  ∃ d evs,
    run (Pull.getLocalSchemaInfo schemaFileName lastPullFileName) o w tr
    = (Returned (sd, getSchemaHash sd, d), w, tr ++ evs) ∧
    Forall (λ ev, ofKind silent ev = false) evs ∧
    (lastPullUndated o w = true → d = None).
Proof.
  intros Hfile. unfold lastPullUndated.
  unfold Pull.getLocalSchemaInfo, readJson, perform. simpl.
  rewrite Hfile. simpl.
  destruct (files w !! lastPullFileName) as [[txt m']|] eqn:Hlp; simpl.
  - rewrite Hlp. simpl.
    destruct txt as [v|raw]; simpl.
    + destruct v as [|b|r|s|l|fs]; simpl.
      all: try match goal with
               | |- context [assoc "time" ?fs] => destruct (assoc "time" fs) as [t|]; simpl
               end.
      all: eexists _, _; (split; [by rewrite <- !app_assoc|]); (split; [by repeat constructor|]).
      all: try done.
      intros H. by apply bool_decide_eq_true_1 in H.
    + eexists _, _; split; [by rewrite <- !app_assoc|]. split; [by repeat constructor | done].
  - eexists _, _; split; [by rewrite <- !app_assoc|]. split; [by repeat constructor | done].
Qed.

Lemma requireLogin_exits (o : oracle) (w : world) (tr : list event) :
  loggedIn o = false →
  ∃ evs, run requireLogin o w tr = (Exited 1, w, tr ++ evs) ∧
         Forall (λ ev, ofKind silent ev = false) evs.
Proof.
  unfold loggedIn, requireLogin, perform. simpl.
  destruct (o_credentials o "hosby-cli-token") as [[[|c0 c]|]|e1]; simpl;
    destruct (o_credentials o "hosby-user-id") as [[[|u0 u]|]|e2]; simpl;
    destruct (o_credentials o "hosby-session-token") as [[[|s0 s]|]|e3]; simpl;
    try done; intros _;
    (eexists; split; [by rewrite <- !app_assoc | by repeat constructor]).
Qed.

Lemma requireLogin_returns (o : oracle) (w : world) (tr : list event) :
  loggedIn o = true →
  ∃ creds evs, run requireLogin o w tr = (Returned creds, w, tr ++ evs) ∧
               Forall (λ ev, ofKind silent ev = false) evs.
Proof.
  unfold loggedIn, requireLogin, perform. simpl.
  destruct (o_credentials o "hosby-cli-token") as [[[|c0 c]|]|e1]; simpl;
    destruct (o_credentials o "hosby-user-id") as [[[|u0 u]|]|e2]; simpl;
    destruct (o_credentials o "hosby-session-token") as [[[|s0 s]|]|e3]; simpl;
    try done; intros _;
    (eexists _, _; split; [by rewrite <- !app_assoc | by repeat constructor]).
Qed.

Lemma Push_getLocalSchemaInfo_run (o : oracle) (w : world) (tr : list event)
    (sd : json) (m : Z) :
  files w !! schemaFileName = Some (File (JsonText sd) m) → sd ≠ JNull →
  run (Push.getLocalSchemaInfo schemaFileName) o w tr
  = (Returned (sd, getSchemaHash sd), w,
     tr ++ [Event (FsRead schemaFileName) (Ok (JsonText sd))]).
Proof.
  intros Hfile Hsd. unfold Push.getLocalSchemaInfo, readJson, perform. simpl.
  rewrite Hfile. simpl. by destruct sd.
Qed.

(** X10: a user who is not logged in gets nowhere.  With a readable schema
    file and a credential store that lacks one of the three credentials (or
    fails), [pull] and [push --force] both end the process with exit code 1
    before anything is sent or written. *)
Theorem commands_require_login (o : oracle) (w : world) (sd : json) (m : Z) :
  loggedIn o = false →
  files w !! schemaFileName = Some (File (JsonText sd) m) → sd ≠ JNull →
  (∃ tr, run Pull.pull o w [] = (Exited 1, w, tr) ∧
         Forall (λ ev, ofKind silent ev = false) tr) ∧
  (∃ tr, run (Push.push true) o w [] = (Exited 1, w, tr) ∧
         Forall (λ ev, ofKind silent ev = false) tr).
Proof.
  intros Hlog Hfile Hsd. split.
  - unfold Pull.pull.
    rewrite run_bind, (checkSchemaExists_run _ _ _ _ Hfile). cbn [negb].
    rewrite run_bind.
    destruct (Pull_getLocalSchemaInfo_returns o w ([] ++ [Event (FsExists schemaFileName) true])
                sd m Hfile) as (d & evs1 & -> & Hs1 & _).
    rewrite run_bind.
    destruct (requireLogin_exits o w (([] ++ [Event (FsExists schemaFileName) true]) ++ evs1) Hlog)
      as (evs2 & -> & Hs2).
    eexists. split; [reflexivity|].
    rewrite !Forall_app. repeat split; try done. by repeat constructor.
  - unfold Push.push.
    rewrite run_bind, (checkSchemaExists_run _ _ _ _ Hfile). cbn [negb].
    rewrite run_catch. unfold Push.pushAttempt.
    rewrite run_bind, (Push_getLocalSchemaInfo_run _ _ _ _ _ Hfile Hsd).
    cbv iota beta. unfold Push.hasSchemaChanged. cbn [bind negb].
    rewrite run_bind. unfold Push.authenticate. rewrite run_catch.
    match goal with
    | |- context [run requireLogin o w ?t] =>
        destruct (requireLogin_exits o w t Hlog) as (evs2 & -> & Hs2)
    end.
    eexists. split; [reflexivity|].
    rewrite !Forall_app. repeat split; try done; by repeat constructor.
Qed.

Lemma commands_require_login_witness :
  ∃ tr, run Pull.pull (ex_oracle 0 (Ok ex_reply) ex_no_creds (Ok (RawText ""))) ex_world []
        = (Exited 1, ex_world, tr) ∧
        Forall (λ ev, ofKind silent ev = false) tr.
Proof.
  exact (proj1 (commands_require_login
                  (ex_oracle 0 (Ok ex_reply) ex_no_creds (Ok (RawText ""))) ex_world
                  ex_local 2000 eq_refl eq_refl ltac:(discriminate))).
Defined.

(** X11: a last-pull record without a readable date blocks [pull].  When
    [.hosby-last-pull] holds a document whose [time] is missing or is not a
    date, every pull ends before the request: nothing is sent, nothing is
    written (so the record stays as it is), and the command either returns
    after reporting an error or exits for want of credentials. *)
Theorem pull_undated_record_blocks (o : oracle) (w w' : world) (sd : json) (m : Z)
    (out : outcome unit) (tr : list event) :
  files w !! schemaFileName = Some (File (JsonText sd) m) →
  lastPullUndated o w = true →
  run Pull.pull o w [] = (out, w', tr) →
  w' = w ∧ Forall (λ ev, ofKind silent ev = false) tr ∧
  (out = Returned tt ∨ out = Exited 1).
Proof.
  intros Hfile Hund Hrun. unfold Pull.pull in Hrun.
  rewrite run_bind, (checkSchemaExists_run _ _ _ _ Hfile) in Hrun. cbn [negb] in Hrun.
  rewrite run_bind in Hrun.
  destruct (Pull_getLocalSchemaInfo_returns o w ([] ++ [Event (FsExists schemaFileName) true])
              sd m Hfile) as (d & evs1 & He1 & Hs1 & Hd).
  rewrite He1, (Hd Hund) in Hrun. clear He1. cbv iota beta in Hrun.
  rewrite run_bind in Hrun.
  destruct (loggedIn o) eqn:Hlog.
  - destruct (requireLogin_returns o w (([] ++ [Event (FsExists schemaFileName) true]) ++ evs1) Hlog)
      as (creds & evs2 & He2 & Hs2).
    rewrite He2 in Hrun. clear He2.
    rewrite run_bind in Hrun.
    destruct (getProjectInfos_run o w
                ((([] ++ [Event (FsExists schemaFileName) true]) ++ evs1) ++ evs2) sd m Hfile)
      as (p & evs3 & He3 & _).
    destruct (run_silent requests _ _ _ _ _ _ _ getProjectInfos_silent He3) as (_ & evs3' & Heq & Hs3).
    apply app_inv_head in Heq as <-.
    rewrite He3 in Hrun. clear He3.
    rewrite run_bind, run_say, run_catch in Hrun. cbv iota beta in Hrun.
    cbn [Pull.fetchServerSchema bind run] in Hrun.
    match type of Hrun with
    | run (Pull.handlePullError ?e) o w ?t = _ =>
        destruct (run_silent requests _ _ _ _ _ _ _ (handlePullError_silent e) Hrun)
          as (-> & evs4 & -> & Hs4)
    end.
    split; [done|]. split.
    + rewrite !Forall_app. repeat split; try done; by repeat constructor.
    + left. revert Hrun. unfold Pull.handlePullError, say, perform. simpl.
      repeat case_match; by intros [= <- _].
  - destruct (requireLogin_exits o w (([] ++ [Event (FsExists schemaFileName) true]) ++ evs1) Hlog)
      as (evs2 & He2 & Hs2).
    rewrite He2 in Hrun. injection Hrun as <- <- <-.
    split; [done|]. split; [|by right].
    simpl. constructor; [done|]. by apply Forall_app.
Qed.

Lemma pull_undated_record_blocks_witness :
  ∃ out tr,
    run Pull.pull (ex_oracle 0 (Ok ex_reply) ex_creds (Ok (RawText ""))) ex_world_undated []
    = (out, ex_world_undated, tr) ∧
    Forall (λ ev, ofKind silent ev = false) tr ∧
    (out = Returned tt ∨ out = Exited 1).
Proof.
  destruct (run Pull.pull (ex_oracle 0 (Ok ex_reply) ex_creds (Ok (RawText "")))
              ex_world_undated []) as [[out w'] tr] eqn:Hrun.
  destruct (pull_undated_record_blocks
              (ex_oracle 0 (Ok ex_reply) ex_creds (Ok (RawText ""))) ex_world_undated w'
              ex_local 2000 out tr eq_refl eq_refl Hrun) as (-> & Hs & Hout).
  exists out, tr. split; [reflexivity|]. split; [exact Hs | exact Hout].
Defined.

(** ** Replacing the schema file *)

Lemma updateSchemaFile_run (o : oracle) (w : world) (t : list event)
    (path : string) (schema : json) :
  schema ≠ JNull →
  ∃ evs mtime,
    run (Pull.updateSchemaFile path schema) o w t
    = (Returned tt,
       World (<[path := File (JsonText
                                (JObj (createDataProperty "metadata"
                                         (orElse (getProp schema "metadata") (keptMetadata w path))
                                         (spreadInto [] schema)))) mtime]> (files w)),
       t ++ evs) ∧
    Forall (λ ev, ofKind asks ev = false) evs ∧
    Forall (λ ev, ofKind requests ev = false) evs.
Proof.
  intros Hs. unfold Pull.updateSchemaFile, keptMetadata, readJson, perform. simpl.
  assert (Hm : getMember schema "metadata" = Ok (getProp schema "metadata")) by by destruct schema.
  destruct (files w !! path) as [[txt m]|] eqn:Hf; simpl.
  - rewrite Hf. simpl. destruct txt as [v|raw]; simpl.
    + destruct v; simpl; rewrite Hm; simpl;
        (eexists _, _; split; [by rewrite <- !app_assoc | split; by repeat constructor]).
    + rewrite Hm. simpl.
      eexists _, _; split; [by rewrite <- !app_assoc | split; by repeat constructor].
  - rewrite Hm. simpl.
    eexists _, _; split; [by rewrite <- !app_assoc | split; by repeat constructor].
Qed.

(** X12: [updateSchemaFile] replaces the file by the new document, field
    for field, except that a new document without (truthy) [metadata]
    inherits the metadata of the document being replaced; this is how the
    project recorded in the schema file survives a pull.  Nothing else is
    written. *)
Theorem updateSchemaFile_keeps_metadata (o : oracle) (w : world) (t : list event)
    (path : string) (schema : json) :
  schema ≠ JNull → NoDup (keys (ownProps schema)) →
  ∃ w' t' written mtime,
    run (Pull.updateSchemaFile path schema) o w t = (Returned tt, w', t') ∧
    files w' = <[path := File (JsonText (JObj written)) mtime]> (files w) ∧
    assoc "metadata" written
      = Some (orElse (getProp schema "metadata") (keptMetadata w path)) ∧
    ∀ k, k ≠ "metadata" → assoc k written = assoc k (ownProps schema).
Proof.
  intros Hs Hnd.
  destruct (updateSchemaFile_run o w t path schema Hs) as (evs & mtime & Hrun & _).
  eexists _, _, _, mtime. split; [exact Hrun|]. split; [reflexivity|].
  split.
  - by rewrite assoc_createDataProperty.
  - intros k Hk. rewrite assoc_createDataProperty.
    destruct (String.eqb_spec k "metadata"); [done|].
    unfold spreadInto. rewrite assoc_foldl_createDataProperty by done.
    by destruct (assoc k (ownProps schema)).
Qed.

Lemma updateSchemaFile_keeps_metadata_witness :
  ∃ w' t' written mtime,
    run (Pull.updateSchemaFile schemaFileName ex_server)
        (ex_oracle 0 (Ok ex_reply) ex_creds (Ok (RawText ""))) ex_world [] = (Returned tt, w', t') ∧
    files w' = <[schemaFileName := File (JsonText (JObj written)) mtime]> (files ex_world) ∧
    assoc "metadata" written = Some ex_project.
Proof.
  destruct (updateSchemaFile_keeps_metadata
              (ex_oracle 0 (Ok ex_reply) ex_creds (Ok (RawText ""))) ex_world []
              schemaFileName ex_server ltac:(discriminate)
              ltac:(apply (bool_decide_unpack _); reflexivity))
    as (w' & t' & written & mtime & H1 & H2 & H3 & _).
  exists w', t', written, mtime. split; [exact H1|]. split; [exact H2 | exact H3].
Defined.

Lemma hasLocalChanges_run (o : oracle) (w : world) (t : list event)
    (path : string) (f : file) (d : jsdate) :
  files w !! path = Some f →
  run (hasLocalChanges path d) o w t
  = (Returned (dateGt (Some (file_mtime f)) d), w,
     t ++ [Event (FsStat path) (Ok (file_mtime f))]).
Proof.
  intros Hf. unfold hasLocalChanges, getSchemaLastModified, perform. simpl.
  by rewrite Hf.
Qed.

Lemma updateLastPullTime_run (o : oracle) (w : world) (t : list event) (file hash : string) :
  ∃ time mtime,
    run (Pull.updateLastPullTime file hash) o w t
    = (Returned tt,
       World (<[file := File (JsonText (JObj [("time", JStr time); ("hash", JStr hash)])) mtime]>
                (files w)),
       t ++ [Event Now (o_time o t);
             Event (ToISOString (o_time o t)) time;
             Event (FsWrite file (JsonText (JObj [("time", JStr time); ("hash", JStr hash)]))) tt]).
Proof.
  unfold Pull.updateLastPullTime, perform. simpl.
  eexists _, _. by rewrite <- !app_assoc.
Qed.

(** X13: a pull never asks when the schema file has not been modified
    since the last pull.  The response carries a schema and the file's
    modification time is not after the last pull: then the response is
    processed to the end without a prompt; the last-pull record receives
    the hash of the server schema; and the schema file is replaced by the
    server schema (keeping the file's metadata if the server sends none)
    when the hashes differ or the server flags an update, and is left alone
    when they do not. *)
Theorem pull_fast_forward (o : oracle) (w : world) (tr0 : list event)
    (r : response) (schemaData serverSchema : json) (localSchemaHash : string)
    (f : file) (t : Z) :
  Pull.serverSchemaOf r = Ok (Some serverSchema) →
  truthy serverSchema = true →
  files w !! schemaFileName = Some f →
  file_mtime f ≤ t →
  ∃ w' evs,
    run (Pull.processServerResponse r schemaData localSchemaHash
           schemaFileName lastPullFileName (Some t)) o w tr0
    = (Returned tt, w', tr0 ++ evs) ∧
    Forall (λ ev, ofKind asks ev = false) evs ∧
    (∃ time mtime,
       files w' !! lastPullFileName
       = Some (File (JsonText (JObj [("time", JStr time);
                                     ("hash", JStr (getSchemaHash serverSchema))])) mtime)) ∧
    (if Pull.isUpdatedOf r || negb (String.eqb (getSchemaHash serverSchema) localSchemaHash)
     then ∃ mtime,
            files w' !! schemaFileName
            = Some (File (JsonText
                            (JObj (createDataProperty "metadata"
                                     (orElse (getProp serverSchema "metadata")
                                             (keptMetadata w schemaFileName))
                                     (spreadInto [] serverSchema)))) mtime)
     else files w' !! schemaFileName = files w !! schemaFileName).
Proof.
  intros Hschema Htruthy Hfile Hle.
  assert (Hss : serverSchema ≠ JNull) by (by intros ->).
  unfold Pull.processServerResponse.
  rewrite Hschema. cbn [lift bind]. rewrite Htruthy. cbn [negb].
  rewrite run_bind, (hasLocalChanges_run _ _ _ _ _ _ Hfile). cbv iota beta.
  assert (Hgt : dateGt (Some (file_mtime f)) (Some t) = false).
  { simpl. apply Z.ltb_ge. lia. }
  rewrite Hgt, andb_false_r.
  rewrite (proj2 (String.eqb_neq _ _) (getSchemaHash_nonempty serverSchema)).
  destruct (Pull.isUpdatedOf r || negb (String.eqb (getSchemaHash serverSchema) localSchemaHash)).
  - rewrite run_bind, run_bind.
    destruct (updateSchemaFile_run o w (tr0 ++ [Event (FsStat schemaFileName) (Ok (file_mtime f))])
                schemaFileName serverSchema Hss) as (evs & mtime & -> & Ha & _).
    rewrite run_say.
    match goal with
    | |- context [run (Pull.updateLastPullTime ?p ?h) o ?w1 ?t1] =>
        destruct (updateLastPullTime_run o w1 t1 p h) as (time & mtime' & ->)
    end.
    eexists _, _. split; [by rewrite <- !app_assoc|].
    split; [|split].
    + constructor; [done|]. apply Forall_app. split; [done | by repeat constructor].
    + eexists _, _. simpl. by rewrite lookup_insert_eq.
    + eexists. simpl. rewrite lookup_insert_ne by done. by rewrite lookup_insert_eq.
  - rewrite run_bind, run_say.
    match goal with
    | |- context [run (Pull.updateLastPullTime ?p ?h) o ?w1 ?t1] =>
        destruct (updateLastPullTime_run o w1 t1 p h) as (time & mtime' & ->)
    end.
    eexists _, _. split; [by rewrite <- !app_assoc|].
    split; [|split].
    + by repeat constructor.
    + eexists _, _. simpl. by rewrite lookup_insert_eq.
    + simpl. by rewrite lookup_insert_ne.
Qed.

Lemma pull_fast_forward_witness :
  ∃ w' evs,
    run (Pull.processServerResponse ex_reply ex_local (getSchemaHash ex_local)
           schemaFileName lastPullFileName (Some 4000))
        (ex_oracle 0 (Ok ex_reply) ex_creds (Ok (RawText ""))) ex_world_pulled []
    = (Returned tt, w', [] ++ evs) ∧
    Forall (λ ev, ofKind asks ev = false) evs.
Proof.
  destruct (pull_fast_forward (ex_oracle 0 (Ok ex_reply) ex_creds (Ok (RawText "")))
              ex_world_pulled [] ex_reply ex_local ex_server (getSchemaHash ex_local)
              (File (JsonText ex_local) 2000) 4000 eq_refl eq_refl eq_refl ltac:(simpl; lia))
    as (w' & evs & H1 & H2 & _).
  exists w', evs. split; [exact H1 | exact H2].
Defined.



(** ** What a push sends *)

Lemma silent_requestCarries (sd : json) (evs : list event) :
  Forall (λ ev, ofKind silent ev = false) evs → Forall (requestCarries sd) evs.
Proof.
  intros H. eapply Forall_impl; [exact H|]. intros [X eff x] Hev.
  destruct eff; simpl in *; done.
Qed.

Lemma pushSchemaToServer_request (o : oracle) (w : world) (t : list event)
    (creds : AuthCredentials) (p : ProjectCredentials) (sd : json) :
  sd ≠ JNull → NoDup (keys (ownProps sd)) →
  ∃ pre req ans,
    Forall (λ ev, ofKind silent ev = false) pre ∧
    carries sd req ∧
    run (Push.pushSchemaToServer creds p sd (getSchemaHash sd)) o w t
    = (match ans with Ok r => Returned r | Throw e => Threw e end, w,
       t ++ pre ++ [Event (Http req) ans]).
Proof.
  intros Hsd Hnd. unfold Push.pushSchemaToServer, perform.
  assert (Hm : getMember sd "tables" = Ok (getProp sd "tables")) by by destruct sd.
  rewrite Hm. simpl.
  match goal with
  | |- context [run (lift ?a) _ _ _] => generalize a
  end; intros ans.
  eexists [_; _; _], _, ans. split; [|split]; last first.
  - destruct ans; simpl; by rewrite <- !app_assoc.
  - eexists _, _, _. split; [reflexivity|]. split; [|split].
    + intros k Hk. rewrite assoc_createDataProperty.
      destruct (String.eqb_spec k "_meta"); [done|].
      unfold spreadInto. rewrite assoc_foldl_createDataProperty by done.
      by destruct (assoc k (ownProps sd)).
    + by rewrite assoc_createDataProperty.
    + reflexivity.
  - by repeat constructor.
Qed.

Ltac carry_all :=
  repeat first [ done | assumption | exact I
               | apply Forall_app; split | apply Forall_cons_2 | apply Forall_nil_2 ].

(** X14: what [push] sends is the schema file.  Every request made in a
    run of [push] is a push request whose body has the top-level fields of
    the document in [hosby.schema.json], unchanged, and besides them a
    [_meta] field that carries the hash of that document (a [_meta] of the
    document itself is overwritten). *)
Theorem push_sends_schema_file (force : bool) (o : oracle) (w w' : world)
    (sd : json) (m : Z) (out : outcome unit) (tr : list event) :
  files w !! schemaFileName = Some (File (JsonText sd) m) →
  NoDup (keys (ownProps sd)) →
  run (Push.push force) o w [] = (out, w', tr) →
  Forall (requestCarries sd) tr.
Proof.
  intros Hfile Hnd Hrun. unfold Push.push in Hrun.
  rewrite run_bind, (checkSchemaExists_run _ _ _ _ Hfile) in Hrun. cbn [negb] in Hrun.
  rewrite run_catch in Hrun.
  assert (Hgoal : ∀ ob wb t0,
            Forall (requestCarries sd) t0 →
            match ob with
            | Threw e =>
                run (_ <- say "Error during push operation"; Push.handlePushError e) o wb t0
            | other => (other, wb, t0)
            end = (out, w', tr) →
            Forall (requestCarries sd) tr).
  { intros ob wb t0 Ht0 Heq. destruct ob as [[]|e|code].
    - by injection Heq as _ _ <-.
    - assert (Hh : avoids silent
                     (_ <- say "Error during push operation"; Push.handlePushError e)).
      { apply avoids_bind; [by apply say_avoids|]. intros _. apply handlePushError_silent. }
      destruct (run_silent requests _ _ _ _ _ _ _ Hh Heq) as (_ & evs' & -> & Hs).
      apply Forall_app. split; [done|]. by apply silent_requestCarries.
    - by injection Heq as _ _ <-. }
  unfold Push.pushAttempt in Hrun.
  rewrite run_bind in Hrun.
  assert (sd = JNull ∨ sd ≠ JNull) as [->|Hsd] by (destruct sd; (by left) || (by right)).
  { revert Hrun. unfold Push.getLocalSchemaInfo, readJson, perform.
    rewrite run_catch. simpl. rewrite Hfile. simpl. intros Hrun.
    injection Hrun as _ _ <-. carry_all. }
  rewrite (Push_getLocalSchemaInfo_run _ _ _ _ _ Hfile Hsd) in Hrun. cbv iota beta in Hrun.
  rewrite run_bind in Hrun.
  match type of Hrun with
  | context [run (Push.hasSchemaChanged ?a ?b ?c) o w ?t0] =>
      destruct (run (Push.hasSchemaChanged a b c) o w t0) as [[out2 w2] t2] eqn:H2;
      destruct (run_silent requests _ _ _ _ _ _ _ (hasSchemaChanged_silent a b c) H2)
        as (-> & evs2 & -> & Hs2)
  end.
  apply silent_requestCarries with (sd := sd) in Hs2.
  destruct out2 as [changed|e|code]; cbv iota beta in Hrun.
  2: { eapply (Hgoal (Threw e)); [|exact Hrun].
       carry_all. }
  2: { eapply (Hgoal (Exited code)); [|exact Hrun].
       carry_all. }
  destruct changed; cbn [negb] in Hrun; cbv iota beta in Hrun.
  2: { rewrite run_say in Hrun.
       eapply (Hgoal (Returned tt)); [|exact Hrun].
       carry_all. }
  rewrite run_bind in Hrun.
  match type of Hrun with
  | context [run Push.authenticate o w ?t0] =>
      destruct (run Push.authenticate o w t0) as [[out3 w3] t3] eqn:H3;
      destruct (run_silent requests _ _ _ _ _ _ _ authenticate_silent H3)
        as (-> & evs3 & -> & Hs3)
  end.
  apply silent_requestCarries with (sd := sd) in Hs3.
  destruct out3 as [creds|e|code]; cbv iota beta in Hrun.
  2: { eapply (Hgoal (Threw e)); [|exact Hrun].
       carry_all. }
  2: { eapply (Hgoal (Exited code)); [|exact Hrun].
       carry_all. }
  rewrite run_bind in Hrun.
  match type of Hrun with
  | context [run getProjectInfos o w ?t0] =>
      destruct (run getProjectInfos o w t0) as [[out4 w4] t4] eqn:H4;
      destruct (run_silent requests _ _ _ _ _ _ _ getProjectInfos_silent H4)
        as (-> & evs4 & -> & Hs4)
  end.
  apply silent_requestCarries with (sd := sd) in Hs4.
  destruct out4 as [p|e|code]; cbv iota beta in Hrun.
  2: { eapply (Hgoal (Threw e)); [|exact Hrun].
       carry_all. }
  2: { eapply (Hgoal (Exited code)); [|exact Hrun].
       carry_all. }
  rewrite run_bind, run_say in Hrun. cbv iota beta in Hrun.
  rewrite run_bind in Hrun.
  match type of Hrun with
  | context [run (Push.pushSchemaToServer creds p sd _) o w ?t0] =>
      destruct (pushSchemaToServer_request o w t0 creds p sd Hsd Hnd)
        as (pre & req & ans & Hpre & Hreq & Heq)
  end.
  rewrite Heq in Hrun. clear Heq.
  apply silent_requestCarries with (sd := sd) in Hpre.
  destruct ans as [resp|e].
  - rewrite run_bind in Hrun.
    match type of Hrun with
    | context [run (Push.updateLastPushFile ?a ?b ?c) o w ?t0] =>
        destruct (updateLastPushFile_run o w t0 a b c) as (now & time & mtime & Heq)
    end.
    rewrite Heq, run_say in Hrun. clear Heq.
    injection Hrun as _ _ <-.
    carry_all.
  - eapply (Hgoal (Threw e)); [|exact Hrun].
    carry_all.
Qed.

Lemma push_sends_schema_file_witness :
  Forall (requestCarries ex_local)
    (run (Push.push false) (ex_oracle 0 (Ok ex_reply) ex_creds (Ok (RawText ""))) ex_world []).2.
Proof.
  destruct (run (Push.push false) (ex_oracle 0 (Ok ex_reply) ex_creds (Ok (RawText "")))
              ex_world []) as [[out w'] tr] eqn:Hrun.
  exact (push_sends_schema_file false (ex_oracle 0 (Ok ex_reply) ex_creds (Ok (RawText "")))
           ex_world w' ex_local 2000 out tr eq_refl
           ltac:(apply (bool_decide_unpack _); reflexivity) Hrun).
Defined.

(** X15: a schema file that is not JSON.  [push] reports the failure and
    returns; [pull], which reads the file outside its [try] block, lets the
    syntax error escape.  Neither sends or writes anything. *)
Theorem commands_on_corrupted_schema (o : oracle) (w : world) (raw : string) (m : Z)
    (force : bool) :
  files w !! schemaFileName = Some (File (RawText raw) m) →
  (∃ tr, run (Push.push force) o w [] = (Returned tt, w, tr) ∧
         Forall (λ ev, ofKind silent ev = false) tr) ∧
  (∃ e tr, run Pull.pull o w [] = (Threw e, w, tr) ∧
           err_name e = "SyntaxError" ∧
           Forall (λ ev, ofKind silent ev = false) tr).
Proof.
  intros Hfile. split.
  - unfold Push.push, Push.pushAttempt, Push.getLocalSchemaInfo, Push.handlePushError,
      checkSchemaExists, readJson, perform, say. simpl.
    rewrite Hfile. simpl. rewrite Hfile. simpl.
    eexists. split; [reflexivity | by repeat constructor].
  - unfold Pull.pull, Pull.getLocalSchemaInfo, checkSchemaExists, readJson, perform, say. simpl.
    rewrite Hfile. simpl. rewrite Hfile. simpl.
    eexists _, _. split; [reflexivity|]. split; [reflexivity | by repeat constructor].
Qed.

Lemma commands_on_corrupted_schema_witness :
  ∃ e tr,
    run Pull.pull (ex_oracle 0 (Ok ex_reply) ex_creds (Ok (RawText "")))
        (World {[ schemaFileName := File (RawText "{") 2000 ]}) []
    = (Threw e, World {[ schemaFileName := File (RawText "{") 2000 ]}, tr) ∧
    err_name e = "SyntaxError" ∧
    Forall (λ ev, ofKind silent ev = false) tr.
Proof.
  exact (proj2 (commands_on_corrupted_schema
                  (ex_oracle 0 (Ok ex_reply) ex_creds (Ok (RawText "")))
                  (World {[ schemaFileName := File (RawText "{") 2000 ]}) "{" 2000 false
                  eq_refl)).
Defined.

(** X16: [push --force] does not consult the last-push record.  Logged in
    and with a schema file that holds a document, it makes exactly one
    request, whatever [.hosby-last-push] holds. *)
Theorem push_force_transmits (o : oracle) (w : world) (sd : json) (m : Z) :
  files w !! schemaFileName = Some (File (JsonText sd) m) → sd ≠ JNull →
  loggedIn o = true →
  ∃ out w' tr,
    run (Push.push true) o w [] = (out, w', tr) ∧
    count (ofKind requests) tr = 1%nat.
Proof.
  intros Hfile Hsd Hlog. unfold Push.push.
  rewrite run_bind, (checkSchemaExists_run _ _ _ _ Hfile). cbn [negb].
  rewrite run_catch. unfold Push.pushAttempt.
  rewrite run_bind, (Push_getLocalSchemaInfo_run _ _ _ _ _ Hfile Hsd).
  cbv iota beta. unfold Push.hasSchemaChanged. cbn [bind negb].
  rewrite run_bind. unfold Push.authenticate. rewrite run_catch.
  match goal with
  | |- context [run requireLogin o w ?t] =>
      destruct (requireLogin_returns o w t Hlog) as (creds & evs2 & -> & Hs2)
  end.
  rewrite run_bind.
  match goal with
  | |- context [run getProjectInfos o w ?t] =>
      destruct (getProjectInfos_run o w t sd m Hfile) as (p & evs3 & He3 & _);
      destruct (run_silent requests _ _ _ _ _ _ _ getProjectInfos_silent He3)
        as (_ & evs3' & Heq & Hs3);
      apply app_inv_head in Heq as <-; rewrite He3; clear He3
  end.
  rewrite run_bind, run_say. cbv iota beta. rewrite run_bind.
  match goal with
  | |- context [run (Push.pushSchemaToServer creds p sd ?h) o w ?t] =>
      destruct (pushSchemaToServer_run o w t creds p sd h Hsd)
        as (pre & req & ans & tr1 & Hpre & -> & ->)
  end.
  apply silent_no_requests in Hs2 as (Hr2 & _ & _).
  apply silent_no_requests in Hs3 as (Hr3 & _ & _).
  apply silent_no_requests in Hpre as (Hrp & _ & _).
  destruct ans as [resp|e].
  - rewrite run_bind.
    match goal with
    | |- context [run (Push.updateLastPushFile ?a ?b ?c) o w ?t] =>
        destruct (updateLastPushFile_run o w t a b c) as (now & time & mtime & ->)
    end.
    rewrite run_say. eexists _, _, _. split; [reflexivity|].
    rewrite !count_app, (count_none _ _ Hr2), (count_none _ _ Hr3), (count_none _ _ Hrp).
    reflexivity.
  - match goal with
    | |- context [run ?h o w ?t] =>
        destruct (run h o w t) as [[out5 w5] t5] eqn:H5
    end.
    assert (Hh : avoids silent
                   (_ <- say "Error during push operation"; Push.handlePushError e)).
    { apply avoids_bind; [by apply say_avoids|]. intros _. apply handlePushError_silent. }
    destruct (run_silent requests _ _ _ _ _ _ _ Hh H5) as (-> & evs5 & -> & Hs5).
    apply silent_no_requests in Hs5 as (Hr5 & _ & _).
    eexists _, _, _. split; [reflexivity|].
    rewrite !count_app, (count_none _ _ Hr2), (count_none _ _ Hr3), (count_none _ _ Hrp),
      (count_none _ _ Hr5).
    reflexivity.
Qed.

Lemma push_force_transmits_witness :
  ∃ out w' tr,
    run (Push.push true) (ex_oracle 0 (Ok ex_reply) ex_creds (Ok (RawText ""))) ex_world_pushed []
    = (out, w', tr) ∧
    count (ofKind requests) tr = 1%nat.
Proof.
  exact (push_force_transmits (ex_oracle 0 (Ok ex_reply) ex_creds (Ok (RawText "")))
           ex_world_pushed ex_local 2000 eq_refl ltac:(discriminate) eq_refl).
Defined.

(** ** Recording the project *)

Lemma setProjectInfos_run (o : oracle) (w : world) (t : list event) (id name : string) :
  takesProject w = true →
  ∃ fs md mtime evs,
    run (setProjectInfos id name) o w t
    = (Returned tt,
       World (<[schemaFileName := File (JsonText (JObj fs)) mtime]> (files w)),
       t ++ evs) ∧
    assoc "metadata" fs = Some (JObj md) ∧
    assoc "project" md = Some (JObj [("id", JStr id); ("name", JStr name)]) ∧
    (∀ k, k ≠ "metadata" →
          assoc k fs = match files w !! schemaFileName with
                       | Some (File (JsonText (JObj fs0)) _) => assoc k fs0
                       | _ => assoc k [("tables", JObj [])]
                       end) ∧
    (∀ j, j ≠ "project" →
          assoc j md = match files w !! schemaFileName with
                       | Some (File (JsonText (JObj fs0)) _) => metadataField fs0 j
                       | _ => None
                       end).
Proof.
  unfold takesProject, setProjectInfos, readJson, perform. simpl.
  destruct (files w !! schemaFileName) as [[txt m]|] eqn:Hf; simpl.
  - rewrite Hf. simpl. destruct txt as [[| | | | |fs0]|raw]; try done. simpl.
    assert (Hset : ∀ (k k' : string) (v : json) (l : list (string * json)),
              k ≠ "__proto__" →
              assoc k' (obj_set k v l) = if String.eqb k' k then Some v else assoc k' l).
    { intros. by apply assoc_obj_set. }
    unfold metadataField.
    destruct (assoc "metadata" fs0) as [[|b|r|s|l|md0]|] eqn:Hmd; simpl; try done.
    1-3: try destruct b; try done.
    all: intros Htr; try (apply negb_true_iff in Htr; rewrite ?Htr); simpl.
    all: eexists _, _, _, _; (split; [by rewrite <- !app_assoc|]).
    all: rewrite ?obj_set_twice by done.
    all: (split; [by rewrite Hset|]); (split; [by rewrite Hset|]); split.
    all: try (intros k Hk; rewrite Hset by done; by destruct (String.eqb_spec k "metadata")).
    all: intros j Hj; rewrite Hset by done; by destruct (String.eqb_spec j "project").
  - intros _. eexists _, _, _, _. split; [by rewrite <- !app_assoc|].
    split; [reflexivity|]. split; [reflexivity|]. split.
    + intros k Hk. simpl.
      destruct (String.eqb_spec k "tables"); [done|].
      by destruct (String.eqb_spec k "metadata").
    + intros j Hj. simpl. by destruct (String.eqb_spec j "project").
Qed.

(** X17: the project that [setProjectInfos] records is the project that
    [getProjectInfos] reads back, whenever the schema file is absent or
    holds an object whose [metadata] is absent, falsy or an object. *)
Theorem project_round_trip (o : oracle) (w : world) (t : list event) (id name : string) :
  takesProject w = true →
  ∃ w' t',
    run (_ <- setProjectInfos id name; getProjectInfos) o w t
    = (Returned (Project (Some (JStr id)) (Some (JStr name))), w', t').
Proof.
  intros Htakes. rewrite run_bind.
  destruct (setProjectInfos_run o w t id name Htakes)
    as (fs & md & mtime & evs & -> & Hmd & Hp & _).
  unfold getProjectInfos, readJson, perform. simpl.
  rewrite lookup_insert_eq. simpl. rewrite Hmd. simpl. rewrite Hp. simpl.
  by eexists _, _.
Qed.

Lemma project_round_trip_witness :
  ∃ w' t',
    run (_ <- setProjectInfos "p7" "shop"; getProjectInfos)
        (ex_oracle 0 (Ok ex_reply) ex_creds (Ok (RawText ""))) ex_world []
    = (Returned (Project (Some (JStr "p7")) (Some (JStr "shop"))), w', t').
Proof.
  exact (project_round_trip (ex_oracle 0 (Ok ex_reply) ex_creds (Ok (RawText "")))
           ex_world [] "p7" "shop" eq_refl).
Defined.

(** X18: recording the project changes nothing else.  When the schema
    file holds an object that can take a project, [setProjectInfos] writes
    that file only, and the document written has the fields of the old one
    - its tables among them - except [metadata], and in [metadata] the
    fields of the old metadata except [project]. *)
Theorem setProjectInfos_frame (o : oracle) (w : world) (t : list event) (id name : string)
    (fs0 : list (string * json)) (m : Z) :
  files w !! schemaFileName = Some (File (JsonText (JObj fs0)) m) →
  takesProject w = true →
  ∃ w' t' fs md mtime,
    run (setProjectInfos id name) o w t = (Returned tt, w', t') ∧
    files w' = <[schemaFileName := File (JsonText (JObj fs)) mtime]> (files w) ∧
    (∀ k, k ≠ "metadata" → assoc k fs = assoc k fs0) ∧
    assoc "metadata" fs = Some (JObj md) ∧
    (∀ j, j ≠ "project" → assoc j md = metadataField fs0 j).
Proof.
  intros Hfile Htakes.
  destruct (setProjectInfos_run o w t id name Htakes)
    as (fs & md & mtime & evs & Hrun & Hmd & _ & Hk & Hj).
  rewrite Hfile in Hk, Hj.
  eexists _, _, fs, md, mtime. split; [exact Hrun|]. by split.
Qed.

Lemma setProjectInfos_frame_witness :
  ∃ w' t' fs md mtime,
    run (setProjectInfos "p7" "shop")
        (ex_oracle 0 (Ok ex_reply) ex_creds (Ok (RawText ""))) ex_world [] = (Returned tt, w', t') ∧
    files w' = <[schemaFileName := File (JsonText (JObj fs)) mtime]> (files ex_world) ∧
    (∀ k, k ≠ "metadata" → assoc k fs = assoc k (ownProps ex_local)) ∧
    assoc "metadata" fs = Some (JObj md) ∧
    (∀ j, j ≠ "project" → assoc j md = metadataField (ownProps ex_local) j).
Proof.
  exact (setProjectInfos_frame (ex_oracle 0 (Ok ex_reply) ex_creds (Ok (RawText "")))
           ex_world [] "p7" "shop" (ownProps ex_local) 2000 eq_refl eq_refl).
Defined.

Lemma obj_update_same {A} (k : string) (v : A) (fs : list (string * A)) :
  assoc k fs = Some v → obj_update k v fs = fs.
Proof.
  induction fs as [|[k0 v0] fs IH]; simpl; [done|].
  destruct (String.eqb_spec k k0) as [->|Hne].
  - by intros [= ->].
  - intros H. by rewrite IH.
Qed.

(** X19: when the schema file cannot take a project.  If it is not JSON,
    or holds [null], a primitive, or an object whose [metadata] is a truthy
    primitive, [setProjectInfos] throws an error that starts with 'Failed
    to save project info: ' and writes nothing.  If it holds a list, or an
    object whose [metadata] is a list, [setProjectInfos] returns normally
    and the file is written back with the document it already held: the
    project is lost without notice. *)
Theorem setProjectInfos_failures (o : oracle) (w : world) (t : list event) (id name : string) :
  (refusesProject w = true →
   ∃ e evs,
     run (setProjectInfos id name) o w t = (Threw e, w, t ++ evs) ∧
     startsWith (err_message e) "Failed to save project info: " = true ∧
     Forall (λ ev, ofKind writes ev = false) evs) ∧
  (losesProject w = true →
   ∃ v m mtime t',
     files w !! schemaFileName = Some (File (JsonText v) m) ∧
     run (setProjectInfos id name) o w t
     = (Returned tt, World (<[schemaFileName := File (JsonText v) mtime]> (files w)), t')).
Proof.
  split.
  - unfold refusesProject, setProjectInfos, readJson, perform. simpl.
    destruct (files w !! schemaFileName) as [[txt m]|] eqn:Hf; simpl; [|done].
    rewrite Hf. simpl.
    destruct txt as [[|b|r|s|l|fs0]|raw]; simpl; try done.
    1-4,6: intros _; eexists _, _; (split; [by rewrite <- !app_assoc|]);
           (split; [reflexivity | by repeat constructor]).
    destruct (assoc "metadata" fs0) as [[|b|r|s|l|md0]|] eqn:Hmd; simpl; try done.
    all: intros Htr; rewrite Htr; simpl.
    all: eexists _, _; (split; [by rewrite <- !app_assoc|]);
         (split; [reflexivity | by repeat constructor]).
  - unfold losesProject, setProjectInfos, readJson, perform. simpl.
    destruct (files w !! schemaFileName) as [[txt m]|] eqn:Hf; simpl; [|done].
    rewrite Hf. simpl.
    destruct txt as [[|b|r|s|l|fs0]|raw]; simpl; try done.
    + intros _. by eexists _, _, _, _.
    + destruct (assoc "metadata" fs0) as [[|b|r|s|l|md0]|] eqn:Hmd; simpl; try done.
      intros _. eexists _, _, _, _. split; [reflexivity|].
      rewrite obj_set_twice by done.
      unfold obj_set. rewrite Hmd, (obj_update_same _ _ _ Hmd). reflexivity.
Qed.

Lemma setProjectInfos_failures_witness :
  ∃ v m mtime t',
    files ex_world_list !! schemaFileName = Some (File (JsonText v) m) ∧
    run (setProjectInfos "p7" "shop")
        (ex_oracle 0 (Ok ex_reply) ex_creds (Ok (RawText ""))) ex_world_list []
    = (Returned tt, World (<[schemaFileName := File (JsonText v) mtime]> (files ex_world_list)), t').
Proof.
  exact (proj2 (setProjectInfos_failures (ex_oracle 0 (Ok ex_reply) ex_creds (Ok (RawText "")))
                  ex_world_list [] "p7" "shop") eq_refl).
Defined.

(** ** What a scan writes *)

Lemma validateScanPath_run (o : oracle) (w : world) (t : list event) (scanPath : string) :
  o_pathExists o scanPath = true → o_isDirectory o scanPath = Ok true →
  run (Scan.validateScanPath scanPath) o w t
  = (Returned true, w,
     t ++ [Event (PathExists scanPath) true; Event (IsDirectory scanPath) (Ok true)]).
Proof.
  intros Hp Hd. unfold Scan.validateScanPath, perform. simpl.
  rewrite Hp. simpl. rewrite Hd. simpl. by rewrite <- !app_assoc.
Qed.

Lemma ensureHosbyTsInstalled_run (o : oracle) (w : world) (t : list event) :
  ∃ installed evs,
    run Scan.ensureHosbyTsInstalled o w t = (Returned installed, w, t ++ evs) ∧
    Forall (λ ev, ofKind writes ev = false) evs.
Proof.
  unfold Scan.ensureHosbyTsInstalled, perform. simpl.
  destruct (o_exec o t "npm list hosby-ts"); simpl;
    (eexists _, _; split; [reflexivity | by repeat constructor]).
Qed.

Lemma installHosbyTs_run (o : oracle) (w : world) (t : list event) :
  ∃ evs,
    run Scan.installHosbyTs o w t = (Returned tt, w, t ++ evs) ∧
    Forall (λ ev, ofKind writes ev = false) evs.
Proof.
  unfold Scan.installHosbyTs, perform, say. simpl.
  destruct (bool_decide (is_Some (files w !! "yarn.lock"))); simpl.
  2: destruct (bool_decide (is_Some (files w !! "pnpm-lock.yaml"))); simpl.
  all: match goal with |- context [o_exec ?o0 ?t0 ?c] => destruct (o_exec o0 t0 c) end; simpl.
  all: eexists; (split; [by rewrite <- !app_assoc | by repeat constructor]).
Qed.

Lemma filter_none (p : event → bool) (evs : list event) :
  Forall (λ ev, p ev = false) evs → List.filter p evs = [].
Proof.
  induction 1 as [|ev evs Hev _ IH]; simpl; [done|]. by rewrite Hev.
Qed.

(** The one write of [processAndFilterSchema]: the filtered schema, at the
    path joined from the scanned directory and the name of the schema file;
    none when sanitising or filtering throws. *)
Lemma processAndFilterSchema_run (pathJoin : string → string → string)
    (o : oracle) (w : world) (t : list event) (schema : jsval) (scanPath : string) :
  ∃ w1 evs,
    run (Scan.processAndFilterSchema pathJoin schema scanPath) o w t
    = (Returned tt, w1, t ++ evs) ∧
    List.filter (ofKind writes) evs
    = match sanitizeThenFilter schema with
      | Ok filtered =>
          [Event (FsWrite (pathJoin scanPath schemaFileName) (JsonText filtered)) tt]
      | Throw _ => []
      end.
Proof.
  unfold Scan.processAndFilterSchema, sanitizeThenFilter, perform, say.
  destruct (sanitizeSchema schema) as [sanitized|e]; simpl.
  - destruct (filterSchema sanitized) as [filtered|e]; simpl.
    + destruct (getProp filtered "tables") as [tables|]; simpl.
      * destruct (ownProps tables); simpl;
          (eexists _, _; split; [by rewrite <- !app_assoc | reflexivity]).
      * eexists _, _; split; [by rewrite <- !app_assoc | reflexivity].
    + eexists _, _. split; [by rewrite <- !app_assoc | reflexivity].
  - eexists _, _. split; [by rewrite <- !app_assoc | reflexivity].
Qed.

(** X20: the writes of a structural scan.  On a directory that exists,
    when the analyser returns a schema, [scan] returns after two writes and
    no other, in this order: the scanned schema, sanitised and then
    filtered, to the path that [path.join] makes of the scanned directory
    and [hosby.schema.json]; and the generated client to
    [src/api/hosbyClient.ts].  If sanitising or filtering throws, the
    schema file is not written and the client still is. *)
Theorem scan_structural_writes (pathJoin : string → string → string)
    (o : oracle) (w : world) (clientContent scanPath : string)
    (options : Scan.ScanOptions) (schema : json) :
  o_pathExists o scanPath = true → o_isDirectory o scanPath = Ok true →
  Scan.ai options = false →
  o_scanProject o scanPath = Ok schema →
  ∃ w' tr,
    run (Scan.scan pathJoin clientContent scanPath options) o w [] = (Returned tt, w', tr) ∧
    List.filter (ofKind writes) tr
    = match sanitizeThenFilter (Json schema) with
      | Ok filtered =>
          [Event (FsWrite (pathJoin scanPath schemaFileName) (JsonText filtered)) tt;
           Event (FsWrite "src/api/hosbyClient.ts" (RawText clientContent)) tt]
      | Throw _ =>
          [Event (FsWrite "src/api/hosbyClient.ts" (RawText clientContent)) tt]
      end.
Proof.
  intros Hp Hd Hai Hscan. unfold Scan.scan.
  rewrite run_bind, (validateScanPath_run _ _ _ _ Hp Hd). cbn [negb]. cbv iota beta.
  rewrite run_bind, run_say. cbv iota beta.
  rewrite run_catch, run_bind.
  match goal with
  | |- context [run Scan.ensureHosbyTsInstalled o w ?t0] =>
      destruct (ensureHosbyTsInstalled_run o w t0) as (installed & evs1 & -> & Hw1)
  end.
  cbv iota beta. rewrite Hai.
  rewrite run_bind, run_say. cbv iota beta.
  rewrite run_bind. unfold perform at 1. cbn [bind run handle]. rewrite Hscan.
  cbn [run bind]. rewrite run_bind, run_say. cbv iota beta. cbn [run].
  rewrite run_bind.
  match goal with
  | |- context [run (Scan.processAndFilterSchema pathJoin ?s ?p) o w ?t0] =>
      destruct (processAndFilterSchema_run pathJoin o w t0 s p) as (w1 & evs2 & -> & Hw2)
  end.
  cbv iota beta. rewrite run_bind.
  assert (Hi : ∀ t1, ∃ evs, run (if negb installed then Scan.installHosbyTs else Ret tt) o w1 t1
                            = (Returned tt, w1, t1 ++ evs) ∧
                            Forall (λ ev, ofKind writes ev = false) evs).
  { intros t1. destruct installed; cbn [negb].
    - exists []. simpl. by rewrite app_nil_r.
    - apply installHosbyTs_run. }
  match goal with
  | |- context [run (if negb installed then _ else _) o w1 ?t1] =>
      destruct (Hi t1) as (evs3 & -> & Hw3)
  end.
  cbv iota beta.
  assert (Hclient : ∀ t1, ∃ w2 evs,
            run (present <- perform (PathExists "src/api");
                 _ <- (if negb present then perform (MkdirP "src/api") else Ret tt);
                 catch
                   (_ <- perform (FsWrite "src/api/hosbyClient.ts" (RawText clientContent));
                    say "Client Hosby generated: src/api/hosbyClient.ts")
                   (λ error, say ("Failed to generate client: " +:+ Scan.messageOr error)))
              o w1 t1
            = (Returned tt, w2, t1 ++ evs) ∧
            List.filter (ofKind writes) evs
            = [Event (FsWrite "src/api/hosbyClient.ts" (RawText clientContent)) tt]).
  { intros t1. unfold perform, say. simpl.
    destruct (o_pathExists o "src/api"); simpl;
      (eexists _, _; split; [by rewrite <- !app_assoc | reflexivity]). }
  match goal with
  | |- context [run _ o w1 ?t1] => destruct (Hclient t1) as (w2 & evs4 & -> & Hw4)
  end.
  eexists _, _. split; [reflexivity|].
  rewrite !List.filter_app, Hw2, Hw4, (filter_none _ _ Hw1), (filter_none _ _ Hw3).
  simpl. by destruct (sanitizeThenFilter (Json schema)).
Qed.

Lemma scan_structural_writes_witness :
  ∃ w' tr,
    run (Scan.scan ex_pathJoin "client" "app"
           (Scan.Options false 60000 "OpenAI" "system" "user"))
        (ex_oracle 0 (Ok ex_reply) ex_creds (Ok (RawText ""))) ex_world []
    = (Returned tt, w', tr) ∧
    List.filter (ofKind writes) tr
    = [Event (FsWrite "app/hosby.schema.json"
                (JsonText (JObj [("tables", JObj []); ("version", JStr "1.0.0");
                                 ("metadata", JObj [])]))) tt;
       Event (FsWrite "src/api/hosbyClient.ts" (RawText "client")) tt].
Proof.
  exact (scan_structural_writes ex_pathJoin
           (ex_oracle 0 (Ok ex_reply) ex_creds (Ok (RawText "")))
           ex_world "client" "app" (Scan.Options false 60000 "OpenAI" "system" "user")
           (JObj [("tables", JObj [])]) eq_refl eq_refl eq_refl eq_refl).
Defined.

(** X21: a structural scan that fails writes nothing.  When the analyser
    throws, [scan] reports 'Project scan failed: ' with the message of the
    error, or with 'Unknown error' when the message is empty, and returns;
    the world is as it was: no schema file, no client. *)
Theorem scan_structural_failure (pathJoin : string → string → string)
    (o : oracle) (w : world) (clientContent scanPath : string)
    (options : Scan.ScanOptions) (e : jserror) :
  o_pathExists o scanPath = true → o_isDirectory o scanPath = Ok true →
  Scan.ai options = false →
  o_scanProject o scanPath = Throw e →
  ∃ tr,
    run (Scan.scan pathJoin clientContent scanPath options) o w [] = (Returned tt, w, tr) ∧
    Forall (λ ev, ofKind writes ev = false) tr ∧
    last tr = Some (Event (Say ("Project scan failed: " +:+ Scan.messageOr e)) tt).
Proof.
  intros Hp Hd Hai Hscan. unfold Scan.scan.
  rewrite run_bind, (validateScanPath_run _ _ _ _ Hp Hd). cbn [negb]. cbv iota beta.
  rewrite run_bind, run_say. cbv iota beta.
  rewrite run_catch, run_bind.
  match goal with
  | |- context [run Scan.ensureHosbyTsInstalled o w ?t0] =>
      destruct (ensureHosbyTsInstalled_run o w t0) as (installed & evs1 & -> & Hw1)
  end.
  cbv iota beta. rewrite Hai.
  rewrite run_bind, run_say. cbv iota beta.
  rewrite run_bind. unfold perform at 1. cbn [bind run handle]. rewrite Hscan.
  cbn [run bind]. rewrite run_bind, run_say. cbv iota beta. cbn [run].
  eexists. split; [reflexivity|]. split.
  - repeat (apply Forall_app; split); try done; by repeat constructor.
  - by rewrite last_snoc.
Qed.

Lemma scan_structural_failure_witness :
  ∃ tr,
    run (Scan.scan ex_pathJoin "client" "app"
           (Scan.Options false 60000 "OpenAI" "system" "user"))
        (Oracle (λ _, 0) (λ _ _, Ok ex_reply) (λ _, 0%nat) ex_creds (λ _, None) (λ _, None)
                (λ _, "") (λ _, true) (λ _, Ok true) (λ _ _, Ok tt)
                (λ _, Throw (mkError "")) (λ _ _ _, Ok (RawText "")))
        ex_world []
    = (Returned tt, ex_world, tr) ∧
    Forall (λ ev, ofKind writes ev = false) tr ∧
    last tr = Some (Event (Say "Project scan failed: Unknown error") tt).
Proof.
  exact (scan_structural_failure ex_pathJoin
           (Oracle (λ _, 0) (λ _ _, Ok ex_reply) (λ _, 0%nat) ex_creds (λ _, None) (λ _, None)
                   (λ _, "") (λ _, true) (λ _, Ok true) (λ _ _, Ok tt)
                   (λ _, Throw (mkError "")) (λ _ _ _, Ok (RawText "")))
           ex_world "client" "app" (Scan.Options false 60000 "OpenAI" "system" "user")
           (mkError "") eq_refl eq_refl eq_refl eq_refl).
Defined.

(** ** Comparing versions *)

Lemma numberLt_Finite (x y : QArith_base.Q) :
  numberLt (Finite x) (Finite y) = true ↔ QArith_base.Qlt x y.
Proof.
  simpl. rewrite negb_true_iff. split.
  - intros H. destruct (QArith_base.Qlt_le_dec x y) as [|Hle]; [done|].
    apply QArith_base.Qle_bool_iff in Hle. congruence.
  - intros H. destruct (QArith_base.Qle_bool y x) eqn:E; [|done].
    apply QArith_base.Qle_bool_iff in E. Lqa.lra.
Qed.

Lemma numberLt_Finite_false (x y : QArith_base.Q) :
  numberLt (Finite x) (Finite y) = false ↔ QArith_base.Qle y x.
Proof.
  simpl. rewrite negb_false_iff. apply QArith_base.Qle_bool_iff.
Qed.

Lemma numberLt_irrefl (a : jsnumber) : numberLt a a = false.
Proof.
  destruct a; try done. apply numberLt_Finite_false. Lqa.lra.
Qed.

Lemma numberLt_asym (a b : jsnumber) : numberLt a b = true → numberLt b a = false.
Proof.
  destruct a, b; try done.
  rewrite numberLt_Finite, numberLt_Finite_false. Lqa.lra.
Qed.

Lemma numberLt_trans (a b c : jsnumber) :
  numberLt a b = true → numberLt b c = true → numberLt a c = true.
Proof.
  destruct a, b, c; try done.
  rewrite !numberLt_Finite. Lqa.lra.
Qed.

Lemma orZero_isNumber (part : option jsnumber) : isNumber (orZero part).
Proof.
  destruct part as [[]|]; simpl; try done. by case_match.
Qed.

Lemma numberLt_left (a b c : jsnumber) :
  isNumber a → isNumber b →
  numberLt b a = false → numberLt b c = true → numberLt a c = true.
Proof.
  intros Ha Hb. destruct a, b, c; try done.
  rewrite numberLt_Finite_false, !numberLt_Finite. Lqa.lra.
Qed.

Lemma numberLt_right (a b c : jsnumber) :
  isNumber b → isNumber c →
  numberLt a b = true → numberLt c b = false → numberLt a c = true.
Proof.
  intros Hb Hc. destruct a, b, c; try done.
  rewrite numberLt_Finite_false, !numberLt_Finite. Lqa.lra.
Qed.

Lemma compareFrom_range (n i : nat) (p1 p2 : list jsnumber) :
  compareFrom n i p1 p2 = 1 ∨ compareFrom n i p1 p2 = 0 ∨ compareFrom n i p1 p2 = -1.
Proof.
  revert i. induction n as [|n IH]; intros i; simpl; [by right; left|].
  repeat case_match; auto.
Qed.

Lemma compareFrom_swap (n i : nat) (p1 p2 : list jsnumber) :
  compareFrom n i p2 p1 = - compareFrom n i p1 p2.
Proof.
  revert i. induction n as [|n IH]; intros i; simpl; [done|].
  destruct (numberLt (orZero (p2 !! i)) (orZero (p1 !! i))) eqn:E1.
  - by rewrite (numberLt_asym _ _ E1).
  - destruct (numberLt (orZero (p1 !! i)) (orZero (p2 !! i))); [done|]. apply IH.
Qed.

(** Past the end of both arrays every part is zero. *)
Lemma compareFrom_past (n i : nat) (p1 p2 : list jsnumber) :
  (length p1 ≤ i)%nat → (length p2 ≤ i)%nat → compareFrom n i p1 p2 = 0.
Proof.
  revert i. induction n as [|n IH]; intros i H1 H2; simpl; [done|].
  rewrite (lookup_ge_None_2 p1 i), (lookup_ge_None_2 p2 i) by done.
  rewrite numberLt_irrefl. apply IH; lia.
Qed.

(** More iterations than the longer array has elements change nothing. *)
Lemma compareFrom_more (n m i : nat) (p1 p2 : list jsnumber) :
  (length p1 ≤ i + n)%nat → (length p2 ≤ i + n)%nat →
  compareFrom (n + m) i p1 p2 = compareFrom n i p1 p2.
Proof.
  revert i. induction n as [|n IH]; intros i H1 H2.
  - simpl. apply compareFrom_past; lia.
  - simpl. rewrite IH by lia. done.
Qed.

Lemma compareFrom_enough (n : nat) (p1 p2 : list jsnumber) :
  (Nat.max (length p1) (length p2) ≤ n)%nat →
  compareFrom n 0 p1 p2 = compareFrom (Nat.max (length p1) (length p2)) 0 p1 p2.
Proof.
  intros H.
  replace n with (Nat.max (length p1) (length p2) + (n - Nat.max (length p1) (length p2)))%nat
    by lia.
  apply compareFrom_more; lia.
Qed.

(** The loop only sees the parts through [orZero]. *)
Lemma compareFrom_ext (n i : nat) (p1 p1' p2 : list jsnumber) :
  (∀ j, orZero (p1 !! j) = orZero (p1' !! j)) →
  compareFrom n i p1 p2 = compareFrom n i p1' p2.
Proof.
  intros H. revert i. induction n as [|n IH]; intros i; simpl; [done|].
  by rewrite H, IH.
Qed.

Lemma compareFrom_trans (n i : nat) (p1 p2 p3 : list jsnumber) :
  compareFrom n i p1 p2 ≤ 0 → compareFrom n i p2 p3 ≤ 0 → compareFrom n i p1 p3 ≤ 0.
Proof.
  revert i. induction n as [|n IH]; intros i; simpl; [done|].
  pose proof (orZero_isNumber (p1 !! i)) as N1.
  pose proof (orZero_isNumber (p2 !! i)) as N2.
  pose proof (orZero_isNumber (p3 !! i)) as N3.
  destruct (numberLt (orZero (p2 !! i)) (orZero (p1 !! i))) eqn:E21; [lia|].
  destruct (numberLt (orZero (p3 !! i)) (orZero (p2 !! i))) eqn:E32;
    [destruct (numberLt (orZero (p1 !! i)) (orZero (p2 !! i))); lia|].
  destruct (numberLt (orZero (p1 !! i)) (orZero (p2 !! i))) eqn:E12.
  - intros _ _.
    rewrite (numberLt_asym _ _ (numberLt_right _ _ _ N2 N3 E12 E32)).
    rewrite (numberLt_right _ _ _ N2 N3 E12 E32). lia.
  - destruct (numberLt (orZero (p2 !! i)) (orZero (p3 !! i))) eqn:E23.
    + intros _ _.
      rewrite (numberLt_asym _ _ (numberLt_left _ _ _ N1 N2 E21 E23)).
      rewrite (numberLt_left _ _ _ N1 N2 E21 E23). lia.
    + assert (numberLt (orZero (p3 !! i)) (orZero (p1 !! i)) = false) as ->.
      { destruct (numberLt (orZero (p3 !! i)) (orZero (p1 !! i))) eqn:E31; [|done].
        pose proof (numberLt_right _ _ _ N1 N2 E31 E21). congruence. }
      assert (numberLt (orZero (p1 !! i)) (orZero (p3 !! i)) = false) as ->.
      { destruct (numberLt (orZero (p1 !! i)) (orZero (p3 !! i))) eqn:E13; [|done].
        pose proof (numberLt_left _ _ _ N2 N1 E12 E13). congruence. }
      apply IH.
Qed.

Lemma splitOnDot_nonempty (v : string) : splitOnDot v ≠ [].
Proof.
  destruct v as [|c v]; simpl; [done|]. by repeat case_match.
Qed.

Lemma splitOnDot_append (v z : string) :
  splitOnDot (v +:+ "." +:+ z) = splitOnDot v ++ splitOnDot z.
Proof.
  induction v as [|c v IH]; [done|].
  rewrite append_cons. simpl. rewrite IH.
  destruct (Ascii.eqb c "."); [done|].
  pose proof (splitOnDot_nonempty v). by destruct (splitOnDot v).
Qed.

Lemma orZero_lookup_app (p zs : list jsnumber) (j : nat) :
  Forall (λ n, falsyNumber n = true) zs →
  orZero ((p ++ zs) !! j) = orZero (p !! j).
Proof.
  intros Hz. destruct (decide (j < length p)%nat) as [Hj|Hj].
  - by rewrite lookup_app_l.
  - rewrite lookup_app_r, (lookup_ge_None_2 p j) by lia.
    destruct (zs !! (j - length p)%nat) as [n|] eqn:E; [|done].
    apply (Forall_lookup_1 _ _ _ _ Hz) in E. simpl. by rewrite E.
Qed.

(** X22: for every conversion [Number], [compareVersions] answers 1, 0 or
    -1, and exchanging the two versions negates the answer; so a version
    compares equal to itself, and of two versions at most one is the newer. *)
Theorem compareVersions_antisymmetric (Number : string → jsnumber) (v1 v2 : string) :
  (compareVersions Number v1 v2 = 1 ∨ compareVersions Number v1 v2 = 0 ∨
   compareVersions Number v1 v2 = -1) ∧
  compareVersions Number v2 v1 = - compareVersions Number v1 v2 ∧
  compareVersions Number v1 v1 = 0.
Proof.
  assert (Hswap : ∀ a b, compareVersions Number b a = - compareVersions Number a b).
  { intros a b. unfold compareVersions. cbv zeta.
    rewrite Nat.max_comm. apply compareFrom_swap. }
  split; [apply compareFrom_range|]. split; [apply Hswap|].
  pose proof (Hswap v1 v1). lia.
Qed.

(** X23: [compareVersions] orders the versions: when [v1] is not newer
    than [v2] and [v2] is not newer than [v3], [v1] is not newer than [v3],
    whatever the lengths of the three and whatever [Number] makes of their
    parts. *)
Theorem compareVersions_transitive (Number : string → jsnumber) (v1 v2 v3 : string) :
  compareVersions Number v1 v2 ≤ 0 → compareVersions Number v2 v3 ≤ 0 →
  compareVersions Number v1 v3 ≤ 0.
Proof.
  unfold compareVersions. cbv zeta.
  set (p1 := Number <$> splitOnDot v1). set (p2 := Number <$> splitOnDot v2).
  set (p3 := Number <$> splitOnDot v3).
  set (n := Nat.max (length p1) (Nat.max (length p2) (length p3))).
  rewrite <- (compareFrom_enough n p1 p2), <- (compareFrom_enough n p2 p3),
    <- (compareFrom_enough n p1 p3) by lia.
  apply compareFrom_trans.
Qed.

Lemma compareVersions_transitive_witness :
  compareVersions ex_Number "1.9" "1.10.2" ≤ 0 ∧
  compareVersions ex_Number "1.10.2" "2" ≤ 0 ∧
  compareVersions ex_Number "1.9" "2" ≤ 0.
Proof.
  assert (H1 : compareVersions ex_Number "1.9" "1.10.2" ≤ 0) by (vm_compute; discriminate).
  assert (H2 : compareVersions ex_Number "1.10.2" "2" ≤ 0) by (vm_compute; discriminate).
  split; [exact H1|]. split; [exact H2|].
  exact (compareVersions_transitive ex_Number "1.9" "1.10.2" "2" H1 H2).
Defined.

(** X24: parts that [Number] turns into zero or [NaN] count for nothing at
    the end of a version: appending a dot and such parts to [v] leaves every
    comparison of [v] as it was, on either side.  So [1.2] and [1.2.0] are
    the same version, and so are [1.2] and [1.2.beta]. *)
Theorem compareVersions_trailing_zero (Number : string → jsnumber) (v z w : string) :
  Forall (λ part, falsyNumber (Number part) = true) (splitOnDot z) →
  compareVersions Number (v +:+ "." +:+ z) w = compareVersions Number v w ∧
  compareVersions Number w (v +:+ "." +:+ z) = compareVersions Number w v.
Proof.
  intros Hz.
  assert (H : compareVersions Number (v +:+ "." +:+ z) w = compareVersions Number v w).
  { unfold compareVersions. cbv zeta. rewrite splitOnDot_append, fmap_app.
    set (p := Number <$> splitOnDot v). set (zs := Number <$> splitOnDot z).
    set (q := Number <$> splitOnDot w).
    assert (Hzs : Forall (λ n, falsyNumber n = true) zs).
    { subst zs. by apply Forall_fmap. }
    rewrite (compareFrom_ext _ _ (p ++ zs) p q) by (intros j; by apply orZero_lookup_app).
    apply compareFrom_enough. rewrite length_app. lia. }
  split; [exact H|].
  assert (Hswap : ∀ a b, compareVersions Number b a = - compareVersions Number a b).
  { intros a b. unfold compareVersions. cbv zeta.
    rewrite Nat.max_comm. apply compareFrom_swap. }
  by rewrite (Hswap _ w), (Hswap v w), H.
Qed.

Lemma compareVersions_trailing_zero_witness :
  compareVersions ex_Number "1.2.0.beta" "1.3" = compareVersions ex_Number "1.2" "1.3" ∧
  compareVersions ex_Number "1.2" "1.2.0.beta" = 0.
Proof.
  assert (Hz : Forall (λ part, falsyNumber (ex_Number part) = true) (splitOnDot "0.beta")).
  { repeat constructor. }
  destruct (compareVersions_trailing_zero ex_Number "1.2" "0.beta" "1.3" Hz) as [H1 _].
  destruct (compareVersions_trailing_zero ex_Number "1.2" "0.beta" "1.2" Hz) as [_ H2].
  split; [exact H1|].
  etrans; [exact H2|]. vm_compute. reflexivity.
Defined.
